(** * Minesweeper (components.py, run.py): model and verification

    The board of [components.py] is embedded as a record of Python
    integers ([Z]), booleans and a list of cells.  Methods that mutate
    [self] become functions from a board to a result; a result is either
    a new board or a Python exception ([IndexError] from a list
    subscript, [RecursionError] when the recursive flood fill of
    [Board.reveal] exceeds the available call depth).  The caller never
    catches an exception, so a call that raises leaves no board behind.

    [random.shuffle] is the only source of non-determinism.  It is
    called at most once per board (inside [place_mines]), so its outcome
    is a section variable [shuffle], about which only the fact that it
    permutes its argument is assumed.

    The input handling of [run.py] ([pos_to_grid], [handle_mouse],
    [give_hint], the event loop of [run_step]) is embedded on top of the
    board: the game is a record of the attributes the handlers read and
    write, the module [config] a record of its attributes.  Each value
    read from [pygame.time.get_ticks()] and each draw of
    [random.choice] is an argument of the handler that reads it.  An
    attribute that [run.py] reads and [config.py] does not define is
    [None] in the record, and its read raises [AttributeError].  The
    running program is followed event by event, through the states it
    passes before [draw] renders; rendering reads the game only and is
    not modelled, and nothing is stated about [draw] returning.

    Layout of the file: the model; the predicates used in the
    statements; lemmas on loops, grids, subscripts and counting; mine
    placement; the invariant of the reachable boards; the statements of
    the specification, one theorem each; further properties of the
    board and of the presentation layer; concrete runs. *)

From stdpp Require Import base numbers list gmap strings.
From Stdlib Require Import ZArith Lia Permutation.

Local Open Scope Z_scope.

(** ** Python results *)

Inductive exn : Type := IndexError | RecursionError.

Inductive res (A : Type) : Type :=
| Ret (a : A)
| Raise (e : exn).
Arguments Ret {A} a.
Arguments Raise {A} e.

Definition bind {A B : Type} (m : res A) (k : A → res B) : res B :=
  match m with
  | Ret a => k a
  | Raise e => Raise e
  end.

Notation "x ←! m ; k" := (bind m (λ x, k))
  (at level 100, m at next level, right associativity, only parsing).

(** A [for] loop whose body may raise: the state is threaded from left
    to right and the first exception aborts the loop. *)
Fixpoint for_each {S X : Type} (body : S → X → res S) (xs : list X) (s : S) : res S :=
  match xs with
  | [] => Ret s
  | x :: xs' => s' ←! body s x; for_each body xs' s'
  end.

(** ** Data model *)

Record CellState : Type := mkCellState {
  is_mine : bool;
  is_revealed : bool;
  is_flagged : bool;
  adjacent : Z
}.

Record Cell : Type := mkCell {
  col : Z;
  row : Z;
  state : CellState
}.

Record Board : Type := mkBoard {
  cols : Z;
  rows : Z;
  num_mines : Z;
  cells : list Cell;
  mines_placed : bool;
  revealed_count : Z;
  game_over : bool;
  win : bool
}.

Abbreviation pos := (Z * Z)%type.

(** Attribute assignments [cell.state.x = v]. *)
Definition set_is_mine (v : bool) (x : Cell) : Cell :=
  mkCell (col x) (row x)
    (mkCellState v (is_revealed (state x)) (is_flagged (state x)) (adjacent (state x))).
Definition set_is_revealed (v : bool) (x : Cell) : Cell :=
  mkCell (col x) (row x)
    (mkCellState (is_mine (state x)) v (is_flagged (state x)) (adjacent (state x))).
Definition set_is_flagged (v : bool) (x : Cell) : Cell :=
  mkCell (col x) (row x)
    (mkCellState (is_mine (state x)) (is_revealed (state x)) v (adjacent (state x))).
Definition set_adjacent (v : Z) (x : Cell) : Cell :=
  mkCell (col x) (row x)
    (mkCellState (is_mine (state x)) (is_revealed (state x)) (is_flagged (state x)) v).

(** Attribute assignments [self.x = v]. *)
Definition set_cells (l : list Cell) (b : Board) : Board :=
  mkBoard (cols b) (rows b) (num_mines b) l (mines_placed b)
    (revealed_count b) (game_over b) (win b).
Definition set_mines_placed (v : bool) (b : Board) : Board :=
  mkBoard (cols b) (rows b) (num_mines b) (cells b) v
    (revealed_count b) (game_over b) (win b).
Definition set_revealed_count (v : Z) (b : Board) : Board :=
  mkBoard (cols b) (rows b) (num_mines b) (cells b) (mines_placed b)
    v (game_over b) (win b).
Definition set_game_over (v : bool) (b : Board) : Board :=
  mkBoard (cols b) (rows b) (num_mines b) (cells b) (mines_placed b)
    (revealed_count b) v (win b).
Definition set_win (v : bool) (b : Board) : Board :=
  mkBoard (cols b) (rows b) (num_mines b) (cells b) (mines_placed b)
    (revealed_count b) (game_over b) v.

(** ** Python lists and ranges *)

(** [range(n)]: empty when [n <= 0]. *)
Definition py_range (n : Z) : list Z := seqZ 0 n.

(** [[f(c, r) for r in range(rows) for c in range(cols)]]. *)
Definition grid {A : Type} (f : Z → Z → A) (ncols nrows : Z) : list A :=
  flat_map (λ r, map (λ c, f c r) (py_range ncols)) (py_range nrows).

(** The slot a subscript [l[i]] denotes: negative subscripts count from
    the end, anything outside [-len, len) raises [IndexError]. *)
Definition py_slot (len : nat) (i : Z) : option nat :=
  if 0 <=? i then
    if i <? Z.of_nat len then Some (Z.to_nat i) else None
  else
    if - Z.of_nat len <=? i then Some (Z.to_nat (Z.of_nat len + i)) else None.

(** [l[i]]: the slot (standing for the object reference) and the cell
    found there. *)
Definition getitem (l : list Cell) (i : Z) : res (nat * Cell) :=
  match py_slot (length l) i with
  | Some k =>
      match l !! k with
      | Some x => Ret (k, x)
      | None => Raise IndexError
      end
  | None => Raise IndexError
  end.

(** [l[:n]]. *)
Definition slice_to {A : Type} (l : list A) (n : Z) : list A :=
  if 0 <=? n then take (Z.to_nat n) l
  else take (Z.to_nat (Z.of_nat (length l) + n)) l.

(** The shuffle outcome that leaves the pool in row-major order; used
    for the concrete runs at the end. *)
Definition id_shuffle (l : list pos) : list pos := l.

(** ** Board: construction and coordinates *)

Definition new_cell (c r : Z) : Cell :=
  mkCell c r (mkCellState false false false 0).

Definition new_board (ncols nrows mines : Z) : Board :=
  mkBoard ncols nrows mines (grid new_cell ncols nrows) false 0 false false.

Definition index (b : Board) (c r : Z) : Z := r * cols b + c.

Definition is_inbounds (b : Board) (c r : Z) : bool :=
  (0 <=? c) && (c <? cols b) && ((0 <=? r) && (r <? rows b)).

Definition deltas : list pos :=
  [ (-1, -1); (0, -1); (1, -1);
    (-1, 0);           (1, 0);
    (-1, 1);  (0, 1);  (1, 1) ].

Definition neighbors (b : Board) (c r : Z) : list pos :=
  List.filter (λ n, is_inbounds b n.1 n.2)
    (map (λ d, (c + d.1, r + d.2)) deltas).

(** ** Board: loss sweep, win check, flag count *)

Definition reveal_all_mines (b : Board) : Board :=
  set_cells
    ((λ x, if is_mine (state x) then set_is_revealed true x else x) <$> cells b)
    b.

Definition check_win (b : Board) : Board :=
  let total_cells := cols b * rows b in
  if (revealed_count b =? total_cells - num_mines b) && negb (game_over b) then
    set_cells
      ((λ x, if negb (is_revealed (state x)) && negb (is_mine (state x))
             then set_is_revealed true x else x) <$> cells b)
      (set_win true b)
  else b.

Definition flagged_count (b : Board) : Z :=
  fold_left (λ count x, if is_flagged (state x) then count + 1 else count)
    (cells b) 0.

(** ** Board: flag toggling *)

Definition toggle_flag (b : Board) (c r : Z) : res Board :=
  if negb (is_inbounds b c r) then Ret b
  else
    kx ←! getitem (cells b) (index b c r);
    let '(k, x) := kx in
    if is_revealed (state x) then Ret b
    else
      let x' := set_is_flagged (negb (is_flagged (state x))) x in
      Ret (check_win (set_cells (<[k := x']> (cells b)) b)).

(** ** Board: mine placement and reveal *)

Section WithShuffle.

(** The outcome of [random.shuffle] on the candidate pool. *)
Variable shuffle : list pos → list pos.
Hypothesis shuffle_perm : ∀ l, Permutation (shuffle l) l.

(** Body of [for c, r in mine_positions]. *)
Definition mark_mine (b : Board) (l : list Cell) (p : pos) : res (list Cell) :=
  kx ←! getitem l (index b p.1 p.2);
  let '(k, x) := kx in
  Ret (<[k := set_is_mine true x]> l).

(** Body of [for nc, nr in self.neighbors(c, r)]. *)
Definition count_step (b : Board) (l : list Cell) (mine_count : Z) (n : pos) : res Z :=
  ky ←! getitem l (index b n.1 n.2);
  let '(_, y) := ky in
  Ret (if is_mine (state y) then mine_count + 1 else mine_count).

(** Body of the two nested loops over [range(rows)] and [range(cols)]. *)
Definition adjacency_step (b : Board) (l : list Cell) (p : pos) : res (list Cell) :=
  kx ←! getitem l (index b p.1 p.2);
  let '(k, x) := kx in
  if negb (is_mine (state x)) then
    mine_count ←! for_each (count_step b l) (neighbors b p.1 p.2) 0;
    Ret (<[k := set_adjacent mine_count x]> l)
  else Ret l.

Definition place_mines (b : Board) (safe_col safe_row : Z) : res Board :=
  let all_positions := grid (λ c r, (c, r)) (cols b) (rows b) in
  let forbidden : gset pos :=
    {[ (safe_col, safe_row) ]} ∪ list_to_set (neighbors b safe_col safe_row) in
  let pool := List.filter (λ p, bool_decide (p ∉ forbidden)) all_positions in
  let pool := shuffle pool in
  let mine_positions := slice_to pool (num_mines b) in
  l1 ←! for_each (mark_mine b) mine_positions (cells b);
  l2 ←! for_each (adjacency_step b) all_positions l1;
  Ret (set_mines_placed true (set_cells l2 b)).

(** [reveal] calls itself for every neighbour of a zero-adjacent cell.
    [depth] is the number of nested calls the interpreter still allows;
    exhausting it is Python's [RecursionError]. *)
Fixpoint reveal (depth : nat) (b : Board) (c r : Z) : res Board :=
  match depth with
  | O => Raise RecursionError
  | S depth' =>
      if negb (is_inbounds b c r) then Ret b
      else
        b1 ←! (if negb (mines_placed b) then place_mines b c r else Ret b);
        kx ←! getitem (cells b1) (index b1 c r);
        let '(k, x) := kx in
        if is_revealed (state x) || is_flagged (state x) then Ret b1
        else
          let x' := set_is_revealed true x in
          let b2 := set_revealed_count (revealed_count b1 + 1)
                      (set_cells (<[k := x']> (cells b1)) b1) in
          if is_mine (state x') then
            Ret (reveal_all_mines (set_game_over true b2))
          else
            b3 ←! (if adjacent (state x') =? 0 then
                     for_each (λ b' n, reveal depth' b' n.1 n.2)
                       (neighbors b2 c r) b2
                   else Ret b2);
            Ret (check_win b3)
  end.

(** ** Runs of the board *)

(** One public mutator call that returns normally. *)
Inductive step : Board → Board → Prop :=
| step_reveal depth b c r b' :
    reveal depth b c r = Ret b' → step b b'
| step_toggle_flag b c r b' :
    toggle_flag b c r = Ret b' → step b b'.

(** The boards a caller can obtain from [Board(ncols, nrows, mines)]. *)
Definition reachable (ncols nrows mines : Z) (b : Board) : Prop :=
  rtc step (new_board ncols nrows mines) b.

(** The documented precondition on the configuration: a mine count that
    leaves room for the mine-free zone around the first click. *)
Definition valid_config (ncols nrows mines : Z) : Prop :=
  0 ≤ mines ≤ ncols * nrows - 9.

(** ** Observations used in the statements *)

Definition slot (b : Board) (c r : Z) : nat := Z.to_nat (index b c r).

Definition cell_at (b : Board) (c r : Z) : option Cell :=
  if is_inbounds b c r then cells b !! slot b c r else None.

Definition count_cells (f : CellState → bool) (l : list Cell) : nat :=
  length (List.filter (λ x, f (state x)) l).

Definition mine_at (b : Board) (l : list Cell) (p : pos) : bool :=
  match l !! Z.to_nat (index b p.1 p.2) with
  | Some y => is_mine (state y)
  | None => false
  end.

(** Brute-force recomputation of the number of mines around [(c, r)]. *)
Definition mines_around (b : Board) (l : list Cell) (c r : Z) : Z :=
  Z.of_nat (length (List.filter (mine_at b l) (neighbors b c r))).

(** The count in the words of the specification, independent of
    [neighbors]: the cells of the board that are mines and whose column
    and row differ from [c] and [r] by at most 1, the cell at [(c, r)]
    itself excluded. *)
Definition near (c r : Z) (p : pos) : bool :=
  (Z.abs (p.1 - c) <=? 1) && (Z.abs (p.2 - r) <=? 1) &&
  negb ((p.1 =? c) && (p.2 =? r)).

Definition mines_beside (b : Board) (c r : Z) : Z :=
  Z.of_nat (length (List.filter
    (λ y, is_mine (state y) && near c r (col y, row y)) (cells b))).

(** The intermediate values of [place_mines], named for the statements. *)
Definition forbidden_zone (b : Board) (safe_col safe_row : Z) : gset pos :=
  {[ (safe_col, safe_row) ]} ∪ list_to_set (neighbors b safe_col safe_row).

Definition candidate_pool (b : Board) (safe_col safe_row : Z) : list pos :=
  List.filter (λ p, bool_decide (p ∉ forbidden_zone b safe_col safe_row))
    (grid (λ c r, (c, r)) (cols b) (rows b)).

Definition chosen_mines (b : Board) (safe_col safe_row : Z) : list pos :=
  slice_to (shuffle (candidate_pool b safe_col safe_row)) (num_mines b).

(** Every non-mine cell carries the number of mines around it. *)
Definition adjacency_ok (b : Board) : Prop :=
  ∀ c r x, cell_at b c r = Some x → is_mine (state x) = false →
    adjacent (state x) = mines_around b (cells b) c r.

(** Marking one closed cell as revealed and counting it. *)
Definition open_cell (k : nat) (x : Cell) (b : Board) : Board :=
  set_revealed_count (revealed_count b + 1)
    (set_cells (<[k := set_is_revealed true x]> (cells b)) b).

(** Inverting the flag of one cell. *)
Definition flip_flag (k : nat) (x : Cell) (b : Board) : Board :=
  set_cells (<[k := set_is_flagged (negb (is_flagged (state x))) x]> (cells b)) b.

(** The number of cells not yet revealed. *)
Definition closed_cells (b : Board) : nat :=
  (length (cells b) - count_cells is_revealed (cells b))%nat.

Definition mine_free (b : Board) (p : pos) : Prop :=
  ∃ x, cell_at b p.1 p.2 = Some x ∧ is_mine (state x) = false.

(** ** The region a flood fill opens *)

Definition revealed_at (b : Board) (p : pos) : Prop :=
  ∃ x, cell_at b p.1 p.2 = Some x ∧ is_revealed (state x) = true.

Definition closed_at (b : Board) (p : pos) : Prop :=
  ∃ x, cell_at b p.1 p.2 = Some x ∧ is_revealed (state x) = false.

Definition flagged_at (b : Board) (p : pos) : Prop :=
  ∃ x, cell_at b p.1 p.2 = Some x ∧ is_flagged (state x) = true.

(** A cell [reveal] would open: closed and not flagged. *)
Definition openable (b : Board) (p : pos) : Prop :=
  ∃ x, cell_at b p.1 p.2 = Some x ∧
    is_revealed (state x) = false ∧ is_flagged (state x) = false.

(** A cell from which [reveal] propagates: no mine, no mine around. *)
Definition zero_cell (b : Board) (p : pos) : Prop :=
  ∃ x, cell_at b p.1 p.2 = Some x ∧
    is_mine (state x) = false ∧ adjacent (state x) = 0.

(** [flood b p q]: [q] is reached from [p] by steps between neighbours,
    every cell on the way openable and every cell but the last a
    zero cell. *)
Inductive flood (b : Board) (p : pos) : pos → Prop :=
| flood_here : openable b p → flood b p p
| flood_step q n :
    flood b p q → zero_cell b q → In n (neighbors b q.1 q.2) → openable b n →
    flood b p n.

(** Every cell opened between [b] and [b'] is flooded from a start. *)
Definition flood_sound (b b' : Board) (start : pos → Prop) : Prop :=
  ∀ p, closed_at b p → revealed_at b' p → ∃ s, start s ∧ flood b s p.

(** Every zero cell opened between [b] and [b'] has had all its
    neighbours visited: each is revealed or flagged in [b']. *)
Definition flood_closed (b b' : Board) : Prop :=
  ∀ q n, closed_at b q → revealed_at b' q → zero_cell b q →
    In n (neighbors b q.1 q.2) → revealed_at b' n ∨ flagged_at b' n.

(** ** Invariant of the reachable boards *)

(** The cell list has one slot per coordinate pair. *)
Definition sized (b : Board) (l : list Cell) : Prop :=
  length l = (Z.to_nat (rows b) * Z.to_nat (cols b))%nat.

Record core_inv (b : Board) : Prop := {
  inv_sized : sized b (cells b);
  inv_config : 0 ≤ num_mines b ≤ cols b * rows b - 9;
  inv_fresh :
    mines_placed b = false →
    (∀ x, x ∈ cells b → is_mine (state x) = false ∧ is_revealed (state x) = false) ∧
    revealed_count b = 0 ∧ game_over b = false ∧ win b = false;
  inv_mines :
    mines_placed b = true →
    Z.of_nat (count_cells is_mine (cells b)) = num_mines b ∧ adjacency_ok b;
  inv_count :
    game_over b = false →
    revealed_count b = Z.of_nat (count_cells is_revealed (cells b)) ∧
    (∀ x, x ∈ cells b → is_mine (state x) = true → is_revealed (state x) = false)
}.

(** A board in play whose counter has reached the number of safe cells
    has been declared won. *)
Definition win_settled (b : Board) : Prop :=
  game_over b = false →
  revealed_count b = cols b * rows b - num_mines b →
  win b = true.

Definition board_inv (b : Board) : Prop := core_inv b ∧ win_settled b.

(** The part of the invariant that holds for every configuration. *)
Definition layout_inv (b : Board) : Prop :=
  sized b (cells b) ∧
  (mines_placed b = true → adjacency_ok b) ∧
  (mines_placed b = false → ∀ x, x ∈ cells b → is_mine (state x) = false).

(** What every mutator leaves alone or only moves forward. *)
Record evolves (b b' : Board) : Prop := {
  ev_cols : cols b' = cols b;
  ev_rows : rows b' = rows b;
  ev_num_mines : num_mines b' = num_mines b;
  ev_length : length (cells b') = length (cells b);
  ev_cells :
    ∀ k x, cells b !! k = Some x →
      ∃ x', cells b' !! k = Some x' ∧
        col x' = col x ∧ row x' = row x ∧
        (is_revealed (state x) = true → is_revealed (state x') = true) ∧
        (mines_placed b = true →
           is_mine (state x') = is_mine (state x) ∧
           adjacent (state x') = adjacent (state x));
  ev_placed : mines_placed b = true → mines_placed b' = true;
  ev_game_over : game_over b = true → game_over b' = true;
  ev_win : win b = true → win b' = true;
  ev_lost : game_over b = true → win b' = win b
}.

Definition flags_kept (b b' : Board) : Prop :=
  ∀ k x x', cells b !! k = Some x → cells b' !! k = Some x' →
    is_flagged (state x') = is_flagged (state x).

(** [reveal] additionally leaves every flag alone. *)
Definition kept (b b' : Board) : Prop := evolves b b' ∧ flags_kept b b'.

(** When the game is over (resp. won), every cell with [is_mine = v]
    for [v = true] (resp. [false]) is revealed. *)
Definition end_shown (flag : Board → bool) (v : bool) (b : Board) : Prop :=
  flag b = true →
  mines_placed b = true ∧
  ∀ x, x ∈ cells b → is_mine (state x) = v → is_revealed (state x) = true.

(** ** The presentation layer (run.py, config.py)

    The module [config] is a record: [run.py] assigns its attribute
    [color_flag] at run time.  [run.py] also reads [hint_button_x],
    [hint_button_y], [hint_button_w] and [hint_button_h], which
    [config.py] does not define: these four fields are options, [None]
    for an attribute the module does not have, whose read raises
    [AttributeError].  Only the attributes read by the modelled
    functions are fields.  The board dimensions are prefixed, the names
    [cols], [rows] and [num_mines] being taken by the board. *)

Abbreviation color := (Z * Z * Z)%type.

Record Config : Type := mkConfig {
  cfg_cols : Z;
  cfg_rows : Z;
  cfg_num_mines : Z;
  cell_size : Z;
  margin_left : Z;
  margin_top : Z;
  margin_right : Z;
  margin_bottom : Z;
  flag_color_options : list (string * color);
  color_flag : color;
  checkbox_gap : Z;
  mouse_left : Z;
  mouse_middle : Z;
  mouse_right : Z;
  highlight_duration_ms : Z;
  hint_button_x : option Z;
  hint_button_y : option Z;
  hint_button_w : option Z;
  hint_button_h : option Z
}.

(** The derived display dimension. *)
Definition width (cfg : Config) : Z :=
  margin_left cfg + cfg_cols cfg * cell_size cfg + margin_right cfg.
Definition height (cfg : Config) : Z :=
  margin_top cfg + cfg_rows cfg * cell_size cfg + margin_bottom cfg.

(** [config.color_flag = v]. *)
Definition set_color_flag (v : color) (cfg : Config) : Config :=
  mkConfig (cfg_cols cfg) (cfg_rows cfg) (cfg_num_mines cfg) (cell_size cfg)
    (margin_left cfg) (margin_top cfg) (margin_right cfg) (margin_bottom cfg)
    (flag_color_options cfg) v (checkbox_gap cfg)
    (mouse_left cfg) (mouse_middle cfg) (mouse_right cfg)
    (highlight_duration_ms cfg)
    (hint_button_x cfg) (hint_button_y cfg) (hint_button_w cfg) (hint_button_h cfg).

(** The module [config.py] as it is: the four attributes of the hint
    button are not defined. *)
Definition config : Config :=
  mkConfig 16 16 40 32 20 60 20 20
    [ ("Red"%string, (220, 0, 0)); ("Orange"%string, (255, 140, 0));
      ("Yellow"%string, (255, 255, 0)); ("Green"%string, (50, 205, 50)) ]
    (220, 0, 0) 70 1 2 3 600
    None None None None.

(** Exceptions of the presentation layer: those of the board, a division
    by zero, and the read of an attribute that has not been assigned. *)
Inductive error : Type :=
| BoardError (e : exn)
| ZeroDivisionError
| AttributeError.

Inductive outcome (A : Type) : Type :=
| Ok (a : A)
| Error (e : error).
Arguments Ok {A} a.
Arguments Error {A} e.

Definition obind {A B : Type} (m : outcome A) (k : A → outcome B) : outcome B :=
  match m with
  | Ok a => k a
  | Error e => Error e
  end.

Notation "x ←? m ; k" := (obind m (λ x, k))
  (at level 100, m at next level, right associativity, only parsing).

(** A call into the board. *)
Definition lift {A : Type} (m : res A) : outcome A :=
  match m with
  | Ret a => Ok a
  | Raise e => Error (BoardError e)
  end.

(** The read of a module attribute that may not exist. *)
Definition attr {A : Type} (v : option A) : outcome A :=
  match v with
  | Some a => Ok a
  | None => Error AttributeError
  end.

(** [a // b]. *)
Definition floordiv (a b : Z) : outcome Z :=
  if b =? 0 then Error ZeroDivisionError else Ok (a / b).

(** [pygame.Rect(x, y, w, h)] and its [collidepoint]: the left and top
    edges belong to the rectangle, the right and bottom edges do not. *)
Record Rect : Type := mkRect {
  rect_x : Z;
  rect_y : Z;
  rect_w : Z;
  rect_h : Z
}.

Definition collidepoint (rc : Rect) (p : pos) : bool :=
  (rect_x rc <=? p.1) && (p.1 <? rect_x rc + rect_w rc) &&
  ((rect_y rc <=? p.2) && (p.2 <? rect_y rc + rect_h rc)).

(** [Rect(config.hint_button_x, config.hint_button_y,
    config.hint_button_w, config.hint_button_h)], the arguments read
    from left to right. *)
Definition hint_button (cfg : Config) : outcome Rect :=
  x ←? attr (hint_button_x cfg);
  y ←? attr (hint_button_y cfg);
  w ←? attr (hint_button_w cfg);
  h ←? attr (hint_button_h cfg);
  Ok (mkRect x y w h).

(** [Renderer.cell_rect]. *)
Definition cell_rect (cfg : Config) (c r : Z) : Rect :=
  let x := margin_left cfg + c * cell_size cfg in
  let y := margin_top cfg + r * cell_size cfg in
  mkRect x y (cell_size cfg) (cell_size cfg).

(** [InputController.pos_to_grid]. *)
Definition pos_to_grid (cfg : Config) (b : Board) (x y : Z) : outcome pos :=
  if negb ((margin_left cfg <=? x) && (x <? width cfg - margin_right cfg)) then
    Ok (-1, -1)
  else if negb ((margin_top cfg <=? y) && (y <? height cfg - margin_bottom cfg)) then
    Ok (-1, -1)
  else
    c ←? floordiv (x - margin_left cfg) (cell_size cfg);
    r ←? floordiv (y - margin_top cfg) (cell_size cfg);
    if (0 <=? c) && (c <? cols b) && ((0 <=? r) && (r <? rows b)) then Ok (c, r)
    else Ok (-1, -1).

(** The attributes of [Game] that the handlers read or write.  The
    pygame objects ([screen], [clock]) and the two helpers ([renderer],
    [input]) carry no state of the game.  [pause_start_ticks] is
    assigned by [run_step] only, never by [__init__]: it is [None] as
    long as it does not exist. *)
Record Game : Type := mkGame {
  board : Board;
  highlight_targets : gset pos;
  highlight_until_ms : Z;
  started : bool;
  start_ticks_ms : Z;
  end_ticks_ms : Z;
  paused : bool;
  paused_start_ticks : Z;
  pause_start_ticks : option Z;
  hover_pos : pos;
  hint_pos : pos;
  hint_until_ms : Z
}.

(** Attribute assignments [game.x = v]. *)
Definition set_board (v : Board) (g : Game) : Game :=
  mkGame v (highlight_targets g) (highlight_until_ms g) (started g)
    (start_ticks_ms g) (end_ticks_ms g) (paused g) (paused_start_ticks g)
    (pause_start_ticks g) (hover_pos g) (hint_pos g) (hint_until_ms g).
Definition set_highlight_targets (v : gset pos) (g : Game) : Game :=
  mkGame (board g) v (highlight_until_ms g) (started g)
    (start_ticks_ms g) (end_ticks_ms g) (paused g) (paused_start_ticks g)
    (pause_start_ticks g) (hover_pos g) (hint_pos g) (hint_until_ms g).
Definition set_highlight_until_ms (v : Z) (g : Game) : Game :=
  mkGame (board g) (highlight_targets g) v (started g)
    (start_ticks_ms g) (end_ticks_ms g) (paused g) (paused_start_ticks g)
    (pause_start_ticks g) (hover_pos g) (hint_pos g) (hint_until_ms g).
Definition set_started (v : bool) (g : Game) : Game :=
  mkGame (board g) (highlight_targets g) (highlight_until_ms g) v
    (start_ticks_ms g) (end_ticks_ms g) (paused g) (paused_start_ticks g)
    (pause_start_ticks g) (hover_pos g) (hint_pos g) (hint_until_ms g).
Definition set_start_ticks_ms (v : Z) (g : Game) : Game :=
  mkGame (board g) (highlight_targets g) (highlight_until_ms g) (started g)
    v (end_ticks_ms g) (paused g) (paused_start_ticks g)
    (pause_start_ticks g) (hover_pos g) (hint_pos g) (hint_until_ms g).
Definition set_end_ticks_ms (v : Z) (g : Game) : Game :=
  mkGame (board g) (highlight_targets g) (highlight_until_ms g) (started g)
    (start_ticks_ms g) v (paused g) (paused_start_ticks g)
    (pause_start_ticks g) (hover_pos g) (hint_pos g) (hint_until_ms g).
Definition set_paused (v : bool) (g : Game) : Game :=
  mkGame (board g) (highlight_targets g) (highlight_until_ms g) (started g)
    (start_ticks_ms g) (end_ticks_ms g) v (paused_start_ticks g)
    (pause_start_ticks g) (hover_pos g) (hint_pos g) (hint_until_ms g).
Definition set_pause_start_ticks (v : Z) (g : Game) : Game :=
  mkGame (board g) (highlight_targets g) (highlight_until_ms g) (started g)
    (start_ticks_ms g) (end_ticks_ms g) (paused g) (paused_start_ticks g)
    (Some v) (hover_pos g) (hint_pos g) (hint_until_ms g).
Definition set_hint_pos (v : pos) (g : Game) : Game :=
  mkGame (board g) (highlight_targets g) (highlight_until_ms g) (started g)
    (start_ticks_ms g) (end_ticks_ms g) (paused g) (paused_start_ticks g)
    (pause_start_ticks g) (hover_pos g) v (hint_until_ms g).
Definition set_hint_until_ms (v : Z) (g : Game) : Game :=
  mkGame (board g) (highlight_targets g) (highlight_until_ms g) (started g)
    (start_ticks_ms g) (end_ticks_ms g) (paused g) (paused_start_ticks g)
    (pause_start_ticks g) (hover_pos g) (hint_pos g) v.

(** [Game.__init__]. *)
Definition new_game (cfg : Config) : Game :=
  mkGame (new_board (cfg_cols cfg) (cfg_rows cfg) (cfg_num_mines cfg))
    ∅ 0 false 0 0 false 0 None (-1, -1) (-1, -1) 0.

(** [random.choice(seq)], the random draw being the argument [rnd]:
    the element at a position below [len(seq)], [IndexError] on an
    empty sequence. *)
Definition choice {A : Type} (rnd : nat) (l : list A) : res A :=
  match l !! (rnd `mod` length l)%nat with
  | Some a => Ret a
  | None => Raise IndexError
  end.

(** The cells [give_hint] collects: no mine, closed, no flag. *)
Definition hintable (x : Cell) : bool :=
  negb (is_mine (state x)) && negb (is_revealed (state x)) &&
  negb (is_flagged (state x)).

(** [InputController.give_hint].  [now] is the value read from
    [pygame.time.get_ticks()]. *)
Definition give_hint (g : Game) (now : Z) (rnd : nat) : res Game :=
  let b := board g in
  safe_cells ←! for_each
    (λ (acc : list pos) p,
       kx ←! getitem (cells b) (index b p.1 p.2);
       if hintable kx.2 then Ret (acc ++ [p]) else Ret acc)
    (grid (λ c r, (c, r)) (cols b) (rows b)) [];
  match safe_cells with
  | [] => Ret g
  | _ :: _ =>
      p ←! choice rnd safe_cells;
      Ret (set_hint_until_ms (now + 1000) (set_hint_pos p g))
  end.

(** The loop of [handle_mouse] over the flag colours: the colour of the
    first checkbox whose click area holds the point, [i] counting the
    options from 0. *)
Fixpoint clicked_color (cfg : Config) (p : pos) (i : Z)
    (options : list (string * color)) : option color :=
  match options with
  | [] => None
  | (_, c) :: options' =>
      let start_x := 20 in
      let y_pos := 35 in
      let click_area := mkRect (start_x + i * checkbox_gap cfg) y_pos 70 25 in
      if collidepoint click_area p then Some c
      else clicked_color cfg p (i + 1) options'
  end.

(** The set comprehension of the middle click: the neighbours whose
    cell is not revealed. *)
Definition closed_neighbors (b : Board) (c r : Z) : res (gset pos) :=
  for_each
    (λ (acc : gset pos) n,
       kx ←! getitem (cells b) (index b n.1 n.2);
       if negb (is_revealed (state kx.2)) then Ret ({[ n ]} ∪ acc) else Ret acc)
    (neighbors b c r) ∅.

(** [InputController.handle_mouse].  [p] is [pos], [now] the value read
    from [pygame.time.get_ticks()], [rnd] the draw of [random.choice] and
    [depth] the call depth left for [Board.reveal].  The result holds
    the module [config] as well, for the assignment to
    [config.color_flag]. *)
Definition handle_mouse (cfg : Config) (g : Game) (p : pos) (button : Z)
    (now : Z) (rnd : nat) (depth : nat) : outcome (Config * Game) :=
  if p.2 <? margin_top cfg then
    if button =? mouse_left cfg then
      hint_rect ←? hint_button cfg;
      if collidepoint hint_rect p && started g && negb (paused g) then
        g' ←? lift (give_hint g now rnd);
        Ok (cfg, g')
      else
        match clicked_color cfg p 0 (flag_color_options cfg) with
        | Some c => Ok (set_color_flag c cfg, g)
        | None => Ok (cfg, g)
        end
    else Ok (cfg, g)
  else
    cr ←? pos_to_grid cfg (board g) p.1 p.2;
    let c := cr.1 in
    let r := cr.2 in
    if c =? -1 then Ok (cfg, g)
    else if button =? mouse_left cfg then
      let g1 := set_highlight_targets ∅ g in
      let g2 :=
        if negb (started g1) then set_start_ticks_ms now (set_started true g1)
        else g1 in
      b3 ←? lift (reveal depth (board g2) c r);
      let g3 := set_board b3 g2 in
      let g4 :=
        if negb (started g3) then set_start_ticks_ms now (set_started true g3)
        else g3 in
      b5 ←? lift (reveal depth (board g4) c r);
      Ok (cfg, set_board b5 g4)
    else if button =? mouse_right cfg then
      let g1 := set_highlight_targets ∅ g in
      b2 ←? lift (toggle_flag (board g1) c r);
      Ok (cfg, set_board b2 g1)
    else if button =? mouse_middle cfg then
      targets ←? lift (closed_neighbors (board g) c r);
      Ok (cfg, set_highlight_until_ms (now + highlight_duration_ms cfg)
                 (set_highlight_targets targets g))
    else Ok (cfg, g).

(** [Game._elapsed_ms], [now] being the clock read in the last case. *)
Definition elapsed_ms (g : Game) (now : Z) : Z :=
  if negb (started g) then 0
  else if negb (end_ticks_ms g =? 0) then end_ticks_ms g - start_ticks_ms g
  else if paused g then paused_start_ticks g - start_ticks_ms g
  else now - start_ticks_ms g.

(** The pygame events [run_step] tells apart; [OTHER] is any other
    type. *)
Inductive Event : Type :=
| QUIT
| KEYDOWN
| MOUSEBUTTONDOWN (p : pos) (button : Z)
| OTHER.

(** The body of the event loop of [Game.run_step] (lines 317-335) for
    one event.  On [QUIT] the method returns [False] at once, leaving
    the game as it is. *)
Definition handle_event (cfg : Config) (g : Game) (ev : Event)
    (now : Z) (rnd : nat) (depth : nat) : outcome (Config * Game) :=
  match ev with
  | KEYDOWN =>
      if negb (game_over (board g)) && negb (win (board g)) && started g then
        if negb (paused g) then
          Ok (cfg, set_pause_start_ticks now (set_paused true g))
        else Ok (cfg, g)
      else Ok (cfg, g)
  | MOUSEBUTTONDOWN p button =>
      if paused g then
        if button =? mouse_left cfg then
          match pause_start_ticks g with
          | Some t =>
              let pause_duration := now - t in
              Ok (cfg, set_paused false
                         (set_start_ticks_ms (start_ticks_ms g + pause_duration) g))
          | None => Error AttributeError
          end
        else Ok (cfg, g)
      else handle_mouse cfg g p button now rnd depth
  | _ => Ok (cfg, g)
  end.

(** The assignment that follows the event loop in [run_step] (lines
    336-337), [now] being the clock it reads. *)
Definition update_end_ticks (g : Game) (now : Z) : Game :=
  if (game_over (board g) || win (board g)) && started g && (end_ticks_ms g =? 0)
  then set_end_ticks_ms now g else g.

(** The first statement of [Game.draw] (lines 284-285), its only
    assignment to the game: the highlight is dropped once it has
    expired. *)
Definition expire_highlight (g : Game) (now : Z) : Game :=
  if (highlight_until_ms g <? now) && negb (bool_decide (highlight_targets g = ∅))
  then set_highlight_targets ∅ g else g.

(** The states the running program passes through: [Game()], then, in
    any order, the handling of an event that does not raise, the
    end-time assignment of [run_step] and the highlight expiry at the
    start of [draw].  What [draw] does afterwards is rendering, which
    reads the game only and is not modelled; this relation claims
    neither that [draw] nor that [run_step] returns. *)
Inductive ui_step : Config * Game → Config * Game → Prop :=
| ui_handle_event cfg g ev now rnd depth st' :
    handle_event cfg g ev now rnd depth = Ok st' →
    ui_step (cfg, g) st'
| ui_update_end_ticks cfg g now :
    ui_step (cfg, g) (cfg, update_end_ticks g now)
| ui_expire_highlight cfg g now :
    ui_step (cfg, g) (cfg, expire_highlight g now).

Definition ui_reachable (cfg0 : Config) (st : Config * Game) : Prop :=
  rtc ui_step (cfg0, new_game cfg0) st.

(** The test a loop over coordinates applies to the cell it reads. *)
Definition cell_test (f : Cell → bool) (b : Board) (p : pos) : bool :=
  match cell_at b p.1 p.2 with
  | Some x => f x
  | None => false
  end.

(** What holds of the module [config] and the game in every state of
    the running program started with configuration [cfg0]. *)
Record game_inv (cfg0 : Config) (st : Config * Game) : Prop := {
  gi_config : st.1 = set_color_flag (color_flag st.1) cfg0;
  gi_color :
    color_flag st.1 = color_flag cfg0 ∨
    color_flag st.1 ∈ (flag_color_options cfg0).*2;
  gi_board :
    reachable (cfg_cols cfg0) (cfg_rows cfg0) (cfg_num_mines cfg0) (board st.2);
  gi_started : started st.2 = mines_placed (board st.2);
  gi_paused_start : paused_start_ticks st.2 = 0;
  gi_paused :
    paused st.2 = true →
    is_Some (pause_start_ticks st.2) ∧ started st.2 = true ∧
    game_over (board st.2) = false ∧ win (board st.2) = false;
  gi_end :
    end_ticks_ms st.2 ≠ 0 → game_over (board st.2) || win (board st.2) = true;
  gi_hint :
    hint_pos st.2 = (-1, -1) ∨
    (mines_placed (board st.2) = true ∧
     ∃ x, cell_at (board st.2) (hint_pos st.2).1 (hint_pos st.2).2 = Some x ∧
       is_mine (state x) = false);
  gi_no_button :
    hint_button cfg0 = Error AttributeError →
    st.1 = cfg0 ∧ hint_pos st.2 = (-1, -1)
}.

(** ** Results and loops *)

Lemma bind_Ret {A B : Type} (m : res A) (k : A → res B) (y : B) :
  bind m k = Ret y → ∃ a, m = Ret a ∧ k a = Ret y.
Proof. destruct m as [a|e]; simpl; [eauto | discriminate]. Qed.

Ltac inv_bind H :=
  let a := fresh "a" in
  let Ha := fresh "Ha" in
  apply bind_Ret in H; destruct H as (a & Ha & H).

Tactic Notation "inv_bind_as" hyp(H) ident(a) ident(Ha) :=
  apply bind_Ret in H; destruct H as (a & Ha & H).

(** A relation that holds across every iteration holds across the loop. *)
Lemma for_each_rel {S X : Type} (body : S → X → res S)
    (P : S → Prop) (R : S → S → Prop) (xs : list X) :
  (∀ s, P s → R s s) →
  (∀ s1 s2 s3, R s1 s2 → R s2 s3 → R s1 s3) →
  (∀ s x s', x ∈ xs → P s → body s x = Ret s' → P s' ∧ R s s') →
  ∀ s s', P s → for_each body xs s = Ret s' → P s' ∧ R s s'.
Proof.
  intros Hrefl Htrans. induction xs as [|x xs IH]; intros Hbody s s' HP Hrun.
  - simpl in Hrun. injection Hrun as <-. auto.
  - simpl in Hrun. inv_bind Hrun.
    destruct (Hbody s x a) as [HPa HRa]; [left | done | done |].
    destruct (IH (λ s0 y s0' Hy, Hbody s0 y s0' (list_elem_of_further _ _ _ Hy)) a s')
      as [HP' HR']; [done | done |].
    split; [done | by eapply Htrans].
Qed.

(** A loop whose iterations all return normally returns normally. *)
Lemma for_each_total {S X : Type} (body : S → X → res S)
    (P : S → Prop) (xs : list X) :
  (∀ s x, x ∈ xs → P s → ∃ s', body s x = Ret s' ∧ P s') →
  ∀ s, P s → ∃ s', for_each body xs s = Ret s' ∧ P s'.
Proof.
  induction xs as [|x xs IH]; intros Hbody s HP.
  - exists s. done.
  - destruct (Hbody s x) as (s1 & Hs1 & HP1); [left | done |].
    destruct (IH (λ s0 y Hy, Hbody s0 y (list_elem_of_further _ _ _ Hy)) s1 HP1)
      as (s' & Hs' & HP').
    exists s'. simpl. rewrite Hs1. done.
Qed.

(** ** Grids *)

Lemma flat_map_lookup {X A : Type} (g : X → list A) (n : nat) (xs : list X) :
  (∀ x, length (g x) = n) →
  ∀ i j, (j < n)%nat → flat_map g xs !! (i * n + j)%nat = xs !! i ≫= λ x, g x !! j.
Proof.
  intros Hlen. induction xs as [|x xs IH]; intros i j Hj; [done|].
  simpl. destruct i as [|i].
  - simpl. rewrite lookup_app_l; [done | rewrite Hlen; lia].
  - rewrite lookup_app_r; rewrite Hlen; [|lia].
    replace (S i * n + j - n)%nat with (i * n + j)%nat by lia.
    by rewrite IH.
Qed.

Lemma flat_map_length {X A : Type} (g : X → list A) (n : nat) (xs : list X) :
  (∀ x, length (g x) = n) → length (flat_map g xs) = (length xs * n)%nat.
Proof.
  intros Hlen. induction xs as [|x xs IH]; [done|].
  simpl. rewrite length_app, Hlen, IH. lia.
Qed.

Lemma grid_length {A : Type} (f : Z → Z → A) (ncols nrows : Z) :
  length (grid f ncols nrows) = (Z.to_nat nrows * Z.to_nat ncols)%nat.
Proof.
  unfold grid, py_range.
  rewrite (flat_map_length _ (Z.to_nat ncols)).
  - by rewrite length_seqZ.
  - intros x. by rewrite length_map, length_seqZ.
Qed.

Lemma grid_lookup {A : Type} (f : Z → Z → A) (ncols nrows c r : Z) :
  0 ≤ c < ncols → 0 ≤ r < nrows →
  grid f ncols nrows !! Z.to_nat (r * ncols + c) = Some (f c r).
Proof.
  intros Hc Hr. unfold grid, py_range.
  rewrite Z2Nat.inj_add, Z2Nat.inj_mul by first [lia | apply Z.mul_nonneg_nonneg; lia].
  rewrite (flat_map_lookup _ (Z.to_nat ncols)).
  - rewrite lookup_seqZ_lt by lia. simpl.
    change (map ?g ?l) with (g <$> l).
    rewrite list_lookup_fmap, lookup_seqZ_lt by lia. simpl.
    f_equal. f_equal; lia.
  - intros x. by rewrite length_map, length_seqZ.
  - lia.
Qed.

Lemma grid_elem_of {A : Type} (f : Z → Z → A) (ncols nrows : Z) (a : A) :
  a ∈ grid f ncols nrows ↔
  ∃ c r, 0 ≤ c < ncols ∧ 0 ≤ r < nrows ∧ a = f c r.
Proof.
  unfold grid, py_range. rewrite list_elem_of_In, in_flat_map. split.
  - intros (r & Hr & Ha). apply in_map_iff in Ha as (c & <- & Hc).
    apply list_elem_of_In, elem_of_seqZ in Hr. apply list_elem_of_In, elem_of_seqZ in Hc.
    exists c, r. split_and!; try lia; done.
  - intros (c & r & Hc & Hr & ->). exists r. split.
    + apply list_elem_of_In, elem_of_seqZ. lia.
    + apply in_map_iff. exists c. split; [done|].
      apply list_elem_of_In, elem_of_seqZ. lia.
Qed.

Lemma grid_pair_NoDup (ncols nrows : Z) :
  NoDup (grid (λ c r, (c, r)) ncols nrows).
Proof.
  apply NoDup_alt. intros i j p Hi Hj.
  assert (Hlt : ∀ k q, grid (λ c r, (c, r)) ncols nrows !! k = Some q →
            0 < ncols ∧
            q = (Z.of_nat k `mod` ncols, Z.of_nat k `div` ncols)).
  { intros k q Hk.
    assert (k < Z.to_nat nrows * Z.to_nat ncols)%nat as Hb.
    { rewrite <- (grid_length (λ c r, (c, r))). by eapply lookup_lt_Some. }
    assert (0 < ncols) by nia. split; [done|].
    pose proof (Z.mod_pos_bound (Z.of_nat k) ncols ltac:(lia)).
    pose proof (Z.div_mod (Z.of_nat k) ncols ltac:(lia)).
    assert (0 ≤ Z.of_nat k `div` ncols < nrows).
    { split; [apply Z.div_pos; lia|]. apply Z.div_lt_upper_bound; nia. }
    pose proof (grid_lookup (λ c r, (c, r)) ncols nrows
                  (Z.of_nat k `mod` ncols) (Z.of_nat k `div` ncols)
                  ltac:(lia) ltac:(lia)) as Hg.
    replace (Z.to_nat _) with k in Hg by lia. congruence. }
  destruct (Hlt i p Hi) as [Hpos Hpi]. destruct (Hlt j p Hj) as [_ Hpj].
  rewrite Hpi in Hpj. injection Hpj as Hm Hd.
  pose proof (Z.div_mod (Z.of_nat i) ncols ltac:(lia)).
  pose proof (Z.div_mod (Z.of_nat j) ncols ltac:(lia)).
  nia.
Qed.

(** ** Coordinates and subscripts *)

Lemma is_inbounds_spec (b : Board) (c r : Z) :
  is_inbounds b c r = true ↔ 0 ≤ c < cols b ∧ 0 ≤ r < rows b.
Proof. unfold is_inbounds. lia. Qed.

Lemma index_range (b : Board) (l : list Cell) (c r : Z) :
  sized b l → is_inbounds b c r = true →
  0 ≤ index b c r < Z.of_nat (length l).
Proof.
  unfold sized, index. intros -> [Hc Hr]%is_inbounds_spec. nia.
Qed.

Lemma slot_inj (b : Board) (c r c' r' : Z) :
  is_inbounds b c r = true → is_inbounds b c' r' = true →
  slot b c r = slot b c' r' → c = c' ∧ r = r'.
Proof.
  unfold slot, index. intros [Hc Hr]%is_inbounds_spec [Hc' Hr']%is_inbounds_spec Heq.
  assert (r * cols b + c = r' * cols b + c') as Hz by nia.
  assert (r = r') by nia. subst. lia.
Qed.

Lemma getitem_inbounds (b : Board) (l : list Cell) (c r : Z) :
  sized b l → is_inbounds b c r = true →
  ∃ x, l !! slot b c r = Some x ∧ getitem l (index b c r) = Ret (slot b c r, x).
Proof.
  intros Hs Hin. pose proof (index_range b l c r Hs Hin) as Hr.
  destruct (lookup_lt_is_Some_2 l (slot b c r)) as [x Hx]; [unfold slot; lia|].
  exists x. split; [done|]. unfold getitem, py_slot.
  destruct (Z.leb_spec 0 (index b c r)); [|lia].
  destruct (Z.ltb_spec (index b c r) (Z.of_nat (length l))); [|lia].
  fold (slot b c r). by rewrite Hx.
Qed.

Lemma neighbors_spec (b : Board) (c r : Z) (n : pos) :
  In n (neighbors b c r) ↔
  is_inbounds b n.1 n.2 = true ∧ In (n.1 - c, n.2 - r) deltas.
Proof.
  unfold neighbors. rewrite filter_In, in_map_iff. split.
  - intros [(d & <- & Hd) Hin]. split; [done|]. simpl.
    replace (c + d.1 - c) with d.1 by lia. replace (r + d.2 - r) with d.2 by lia.
    by destruct d.
  - intros [Hin Hd]. split; [|done]. eexists. split; [|exact Hd].
    destruct n. simpl. f_equal; lia.
Qed.

Lemma neighbors_inbounds (b : Board) (c r : Z) (n : pos) :
  In n (neighbors b c r) → is_inbounds b n.1 n.2 = true.
Proof. by intros [? _]%neighbors_spec. Qed.

Lemma neighbors_length (b : Board) (c r : Z) :
  (length (neighbors b c r) ≤ 8)%nat.
Proof.
  unfold neighbors. etrans; [apply List.filter_length_le|]. by rewrite length_map.
Qed.

Lemma deltas_spec (d : pos) :
  In d deltas ↔ -1 ≤ d.1 ≤ 1 ∧ -1 ≤ d.2 ≤ 1 ∧ d ≠ (0, 0).
Proof.
  destruct d as [dc dr]. unfold deltas. simpl. split.
  - intros H.
    repeat (destruct H as [Heq|H];
            [injection Heq as <- <-; split_and!; (lia || done)|]).
    done.
  - intros (Hc & Hr & Hne).
    assert (dc = -1 ∨ dc = 0 ∨ dc = 1) as [-> | [-> | ->]] by lia;
      (assert (dr = -1 ∨ dr = 0 ∨ dr = 1) as [-> | [-> | ->]] by lia);
      try done; repeat (first [left; reflexivity | right]).
Qed.

Lemma deltas_NoDup : List.NoDup deltas.
Proof.
  unfold deltas.
  repeat (constructor; [simpl; intros H;
    repeat (destruct H as [Heq|H]; [discriminate Heq|]); done|]).
  constructor.
Qed.

(** The entries of [neighbors], without reference to [deltas]: the
    in-bounds coordinates other than [(c, r)] itself that differ from it
    by at most 1 in each direction. *)
Lemma neighbors_near (b : Board) (c r : Z) (n : pos) :
  In n (neighbors b c r) ↔
  is_inbounds b n.1 n.2 = true ∧ n ≠ (c, r) ∧
  -1 ≤ n.1 - c ≤ 1 ∧ -1 ≤ n.2 - r ≤ 1.
Proof.
  rewrite neighbors_spec, deltas_spec. simpl. destruct n as [nc nr]. simpl. split.
  - intros (Hin & Hc & Hr & Hne). split_and!; try lia; [done|].
    intros [= -> ->]. apply Hne. f_equal; lia.
  - intros (Hin & Hne & Hc & Hr). split_and!; try lia; [done|].
    intros [= H1 H2]. apply Hne. f_equal; lia.
Qed.

Lemma neighbors_NoDup (b : Board) (c r : Z) : List.NoDup (neighbors b c r).
Proof.
  unfold neighbors. apply List.NoDup_filter, Finite.Injective_map_NoDup;
    [|apply deltas_NoDup].
  intros [d1 d2] [e1 e2]. simpl. intros [= H1 H2]. f_equal; lia.
Qed.

Lemma new_board_sized (ncols nrows mines : Z) :
  sized (new_board ncols nrows mines) (cells (new_board ncols nrows mines)).
Proof. unfold sized. simpl. apply grid_length. Qed.

(** ** Counting cells *)

Lemma count_cells_le (f : CellState → bool) (l : list Cell) :
  (count_cells f l ≤ length l)%nat.
Proof. apply List.filter_length_le. Qed.

Lemma count_cells_insert (f : CellState → bool) (l : list Cell) (k : nat) (x y : Cell) :
  l !! k = Some x →
  (count_cells f (<[k := y]> l) + (if f (state x) then 1 else 0) =
   count_cells f l + (if f (state y) then 1 else 0))%nat.
Proof.
  unfold count_cells. revert k. induction l as [|z l IH]; intros k Hk; [done|].
  destruct k as [|k]; simpl in *.
  - injection Hk as ->. destruct (f (state x)), (f (state y)); simpl; lia.
  - specialize (IH k Hk). destruct (f (state z)); simpl; lia.
Qed.

Lemma count_cells_zero (f : CellState → bool) (l : list Cell) :
  count_cells f l = 0%nat ↔ ∀ x, x ∈ l → f (state x) = false.
Proof.
  unfold count_cells. induction l as [|z l IH]; simpl.
  - split; [|done]. intros _ x Hx. by apply elem_of_nil in Hx.
  - destruct (f (state z)) eqn:Hz; simpl.
    + split; [lia|]. intros H. specialize (H z ltac:(left)). congruence.
    + rewrite IH. split.
      * intros H x [->|Hx]%elem_of_cons; auto.
      * intros H x Hx. apply H. by right.
Qed.

Lemma count_cells_all (f : CellState → bool) (l : list Cell) :
  count_cells f l = length l → ∀ x, x ∈ l → f (state x) = true.
Proof.
  unfold count_cells. induction l as [|z l IH]; simpl; intros Hc x Hx.
  - by apply elem_of_nil in Hx.
  - pose proof (List.filter_length_le (λ x, f (state x)) l).
    destruct (f (state z)) eqn:Hz; simpl in Hc; [|lia].
    apply elem_of_cons in Hx as [->|Hx]; [done|]. apply IH; [lia | done].
Qed.

Lemma count_cells_or (f g : CellState → bool) (l : list Cell) :
  (count_cells (λ s, f s || g s) l + count_cells (λ s, f s && g s) l =
   count_cells f l + count_cells g l)%nat.
Proof.
  unfold count_cells. induction l as [|z l IH]; [done|].
  simpl. destruct (f (state z)), (g (state z)); simpl; lia.
Qed.

(** Pointwise implication between two lists slot by slot. *)
Lemma count_cells_mono (f : CellState → bool) (l l' : list Cell) :
  length l = length l' →
  (∀ k x x', l !! k = Some x → l' !! k = Some x' →
     f (state x) = true → f (state x') = true) →
  (count_cells f l ≤ count_cells f l')%nat.
Proof.
  unfold count_cells. revert l'. induction l as [|z l IH]; intros [|z' l'] Hlen Hp;
    simpl in *; try lia.
  assert (length (List.filter (λ x, f (state x)) l) ≤
          length (List.filter (λ x, f (state x)) l'))%nat as Hle.
  { apply IH; [lia|]. intros k x x' Hx Hx'. by apply (Hp (S k)). }
  specialize (Hp 0%nat z z' eq_refl eq_refl).
  destruct (f (state z)); [rewrite Hp by done|]; simpl;
    [|destruct (f (state z'))]; simpl; lia.
Qed.

(** ** Mine placement *)

Lemma set_is_mine_id (x : Cell) : set_is_mine (is_mine (state x)) x = x.
Proof. by destruct x as [? ? []]. Qed.

Lemma set_adjacent_id (x : Cell) : set_adjacent (adjacent (state x)) x = x.
Proof. by destruct x as [? ? []]. Qed.

Lemma place_mines_unfold (b : Board) (sc sr : Z) :
  place_mines b sc sr =
  (l1 ←! for_each (mark_mine b) (chosen_mines b sc sr) (cells b);
   l2 ←! for_each (adjacency_step b) (grid (λ c r, (c, r)) (cols b) (rows b)) l1;
   Ret (set_mines_placed true (set_cells l2 b))).
Proof. reflexivity. Qed.

Lemma grid_pair_inbounds (b : Board) (p : pos) :
  p ∈ grid (λ c r, (c, r)) (cols b) (rows b) ↔ is_inbounds b p.1 p.2 = true.
Proof.
  rewrite grid_elem_of, is_inbounds_spec. split.
  - by intros (c & r & Hc & Hr & ->).
  - intros [Hc Hr]. exists p.1, p.2. by destruct p.
Qed.

Lemma forbidden_zone_spec (b : Board) (sc sr : Z) (p : pos) :
  p ∈ forbidden_zone b sc sr ↔ p = (sc, sr) ∨ In p (neighbors b sc sr).
Proof.
  unfold forbidden_zone.
  by rewrite elem_of_union, elem_of_singleton, elem_of_list_to_set, list_elem_of_In.
Qed.

Lemma candidate_pool_spec (b : Board) (sc sr : Z) (p : pos) :
  In p (candidate_pool b sc sr) ↔
  is_inbounds b p.1 p.2 = true ∧ p ≠ (sc, sr) ∧ ¬ In p (neighbors b sc sr).
Proof.
  unfold candidate_pool.
  rewrite filter_In, <- list_elem_of_In, grid_pair_inbounds, bool_decide_eq_true,
    forbidden_zone_spec.
  tauto.
Qed.

Lemma candidate_pool_NoDup (b : Board) (sc sr : Z) : NoDup (candidate_pool b sc sr).
Proof. apply NoDup_ListNoDup, List.NoDup_filter, NoDup_ListNoDup, grid_pair_NoDup. Qed.

Lemma filter_split_length {A : Type} (f : A → bool) (l : list A) :
  length l = (length (List.filter f l) + length (List.filter (λ a, negb (f a)) l))%nat.
Proof. induction l as [|a l IH]; [done|]. simpl. destruct (f a); simpl; lia. Qed.

(** At most nine positions are excluded from the pool. *)
Lemma candidate_pool_length (b : Board) (sc sr : Z) :
  (Z.to_nat (rows b) * Z.to_nat (cols b) ≤ length (candidate_pool b sc sr) + 9)%nat.
Proof.
  unfold candidate_pool. rewrite <- (grid_length (λ c r, (c, r))).
  set (all := grid _ _ _).
  set (f := λ p, bool_decide (p ∉ forbidden_zone b sc sr)).
  rewrite (filter_split_length f all).
  apply Nat.add_le_mono_l.
  etrans; [apply (NoDup_incl_length (l' := (sc, sr) :: neighbors b sc sr))|].
  - apply List.NoDup_filter, NoDup_ListNoDup, grid_pair_NoDup.
  - intros p [_ Hp]%filter_In. unfold f in Hp.
    apply negb_true_iff, bool_decide_eq_false in Hp.
    apply dec_stable in Hp. apply forbidden_zone_spec in Hp as [->|Hp]; [by left | by right].
  - pose proof (neighbors_length b sc sr). cbn [length]. lia.
Qed.

Lemma chosen_mines_spec (b : Board) (sc sr : Z) :
  NoDup (chosen_mines b sc sr) ∧
  ∀ p, p ∈ chosen_mines b sc sr → In p (candidate_pool b sc sr).
Proof using shuffle_perm.
  unfold chosen_mines, slice_to.
  set (pool := shuffle (candidate_pool b sc sr)).
  assert (NoDup pool) as Hnd.
  { unfold pool. rewrite shuffle_perm. apply candidate_pool_NoDup. }
  assert (∀ n, NoDup (take n pool) ∧ ∀ p, p ∈ take n pool → In p (candidate_pool b sc sr)) as H.
  { intros n. split.
    - rewrite <- (take_drop n pool) in Hnd. by apply NoDup_app in Hnd as [? _].
    - intros p (i & Hi & _)%elem_of_take.
      eapply Permutation_in; [apply shuffle_perm|].
      apply list_elem_of_In. by eapply list_elem_of_lookup_2. }
  destruct (0 <=? num_mines b); apply H.
Qed.

(** With a non-negative mine count that fits the pool, the slice takes
    exactly [num_mines] positions. *)
Lemma chosen_mines_length (b : Board) (sc sr : Z) :
  0 ≤ num_mines b ≤ cols b * rows b - 9 →
  is_inbounds b sc sr = true →
  Z.of_nat (length (chosen_mines b sc sr)) = num_mines b.
Proof using shuffle_perm.
  intros Hcfg [Hc Hr]%is_inbounds_spec. unfold chosen_mines, slice_to.
  destruct (Z.leb_spec 0 (num_mines b)); [|lia].
  rewrite length_take, (Permutation_length (shuffle_perm _)).
  pose proof (candidate_pool_length b sc sr). nia.
Qed.

Lemma mark_mines_spec (b : Board) (ps : list pos) :
  ∀ l, sized b l → NoDup ps →
  (∀ p, p ∈ ps → is_inbounds b p.1 p.2 = true) →
  ∃ l1, for_each (mark_mine b) ps l = Ret l1 ∧ sized b l1 ∧
    (∀ k x, l !! k = Some x →
       l1 !! k = Some (set_is_mine
         (is_mine (state x) || bool_decide (k ∈ (λ p, slot b p.1 p.2) <$> ps)) x)) ∧
    ((∀ p x, p ∈ ps → l !! slot b p.1 p.2 = Some x → is_mine (state x) = false) →
     count_cells is_mine l1 = (count_cells is_mine l + length ps)%nat).
Proof.
  induction ps as [|p ps IH]; intros l Hs Hnd Hin.
  - exists l. split_and!; [done | done | | simpl; lia].
    intros k x Hx. simpl. by rewrite orb_false_r, set_is_mine_id.
  - apply NoDup_cons in Hnd as [Hp Hnd].
    destruct (getitem_inbounds b l p.1 p.2 Hs) as (x0 & Hx0 & Hg); [apply Hin; left|].
    set (l' := <[slot b p.1 p.2 := set_is_mine true x0]> l).
    destruct (IH l') as (l1 & Hrun & Hs1 & Hpt & Hcnt); [| done | |].
    { unfold sized, l'. by rewrite length_insert. }
    { intros q Hq. apply Hin. by right. }
    exists l1. split_and!; [| done | |].
    + simpl. unfold mark_mine at 1. rewrite Hg. simpl. done.
    + intros k x Hx. destruct (decide (k = slot b p.1 p.2)) as [->|Hne].
      * assert (x = x0) as -> by congruence.
        rewrite (Hpt _ (set_is_mine true x0)).
        2:{ unfold l'. apply list_lookup_insert_eq. by eapply lookup_lt_Some. }
        simpl. rewrite bool_decide_eq_true_2 by left. by rewrite orb_true_r.
      * rewrite (Hpt _ x) by (unfold l'; by rewrite list_lookup_insert_ne).
        do 3 f_equal. apply bool_decide_ext. rewrite fmap_cons, elem_of_cons. tauto.
    + intros Hno.
      assert (is_mine (state x0) = false) as Hx0m by (eapply Hno; [left | done]).
      pose proof (count_cells_insert is_mine l _ x0 (set_is_mine true x0) Hx0) as Hc.
      rewrite Hx0m in Hc. simpl in Hc. fold l' in Hc.
      rewrite Hcnt; [simpl; lia|].
      intros q y Hq Hy. unfold l' in Hy.
      rewrite list_lookup_insert_ne in Hy; [by eapply Hno; [right|]|].
      intros Heq. apply slot_inj in Heq as [? ?]; [| apply Hin; left | apply Hin; by right].
      apply Hp. destruct p, q; simpl in *; by subst.
Qed.

Lemma mine_at_slot (b : Board) (l : list Cell) (c r : Z) (y : Cell) :
  l !! slot b c r = Some y → mine_at b l (c, r) = is_mine (state y).
Proof. unfold mine_at, slot. simpl. by intros ->. Qed.

Lemma mine_at_ext (b : Board) (l l' : list Cell) :
  (∀ k, (λ y, is_mine (state y)) <$> l' !! k = (λ y, is_mine (state y)) <$> l !! k) →
  ∀ p, mine_at b l' p = mine_at b l p.
Proof.
  intros Hext p. unfold mine_at. specialize (Hext (Z.to_nat (index b p.1 p.2))).
  destruct (l' !! _), (l !! _); simpl in Hext; congruence.
Qed.

Lemma mines_around_ext (b : Board) (l l' : list Cell) :
  (∀ k, (λ y, is_mine (state y)) <$> l' !! k = (λ y, is_mine (state y)) <$> l !! k) →
  ∀ c r, mines_around b l' c r = mines_around b l c r.
Proof.
  intros Hext c r. unfold mines_around. do 2 f_equal.
  apply filter_ext. by apply mine_at_ext.
Qed.

Lemma count_loop_spec (b : Board) (l : list Cell) (ns : list pos) :
  sized b l → (∀ n, In n ns → is_inbounds b n.1 n.2 = true) →
  ∀ acc, for_each (count_step b l) ns acc =
         Ret (acc + Z.of_nat (length (List.filter (mine_at b l) ns))).
Proof.
  intros Hs. induction ns as [|n ns IH]; intros Hin acc.
  - simpl. f_equal. lia.
  - destruct (getitem_inbounds b l n.1 n.2 Hs) as (y & Hy & Hg); [apply Hin; by left|].
    simpl. unfold count_step at 1. rewrite Hg. simpl.
    rewrite IH by (intros; apply Hin; by right).
    destruct n as [nc nr]. rewrite (mine_at_slot b l nc nr y Hy).
    destruct (is_mine (state y)); simpl; f_equal; lia.
Qed.

Lemma adjacency_loop_spec (b : Board) (ps : list pos) :
  ∀ l, sized b l →
  (∀ p, p ∈ ps → is_inbounds b p.1 p.2 = true) →
  ∃ l2, for_each (adjacency_step b) ps l = Ret l2 ∧ sized b l2 ∧
    ∀ k x, l !! k = Some x →
      ∃ a, l2 !! k = Some (set_adjacent a x) ∧
        (∀ p, p ∈ ps → k = slot b p.1 p.2 → is_mine (state x) = false →
           a = mines_around b l p.1 p.2) ∧
        (k ∉ (λ p, slot b p.1 p.2) <$> ps → a = adjacent (state x)).
Proof.
  induction ps as [|p ps IH]; intros l Hs Hin.
  - exists l. split_and!; [done | done |]. intros k x Hx.
    exists (adjacent (state x)). rewrite set_adjacent_id. split_and!; [done | | done].
    intros p Hp. by apply elem_of_nil in Hp.
  - assert (is_inbounds b p.1 p.2 = true) as Hp by (apply Hin; left).
    assert (∀ q, q ∈ ps → is_inbounds b q.1 q.2 = true) as Hin'
      by (intros; apply Hin; by right).
    destruct (getitem_inbounds b l p.1 p.2 Hs Hp) as (x0 & Hx0 & Hg).
    destruct (is_mine (state x0)) eqn:Hm.
    + destruct (IH l Hs Hin') as (l2 & Hrun & Hs2 & Hpt).
      exists l2. split_and!; [| done |].
      { simpl. unfold adjacency_step at 1. rewrite Hg. simpl. by rewrite Hm. }
      intros k x Hx. destruct (Hpt k x Hx) as (a & Ha & Hin2 & Hout).
      exists a. split_and!; [done | |].
      * intros q [->|Hq]%elem_of_cons Hk Hxm; [|by apply Hin2].
        subst k. congruence.
      * intros Hk. apply Hout. intros Hk'. apply Hk. rewrite fmap_cons. by right.
    + set (cnt := mines_around b l p.1 p.2).
      set (l' := <[slot b p.1 p.2 := set_adjacent cnt x0]> l).
      assert (sized b l') as Hs' by (unfold sized, l'; by rewrite length_insert).
      assert (∀ k, (λ y, is_mine (state y)) <$> l' !! k =
                   (λ y, is_mine (state y)) <$> l !! k) as Hext.
      { intros k. unfold l'. destruct (decide (k = slot b p.1 p.2)) as [->|Hne].
        - rewrite list_lookup_insert_eq by (by eapply lookup_lt_Some). by rewrite Hx0.
        - by rewrite list_lookup_insert_ne. }
      destruct (IH l' Hs' Hin') as (l2 & Hrun & Hs2 & Hpt).
      exists l2. split_and!; [| done |].
      { simpl. unfold adjacency_step at 1. rewrite Hg. simpl. rewrite Hm. simpl.
        rewrite count_loop_spec; [| done | apply neighbors_inbounds]. simpl. done. }
      intros k x Hx. destruct (decide (k = slot b p.1 p.2)) as [->|Hne].
      * assert (x = x0) as -> by congruence.
        destruct (Hpt (slot b p.1 p.2) (set_adjacent cnt x0)) as (a & Ha & Hin2 & Hout).
        { unfold l'. apply list_lookup_insert_eq. by eapply lookup_lt_Some. }
        exists a. split_and!; [done | |].
        -- intros q Hq Hk _.
           assert (q.1 = p.1 ∧ q.2 = p.2) as [-> ->].
           { symmetry in Hk. apply slot_inj in Hk as [? ?]; [done | | done].
             by apply Hin. }
           destruct (decide (slot b p.1 p.2 ∈ (λ p, slot b p.1 p.2) <$> ps)) as [Hel|Hnel].
           ++ apply list_elem_of_fmap in Hel as (q' & Hq'k & Hq').
              rewrite (Hin2 q' Hq' Hq'k Hm). rewrite (mines_around_ext b l l' Hext).
              apply slot_inj in Hq'k as [-> ->]; [done | done | by apply Hin'].
           ++ by rewrite (Hout Hnel).
        -- intros Hk. exfalso. apply Hk. rewrite fmap_cons. left.
      * destruct (Hpt k x) as (a & Ha & Hin2 & Hout).
        { unfold l'. by rewrite list_lookup_insert_ne. }
        exists a. split_and!; [done | |].
        -- intros q [->|Hq]%elem_of_cons Hk Hxm; [done|].
           rewrite (Hin2 q Hq Hk Hxm). apply mines_around_ext, Hext.
        -- intros Hk. apply Hout. intros Hk'. apply Hk. rewrite fmap_cons. by right.
Qed.

Lemma count_cells_ext (f : CellState → bool) (l l' : list Cell) :
  length l = length l' →
  (∀ k x x', l !! k = Some x → l' !! k = Some x' → f (state x') = f (state x)) →
  count_cells f l = count_cells f l'.
Proof.
  intros Hlen Hp. apply Nat.le_antisymm; apply count_cells_mono; try done.
  - intros k x x' Hx Hx' Hf. by rewrite (Hp k x x').
  - intros k x x' Hx Hx' Hf. by rewrite <- (Hp k x' x).
Qed.

Lemma chosen_mines_inbounds (b : Board) (sc sr : Z) (p : pos) :
  p ∈ chosen_mines b sc sr → is_inbounds b p.1 p.2 = true.
Proof using shuffle_perm.
  intros Hp. destruct (chosen_mines_spec b sc sr) as [_ Hsub].
  by apply Hsub, candidate_pool_spec in Hp as [? _].
Qed.

(** [place_mines] returns normally on a board of the right size; it
    touches only [is_mine], [adjacent] and [_mines_placed]. *)
Lemma place_mines_spec (b : Board) (sc sr : Z) :
  sized b (cells b) →
  ∃ l2, place_mines b sc sr = Ret (set_mines_placed true (set_cells l2 b)) ∧
    sized b l2 ∧
    (∀ k x, cells b !! k = Some x →
       ∃ x', l2 !! k = Some x' ∧
         col x' = col x ∧ row x' = row x ∧
         is_revealed (state x') = is_revealed (state x) ∧
         is_flagged (state x') = is_flagged (state x) ∧
         is_mine (state x') =
           is_mine (state x) ||
           bool_decide (k ∈ (λ p, slot b p.1 p.2) <$> chosen_mines b sc sr)) ∧
    adjacency_ok (set_mines_placed true (set_cells l2 b)).
Proof using shuffle_perm.
  intros Hs. rewrite place_mines_unfold.
  destruct (chosen_mines_spec b sc sr) as [Hnd _].
  destruct (mark_mines_spec b (chosen_mines b sc sr) (cells b) Hs Hnd)
    as (l1 & Hrun1 & Hs1 & Hpt1 & _); [apply chosen_mines_inbounds|].
  destruct (adjacency_loop_spec b (grid (λ c r, (c, r)) (cols b) (rows b)) l1 Hs1)
    as (l2 & Hrun2 & Hs2 & Hpt2); [by intros p ?%grid_pair_inbounds|].
  exists l2. rewrite Hrun1. simpl. rewrite Hrun2. simpl.
  split_and!; [done | done | |].
  - intros k x Hx. destruct (Hpt2 k _ (Hpt1 k x Hx)) as (a & Ha & _).
    eexists. split; [exact Ha|]. done.
  - intros c r x'. unfold cell_at. simpl.
    change (is_inbounds (set_mines_placed true (set_cells l2 b)) c r)
      with (is_inbounds b c r).
    change (slot (set_mines_placed true (set_cells l2 b)) c r) with (slot b c r).
    destruct (is_inbounds b c r) eqn:Hin; [|done]. intros Hx' Hm.
    destruct (lookup_lt_is_Some_2 l1 (slot b c r)) as [x1 Hx1].
    { rewrite Hs1, <- Hs2. by eapply lookup_lt_Some. }
    destruct (Hpt2 _ x1 Hx1) as (a & Ha & Hin2 & _).
    assert (x' = set_adjacent a x1) as -> by congruence. simpl in *.
    rewrite (Hin2 (c, r)); [| by apply grid_pair_inbounds | done | done].
    symmetry. apply (mines_around_ext b l1 l2). intros k.
    destruct (l1 !! k) as [y|] eqn:Hy.
    + destruct (Hpt2 k y Hy) as (a' & -> & _). done.
    + apply lookup_ge_None in Hy. rewrite lookup_ge_None_2; [done|].
      rewrite Hs2, <- Hs1. done.
Qed.

(** When no cell is a mine beforehand, exactly the chosen positions
    become mines. *)
Lemma place_mines_count (b : Board) (sc sr : Z) (l2 : list Cell) :
  sized b (cells b) →
  (∀ x, x ∈ cells b → is_mine (state x) = false) →
  place_mines b sc sr = Ret (set_mines_placed true (set_cells l2 b)) →
  count_cells is_mine l2 = length (chosen_mines b sc sr).
Proof using shuffle_perm.
  intros Hs Hno. rewrite place_mines_unfold.
  destruct (chosen_mines_spec b sc sr) as [Hnd _].
  destruct (mark_mines_spec b (chosen_mines b sc sr) (cells b) Hs Hnd)
    as (l1 & Hrun1 & Hs1 & Hpt1 & Hcnt); [apply chosen_mines_inbounds|].
  destruct (adjacency_loop_spec b (grid (λ c r, (c, r)) (cols b) (rows b)) l1 Hs1)
    as (l3 & Hrun2 & Hs2 & Hpt2); [by intros p ?%grid_pair_inbounds|].
  rewrite Hrun1. simpl. rewrite Hrun2. simpl. intros [= <-].
  rewrite (count_cells_ext is_mine l3 l1).
  - rewrite Hcnt.
    + assert (count_cells is_mine (cells b) = 0%nat) as ->; [|done].
      by apply count_cells_zero.
    + intros p x _ Hx. apply Hno. by eapply list_elem_of_lookup_2.
  - by rewrite Hs1, Hs2.
  - intros k x x' Hx Hx'. destruct (Hpt2 k x' Hx') as (a & Ha & _).
    assert (x = set_adjacent a x') as -> by congruence. done.
Qed.

(** ** The frame relations *)

Lemma evolves_refl (b : Board) : evolves b b.
Proof. split; try done. intros k x Hx. exists x. done. Qed.

Lemma evolves_trans (b1 b2 b3 : Board) :
  evolves b1 b2 → evolves b2 b3 → evolves b1 b3.
Proof.
  intros H12 H23. split.
  - by rewrite (ev_cols _ _ H23), (ev_cols _ _ H12).
  - by rewrite (ev_rows _ _ H23), (ev_rows _ _ H12).
  - by rewrite (ev_num_mines _ _ H23), (ev_num_mines _ _ H12).
  - by rewrite (ev_length _ _ H23), (ev_length _ _ H12).
  - intros k x Hx.
    destruct (ev_cells _ _ H12 k x Hx) as (x2 & Hx2 & Hc2 & Hr2 & Hrev2 & Hm2).
    destruct (ev_cells _ _ H23 k x2 Hx2) as (x3 & Hx3 & Hc3 & Hr3 & Hrev3 & Hm3).
    exists x3. split_and!; [done | congruence | congruence | auto |].
    intros Hp. destruct (Hm2 Hp) as [? ?].
    destruct (Hm3 (ev_placed _ _ H12 Hp)) as [? ?]. split; congruence.
  - intros Hp. by apply (ev_placed _ _ H23), (ev_placed _ _ H12).
  - intros Hp. by apply (ev_game_over _ _ H23), (ev_game_over _ _ H12).
  - intros Hp. by apply (ev_win _ _ H23), (ev_win _ _ H12).
  - intros Hp. rewrite (ev_lost _ _ H23); [by apply (ev_lost _ _ H12)|].
    by apply (ev_game_over _ _ H12).
Qed.

Lemma evolves_is_inbounds (b b' : Board) (c r : Z) :
  evolves b b' → is_inbounds b' c r = is_inbounds b c r.
Proof. intros H. unfold is_inbounds. by rewrite (ev_cols _ _ H), (ev_rows _ _ H). Qed.

Lemma evolves_index (b b' : Board) (c r : Z) :
  evolves b b' → index b' c r = index b c r.
Proof. intros H. unfold index. by rewrite (ev_cols _ _ H). Qed.

Lemma evolves_slot (b b' : Board) (c r : Z) :
  evolves b b' → slot b' c r = slot b c r.
Proof. intros H. unfold slot. by rewrite (evolves_index b b'). Qed.

Lemma evolves_neighbors (b b' : Board) (c r : Z) :
  evolves b b' → neighbors b' c r = neighbors b c r.
Proof.
  intros H. unfold neighbors. apply filter_ext. intros n.
  by apply evolves_is_inbounds.
Qed.

Lemma evolves_sized (b b' : Board) :
  evolves b b' → sized b (cells b) → sized b' (cells b').
Proof.
  intros H. unfold sized.
  by rewrite (ev_cols _ _ H), (ev_rows _ _ H), (ev_length _ _ H).
Qed.

Lemma evolves_count_mines (b b' : Board) :
  evolves b b' → mines_placed b = true →
  count_cells is_mine (cells b') = count_cells is_mine (cells b).
Proof.
  intros H Hp. symmetry. apply count_cells_ext; [by rewrite (ev_length _ _ H)|].
  intros k x x' Hx Hx'.
  destruct (ev_cells _ _ H k x Hx) as (y & Hy & _ & _ & _ & Hm).
  assert (y = x') as -> by congruence. by destruct (Hm Hp).
Qed.

Lemma evolves_mine_at (b b' : Board) (p : pos) :
  evolves b b' → mines_placed b = true →
  mine_at b' (cells b') p = mine_at b (cells b) p.
Proof.
  intros H Hp. unfold mine_at. rewrite (evolves_index b b' _ _ H).
  destruct (cells b !! _) as [x|] eqn:Hx.
  - destruct (ev_cells _ _ H _ x Hx) as (y & -> & _ & _ & _ & Hm). by destruct (Hm Hp).
  - apply lookup_ge_None in Hx. rewrite lookup_ge_None_2; [done|].
    by rewrite (ev_length _ _ H).
Qed.

Lemma evolves_adjacency_ok (b b' : Board) :
  evolves b b' → mines_placed b = true → adjacency_ok b → adjacency_ok b'.
Proof.
  intros H Hp Hok c r x'. unfold cell_at.
  rewrite (evolves_is_inbounds b b' _ _ H), (evolves_slot b b' _ _ H).
  destruct (is_inbounds b c r) eqn:Hin; [|done]. intros Hx' Hm.
  destruct (lookup_lt_is_Some_2 (cells b) (slot b c r)) as [x Hx].
  { rewrite <- (ev_length _ _ H). by eapply lookup_lt_Some. }
  destruct (ev_cells _ _ H _ x Hx) as (y & Hy & _ & _ & _ & Hmy).
  assert (y = x') as -> by congruence. destruct (Hmy Hp) as [Hm' Ha'].
  rewrite Ha', (Hok c r x); [| by unfold cell_at; rewrite Hin | congruence].
  unfold mines_around. rewrite (evolves_neighbors b b' _ _ H). do 2 f_equal.
  apply filter_ext. intros n. symmetry. by apply evolves_mine_at.
Qed.

Lemma evolves_inv_mines (b b' : Board) :
  evolves b b' → mines_placed b = true →
  Z.of_nat (count_cells is_mine (cells b)) = num_mines b ∧ adjacency_ok b →
  Z.of_nat (count_cells is_mine (cells b')) = num_mines b' ∧ adjacency_ok b'.
Proof.
  intros H Hp [Hc Hok]. split.
  - by rewrite (evolves_count_mines b b'), (ev_num_mines _ _ H).
  - by eapply evolves_adjacency_ok.
Qed.

Lemma kept_refl (b : Board) : kept b b.
Proof. split; [apply evolves_refl|]. intros k x x' Hx Hx'. congruence. Qed.

Lemma kept_trans (b1 b2 b3 : Board) : kept b1 b2 → kept b2 b3 → kept b1 b3.
Proof.
  intros [H12 F12] [H23 F23]. split; [by eapply evolves_trans|].
  intros k x x3 Hx Hx3.
  destruct (ev_cells _ _ H12 k x Hx) as (x2 & Hx2 & _).
  rewrite (F23 k x2 x3 Hx2 Hx3). by apply (F12 k).
Qed.

(** ** The elementary mutations *)

Lemma new_board_inv (ncols nrows mines : Z) :
  valid_config ncols nrows mines → core_inv (new_board ncols nrows mines).
Proof.
  intros Hcfg. split; simpl; try done.
  - apply new_board_sized.
  - intros _. split_and!; try done.
    by intros x (c & r & _ & _ & ->)%grid_elem_of.
  - intros _. split.
    + assert (count_cells is_revealed (grid new_cell ncols nrows) = 0%nat) as ->; [|done].
      apply count_cells_zero. by intros x (c & r & _ & _ & ->)%grid_elem_of.
    + by intros x (c & r & _ & _ & ->)%grid_elem_of.
Qed.

(** Once the counter has reached the number of safe cells of a board
    still in play, every safe cell is open. *)
Lemma all_safe_revealed (b : Board) :
  core_inv b → game_over b = false →
  revealed_count b = cols b * rows b - num_mines b →
  mines_placed b = true ∧
  ∀ x, x ∈ cells b → is_revealed (state x) || is_mine (state x) = true.
Proof.
  intros Hinv Hgo Hcnt.
  destruct (inv_count _ Hinv Hgo) as [Hrc Hnomine].
  pose proof (inv_config _ Hinv) as Hcfg.
  destruct (mines_placed b) eqn:Hp.
  2:{ destruct (inv_fresh _ Hinv Hp) as (_ & H0 & _). lia. }
  split; [done|].
  destruct (inv_mines _ Hinv Hp) as [Hnm _].
  pose proof (count_cells_le is_revealed (cells b)) as Hle.
  pose proof (inv_sized _ Hinv) as Hs. unfold sized in Hs.
  assert (Z.of_nat (length (cells b)) = cols b * rows b) as Hlen by (rewrite Hs; nia).
  pose proof (count_cells_or is_revealed is_mine (cells b)) as Hor.
  assert (count_cells (λ s, is_revealed s && is_mine s) (cells b) = 0%nat) as Hand.
  { apply count_cells_zero. intros x Hx.
    destruct (is_mine (state x)) eqn:Hm; [|by rewrite andb_false_r].
    by rewrite (Hnomine x Hx Hm). }
  apply (count_cells_all (λ s, is_revealed s || is_mine s)). lia.
Qed.

Lemma list_fmap_fix {A : Type} (g : A → A) (l : list A) :
  (∀ x, x ∈ l → g x = x) → g <$> l = l.
Proof.
  induction l as [|a l IH]; intros Hg; [done|].
  rewrite fmap_cons, Hg by left. f_equal. apply IH. intros x Hx. apply Hg. by right.
Qed.

(** On a board that satisfies the invariant the win check at most sets
    the [win] flag: its sweep finds nothing left to open. *)
Lemma check_win_spec (b : Board) :
  core_inv b →
  check_win b = b ∨
  (check_win b = set_win true b ∧ game_over b = false ∧ mines_placed b = true ∧
   revealed_count b = cols b * rows b - num_mines b).
Proof.
  intros Hinv. unfold check_win.
  destruct (Z.eqb_spec (revealed_count b) (cols b * rows b - num_mines b)) as [Hc|];
    [|by left].
  destruct (game_over b) eqn:Hgo; [by left|]. right. simpl.
  destruct (all_safe_revealed b Hinv Hgo Hc) as [Hp Hall].
  split_and!; try done. unfold set_cells. simpl. rewrite list_fmap_fix; [done|].
  intros x Hx. specialize (Hall x Hx).
  by destruct (is_revealed (state x)), (is_mine (state x)).
Qed.

Lemma set_win_inv (b : Board) :
  core_inv b → mines_placed b = true → core_inv (set_win true b).
Proof.
  intros Hinv Hp. split; simpl.
  - apply (inv_sized _ Hinv).
  - apply (inv_config _ Hinv).
  - congruence.
  - apply (inv_mines _ Hinv).
  - apply (inv_count _ Hinv).
Qed.

Lemma set_win_kept (b : Board) :
  game_over b = false → kept b (set_win true b).
Proof.
  intros Hgo. split.
  - split; simpl; try done; try congruence. intros k x Hx. exists x. done.
  - intros k x x'. simpl. congruence.
Qed.

Lemma check_win_inv (b : Board) : core_inv b → core_inv (check_win b).
Proof.
  intros Hinv. destruct (check_win_spec b Hinv) as [->|(-> & _ & Hp & _)]; [done|].
  by apply set_win_inv.
Qed.

Lemma check_win_kept (b : Board) : core_inv b → kept b (check_win b).
Proof.
  intros Hinv. destruct (check_win_spec b Hinv) as [->|(-> & Hgo & _)].
  - apply kept_refl.
  - by apply set_win_kept.
Qed.

Lemma open_cell_kept (k : nat) (x : Cell) (b : Board) :
  cells b !! k = Some x → kept b (open_cell k x b).
Proof.
  intros Hx. split.
  - split; simpl; try done.
    + by rewrite length_insert.
    + intros k' y Hy. destruct (decide (k' = k)) as [->|Hne].
      * assert (y = x) as -> by congruence.
        exists (set_is_revealed true x).
        rewrite list_lookup_insert_eq by (by eapply lookup_lt_Some). done.
      * exists y. by rewrite list_lookup_insert_ne.
  - intros k' y y' Hy. simpl. destruct (decide (k' = k)) as [->|Hne].
    + rewrite list_lookup_insert_eq by (by eapply lookup_lt_Some).
      intros [= <-]. simpl. congruence.
    + rewrite list_lookup_insert_ne by done. congruence.
Qed.

Lemma open_cell_inv (k : nat) (x : Cell) (b : Board) :
  core_inv b → mines_placed b = true → cells b !! k = Some x →
  is_revealed (state x) = false →
  (game_over b = false → is_mine (state x) = false) →
  core_inv (open_cell k x b).
Proof.
  intros Hinv Hp Hx Hrev Hsafe.
  destruct (open_cell_kept k x b Hx) as [Hev _].
  split.
  - apply (evolves_sized b); [done | apply (inv_sized _ Hinv)].
  - rewrite (ev_cols _ _ Hev), (ev_rows _ _ Hev), (ev_num_mines _ _ Hev).
    apply (inv_config _ Hinv).
  - simpl. congruence.
  - intros _. apply (evolves_inv_mines b); [done | done |]. by apply (inv_mines _ Hinv).
  - simpl. intros Hgo. destruct (inv_count _ Hinv Hgo) as [Hrc Hnm]. split.
    + pose proof (count_cells_insert is_revealed (cells b) k x
                    (set_is_revealed true x) Hx) as Hc.
      rewrite Hrev in Hc. simpl in Hc. lia.
    + intros y [j Hy]%list_elem_of_lookup Hm.
      destruct (decide (j = k)) as [->|Hne].
      * rewrite list_lookup_insert_eq in Hy by (by eapply lookup_lt_Some).
        injection Hy as <-. simpl in Hm. rewrite (Hsafe Hgo) in Hm. done.
      * rewrite list_lookup_insert_ne in Hy by done.
        apply Hnm; [by eapply list_elem_of_lookup_2 | done].
Qed.

Lemma lose_kept (b : Board) : kept b (reveal_all_mines (set_game_over true b)).
Proof.
  split.
  - split; simpl; try done.
    + by rewrite length_fmap.
    + intros k x Hx. rewrite list_lookup_fmap, Hx. simpl. eexists. split; [done|].
      destruct (is_mine (state x)) eqn:Hm; simpl; split_and!; auto.
  - intros k x x' Hx. simpl. rewrite list_lookup_fmap, Hx. simpl. intros [= <-].
    by destruct (is_mine (state x)).
Qed.

Lemma lose_inv (b0 b : Board) :
  core_inv b0 → mines_placed b0 = true → evolves b0 b →
  core_inv (reveal_all_mines (set_game_over true b)).
Proof.
  intros Hinv Hp Hev.
  pose proof (evolves_trans _ _ _ Hev (proj1 (lose_kept b))) as Hev'.
  split.
  - apply (evolves_sized b0); [done | apply (inv_sized _ Hinv)].
  - rewrite (ev_cols _ _ Hev'), (ev_rows _ _ Hev'), (ev_num_mines _ _ Hev').
    apply (inv_config _ Hinv).
  - intros Hf. rewrite (ev_placed _ _ Hev' Hp) in Hf. done.
  - intros _. apply (evolves_inv_mines b0); [done | done |]. by apply (inv_mines _ Hinv).
  - simpl. done.
Qed.

(** The first in-bounds [reveal] places the mines: exactly [num_mines]
    of them, none on the clicked cell or next to it. *)
Lemma place_mines_step (b : Board) (c r : Z) :
  core_inv b → mines_placed b = false → is_inbounds b c r = true →
  ∃ b1, place_mines b c r = Ret b1 ∧ core_inv b1 ∧ kept b b1 ∧
    mines_placed b1 = true ∧ revealed_count b1 = 0 ∧
    game_over b1 = false ∧ win b1 = false ∧
    (∀ k x x', cells b !! k = Some x → cells b1 !! k = Some x' →
       is_revealed (state x') = is_revealed (state x)) ∧
    (∀ p x, p = (c, r) ∨ In p (neighbors b c r) →
       cell_at b1 p.1 p.2 = Some x → is_mine (state x) = false).
Proof using shuffle_perm.
  intros Hinv Hp Hin.
  destruct (inv_fresh _ Hinv Hp) as (Hclean & Hrc & Hgo & Hwin).
  pose proof (inv_sized _ Hinv) as Hs.
  destruct (place_mines_spec b c r Hs) as (l2 & Hrun & Hs2 & Hpt & Hadj).
  pose proof (place_mines_count b c r l2 Hs (λ x Hx, proj1 (Hclean x Hx)) Hrun) as Hcnt.
  set (b1 := set_mines_placed true (set_cells l2 b)) in *.
  assert (evolves b b1) as Hev.
  { split; simpl; try done; try congruence.
    intros k x Hx. destruct (Hpt k x Hx) as (x' & Hx' & Hc' & Hr' & Hrev' & _).
    exists x'. split_and!; try done; congruence. }
  assert (∀ k x x', cells b !! k = Some x → cells b1 !! k = Some x' →
            is_revealed (state x') = is_revealed (state x)) as Hrevs.
  { intros k x x' Hx Hx'. destruct (Hpt k x Hx) as (y & Hy & _ & _ & Hrev' & _).
    simpl in Hx'. congruence. }
  assert (∀ x', x' ∈ cells b1 → is_revealed (state x') = false) as Hclosed.
  { intros x' [k Hx']%list_elem_of_lookup.
    destruct (lookup_lt_is_Some_2 (cells b) k) as [x Hx].
    { rewrite <- (ev_length _ _ Hev). by eapply lookup_lt_Some. }
    rewrite (Hrevs k x x' Hx Hx'). apply Hclean. by eapply list_elem_of_lookup_2. }
  exists b1. split_and!; try done.
  - split; simpl; try done.
    + apply (inv_config _ Hinv).
    + intros _. split; [|done]. rewrite Hcnt.
      apply chosen_mines_length; [apply (inv_config _ Hinv) | done].
    + intros _. split; [|by intros x' Hx' _; apply Hclosed].
      assert (count_cells is_revealed l2 = 0%nat) as ->; [|lia].
      by apply count_cells_zero.
  - split; [done|]. intros k x x' Hx Hx'.
    destruct (Hpt k x Hx) as (y & Hy & _ & _ & _ & Hfl & _). simpl in Hx'. congruence.
  - intros p x' Hzone. unfold cell_at.
    change (is_inbounds b1 p.1 p.2) with (is_inbounds b p.1 p.2).
    change (slot b1 p.1 p.2) with (slot b p.1 p.2).
    destruct (is_inbounds b p.1 p.2) eqn:Hpin; [|done]. intros Hx'.
    destruct (lookup_lt_is_Some_2 (cells b) (slot b p.1 p.2)) as [x Hx].
    { rewrite <- (ev_length _ _ Hev). by eapply lookup_lt_Some. }
    destruct (Hpt _ x Hx) as (y & Hy & _ & _ & _ & _ & Hm).
    assert (y = x') as -> by (simpl in Hx'; congruence).
    rewrite Hm, (proj1 (Hclean x (list_elem_of_lookup_2 _ _ _ Hx))). simpl.
    apply bool_decide_eq_false. intros (q & Hq & Hqc)%list_elem_of_fmap.
    pose proof (chosen_mines_inbounds b c r q Hqc) as Hqin.
    apply slot_inj in Hq as [Hq1 Hq2]; [| done | done].
    assert (q = p) as -> by (destruct p, q; simpl in *; congruence).
    destruct (chosen_mines_spec b c r) as [_ Hsub].
    apply Hsub, candidate_pool_spec in Hqc as (_ & Hne & Hnn).
    destruct Hzone; done.
Qed.

(** ** Reveal preserves the invariant *)

Lemma reveal_S (depth : nat) (b : Board) (c r : Z) :
  reveal (S depth) b c r =
  if negb (is_inbounds b c r) then Ret b
  else
    b1 ←! (if negb (mines_placed b) then place_mines b c r else Ret b);
    kx ←! getitem (cells b1) (index b1 c r);
    let '(k, x) := kx in
    if is_revealed (state x) || is_flagged (state x) then Ret b1
    else
      if is_mine (state x) then
        Ret (reveal_all_mines (set_game_over true (open_cell k x b1)))
      else
        b3 ←! (if adjacent (state x) =? 0 then
                 for_each (λ b' n, reveal depth b' n.1 n.2)
                   (neighbors b1 c r) (open_cell k x b1)
               else Ret (open_cell k x b1));
        Ret (check_win b3).
Proof. reflexivity. Qed.

(** The mine-placement prefix of [reveal]. *)
Lemma reveal_prefix (b : Board) (c r : Z) :
  core_inv b → is_inbounds b c r = true →
  ∃ b1 x,
    (if negb (mines_placed b) then place_mines b c r else Ret b) = Ret b1 ∧
    getitem (cells b1) (index b1 c r) = Ret (slot b c r, x) ∧
    cells b1 !! slot b c r = Some x ∧
    core_inv b1 ∧ kept b b1 ∧ mines_placed b1 = true ∧
    (mines_placed b = true → b1 = b) ∧
    (mines_placed b = false → is_mine (state x) = false ∧ is_revealed (state x) = false).
Proof using shuffle_perm.
  intros Hinv Hin.
  assert (∃ b1, (if negb (mines_placed b) then place_mines b c r else Ret b) = Ret b1 ∧
            core_inv b1 ∧ kept b b1 ∧ mines_placed b1 = true ∧
            (mines_placed b = true → b1 = b) ∧
            (mines_placed b = false →
             ∀ x, cell_at b1 c r = Some x →
               is_mine (state x) = false ∧ is_revealed (state x) = false))
    as (b1 & Hb1 & Hinv1 & Hk1 & Hp1 & Hsame & Hfresh).
  { destruct (mines_placed b) eqn:Hp; simpl.
    - exists b. split_and!; try done. apply kept_refl.
    - destruct (place_mines_step b c r Hinv Hp Hin)
        as (b1 & Hrun & Hinv1 & Hk1 & Hp1 & Hrc1 & Hgo1 & _ & _ & Hzone).
      exists b1. split_and!; try done. intros _ x Hx. split.
      + apply (Hzone (c, r)); [by left | done].
      + destruct (inv_count _ Hinv1 Hgo1) as [Hrc Hnm].
        assert (count_cells is_revealed (cells b1) = 0%nat) as Hz by lia.
        unfold cell_at in Hx. destruct (is_inbounds b1 c r); [|done].
        eapply (proj1 (count_cells_zero _ _) Hz). by eapply list_elem_of_lookup_2. }
  destruct Hk1 as [Hev1 Hfl1].
  pose proof (evolves_is_inbounds b b1 c r Hev1) as Hin1. rewrite Hin in Hin1.
  destruct (getitem_inbounds b1 (cells b1) c r (inv_sized _ Hinv1) Hin1)
    as (x & Hx & Hg).
  rewrite (evolves_slot b b1 c r Hev1) in Hx, Hg.
  exists b1, x. split_and!; try done.
  intros Hp. apply (Hfresh Hp). unfold cell_at.
  by rewrite Hin1, (evolves_slot b b1 c r Hev1).
Qed.

Lemma reveal_inv (depth : nat) :
  ∀ b c r b', core_inv b → reveal depth b c r = Ret b' → core_inv b' ∧ kept b b'.
Proof using shuffle_perm.
  induction depth as [|depth IH]; intros b c r b' Hinv Hrun; [done|].
  rewrite reveal_S in Hrun.
  destruct (is_inbounds b c r) eqn:Hin; simpl in Hrun.
  2:{ injection Hrun as <-. split; [done | apply kept_refl]. }
  destruct (reveal_prefix b c r Hinv Hin)
    as (b1 & x & Hb1 & Hg & Hx & Hinv1 & Hk1 & Hp1 & _ & _).
  rewrite Hb1 in Hrun. simpl in Hrun. rewrite Hg in Hrun. simpl in Hrun.
  destruct (is_revealed (state x) || is_flagged (state x)) eqn:Hguard.
  { injection Hrun as <-. done. }
  apply orb_false_iff in Hguard as [Hrev Hflag].
  pose proof (open_cell_kept (slot b c r) x b1 Hx) as Hk2.
  destruct (is_mine (state x)) eqn:Hm.
  - injection Hrun as <-. split.
    + apply (lose_inv b1); [done | done | apply Hk2].
    + eapply kept_trans; [exact Hk1|]. eapply kept_trans; [exact Hk2|]. apply lose_kept.
  - assert (core_inv (open_cell (slot b c r) x b1)) as Hinv2
      by (by apply open_cell_inv).
    inv_bind Hrun. rename a into b3. injection Hrun as <-.
    assert (core_inv b3 ∧ kept (open_cell (slot b c r) x b1) b3) as [Hinv3 Hk3].
    { destruct (adjacent (state x) =? 0).
      - eapply (for_each_rel _ core_inv kept); [| | | exact Hinv2 | exact Ha].
        + intros s _. apply kept_refl.
        + apply kept_trans.
        + intros s n s' _ Hs Hbody. by apply (IH s n.1 n.2).
      - injection Ha as <-. split; [done | apply kept_refl]. }
    split; [by apply check_win_inv|].
    eapply kept_trans; [exact Hk1|]. eapply kept_trans; [exact Hk2|].
    eapply kept_trans; [exact Hk3|]. by apply check_win_kept.
Qed.

Lemma check_win_settled (b : Board) : win_settled (check_win b).
Proof.
  unfold check_win, win_settled.
  destruct (Z.eqb_spec (revealed_count b) (cols b * rows b - num_mines b)) as [Hc|Hc];
    destruct (game_over b) eqn:Hgo; simpl; congruence.
Qed.

Lemma reveal_settled (depth : nat) (b b' : Board) (c r : Z) :
  board_inv b → reveal depth b c r = Ret b' → win_settled b'.
Proof using shuffle_perm.
  intros [Hinv Hws] Hrun. destruct depth as [|depth]; [done|].
  rewrite reveal_S in Hrun.
  destruct (is_inbounds b c r) eqn:Hin; simpl in Hrun.
  2:{ by injection Hrun as <-. }
  destruct (reveal_prefix b c r Hinv Hin)
    as (b1 & x & Hb1 & Hg & Hx & Hinv1 & Hk1 & Hp1 & Hsame & _).
  rewrite Hb1 in Hrun. simpl in Hrun. rewrite Hg in Hrun. simpl in Hrun.
  destruct (is_revealed (state x) || is_flagged (state x)) eqn:Hguard.
  { injection Hrun as <-. destruct (mines_placed b) eqn:Hp.
    - by rewrite (Hsame eq_refl).
    - simpl in Hb1.
      destruct (place_mines_step b c r Hinv Hp Hin) as (b1' & Hb1' & _ & _ & _ & Hrc & _).
      assert (b1' = b1) as -> by congruence.
      intros _ Hc. pose proof (inv_config _ Hinv1). lia. }
  destruct (is_mine (state x)).
  - injection Hrun as <-. intros Hgo. done.
  - inv_bind Hrun. injection Hrun as <-. apply check_win_settled.
Qed.

(** ** Flag toggling *)

Lemma set_win_id (b : Board) : win b = true → set_win true b = b.
Proof. destruct b. simpl. by intros ->. Qed.

Lemma flip_flag_evolves (k : nat) (x : Cell) (b : Board) :
  cells b !! k = Some x → evolves b (flip_flag k x b).
Proof.
  intros Hx. split; simpl; try done.
  - by rewrite length_insert.
  - intros k' y Hy. destruct (decide (k' = k)) as [->|Hne].
    + assert (y = x) as -> by congruence.
      eexists. rewrite list_lookup_insert_eq by (by eapply lookup_lt_Some). done.
    + exists y. by rewrite list_lookup_insert_ne.
Qed.

Lemma flip_flag_lookup (k : nat) (x : Cell) (b : Board) (j : nat) (y' : Cell) :
  cells b !! k = Some x → cells (flip_flag k x b) !! j = Some y' →
  ∃ y, cells b !! j = Some y ∧
    is_revealed (state y') = is_revealed (state y) ∧
    is_mine (state y') = is_mine (state y).
Proof.
  intros Hx. simpl. destruct (decide (j = k)) as [->|Hne].
  - rewrite list_lookup_insert_eq by (by eapply lookup_lt_Some).
    intros [= <-]. by exists x.
  - rewrite list_lookup_insert_ne by done. intros Hy. by exists y'.
Qed.

Lemma flip_flag_inv (k : nat) (x : Cell) (b : Board) :
  core_inv b → cells b !! k = Some x → core_inv (flip_flag k x b).
Proof.
  intros Hinv Hx. pose proof (flip_flag_evolves k x b Hx) as Hev.
  assert (∀ f, (f = is_revealed ∨ f = is_mine) →
            count_cells f (cells (flip_flag k x b)) = count_cells f (cells b)) as Hcnt.
  { intros f Hf. symmetry. apply count_cells_ext; [by rewrite (ev_length _ _ Hev)|].
    intros j y y' Hy Hy'.
    destruct (flip_flag_lookup k x b j y' Hx Hy') as (z & Hz & Hr & Hm).
    assert (z = y) as -> by congruence. by destruct Hf as [-> | ->]. }
  assert (∀ y', y' ∈ cells (flip_flag k x b) →
            ∃ y, y ∈ cells b ∧ is_revealed (state y') = is_revealed (state y) ∧
                 is_mine (state y') = is_mine (state y)) as Hback.
  { intros y' [j Hy']%list_elem_of_lookup.
    destruct (flip_flag_lookup k x b j y' Hx Hy') as (y & Hy & ? & ?).
    exists y. split; [by eapply list_elem_of_lookup_2 | done]. }
  split.
  - apply (evolves_sized b); [done | apply (inv_sized _ Hinv)].
  - apply (inv_config _ Hinv).
  - simpl. intros Hp. destruct (inv_fresh _ Hinv Hp) as (Hclean & ? & ? & ?).
    split_and!; try done. intros y' Hy'.
    destruct (Hback y' Hy') as (y & Hy & -> & ->). by apply Hclean.
  - intros Hp. apply (evolves_inv_mines b); [done | done |]. by apply (inv_mines _ Hinv).
  - simpl. intros Hgo. destruct (inv_count _ Hinv Hgo) as [Hrc Hnm]. split.
    + rewrite Hrc. f_equal. symmetry. apply (Hcnt is_revealed). by left.
    + intros y' Hy' Hm. destruct (Hback y' Hy') as (y & Hy & Hr' & Hm').
      rewrite Hr'. apply Hnm; [done | congruence].
Qed.

(** On a board that satisfies the invariant, [toggle_flag] returns
    normally; it inverts the flag of a closed in-bounds cell and does
    nothing else, and it does nothing at all in the other cases. *)
Lemma toggle_flag_spec (b : Board) (c r : Z) :
  board_inv b →
  toggle_flag b c r =
  Ret (match cell_at b c r with
       | Some x => if is_revealed (state x) then b else flip_flag (slot b c r) x b
       | None => b
       end).
Proof.
  intros [Hinv Hws]. unfold toggle_flag, cell_at.
  destruct (is_inbounds b c r) eqn:Hin; simpl; [|done].
  destruct (getitem_inbounds b (cells b) c r (inv_sized _ Hinv) Hin) as (x & Hx & Hg).
  rewrite Hg, Hx. simpl. destruct (is_revealed (state x)) eqn:Hrev; [done|].
  f_equal. fold (flip_flag (slot b c r) x b).
  destruct (check_win_spec _ (flip_flag_inv _ x b Hinv Hx))
    as [->|(-> & Hgo & _ & Hc)]; [done|].
  apply set_win_id. simpl in *. by apply Hws.
Qed.

Lemma toggle_flag_inv (b b' : Board) (c r : Z) :
  board_inv b → toggle_flag b c r = Ret b' → board_inv b' ∧ evolves b b'.
Proof.
  intros Hb. rewrite (toggle_flag_spec b c r Hb). intros [= <-].
  destruct Hb as [Hinv Hws]. unfold cell_at.
  destruct (is_inbounds b c r); [|by split; [|apply evolves_refl]].
  destruct (cells b !! slot b c r) as [x|] eqn:Hx; [|by split; [|apply evolves_refl]].
  destruct (is_revealed (state x)); [by split; [|apply evolves_refl]|].
  split; [split|].
  - by apply flip_flag_inv.
  - exact Hws.
  - by apply flip_flag_evolves.
Qed.

(** ** Reachable boards satisfy the invariant *)

Lemma step_inv (b b' : Board) :
  board_inv b → step b b' → board_inv b' ∧ evolves b b'.
Proof using shuffle_perm.
  intros Hb Hstep. destruct Hstep as [depth b c r b' Hrun | b c r b' Hrun].
  - destruct (reveal_inv depth b c r b' (proj1 Hb) Hrun) as [Hinv' [Hev _]].
    split; [split|]; [done | by eapply reveal_settled | done].
  - by eapply toggle_flag_inv.
Qed.

Lemma steps_inv (b b' : Board) :
  board_inv b → rtc step b b' → board_inv b' ∧ evolves b b'.
Proof using shuffle_perm.
  intros Hb Hsteps. induction Hsteps as [b|b1 b2 b3 H12 _ IH].
  - split; [done | apply evolves_refl].
  - destruct (step_inv b1 b2 Hb H12) as [Hb2 Hev12].
    destruct (IH Hb2) as [Hb3 Hev23]. split; [done | by eapply evolves_trans].
Qed.

Lemma new_board_settled (ncols nrows mines : Z) :
  valid_config ncols nrows mines → board_inv (new_board ncols nrows mines).
Proof.
  intros Hcfg. split; [by apply new_board_inv|].
  unfold win_settled, valid_config in *. simpl. lia.
Qed.

Lemma reachable_inv (ncols nrows mines : Z) (b : Board) :
  valid_config ncols nrows mines → reachable ncols nrows mines b →
  board_inv b ∧ cols b = ncols ∧ rows b = nrows ∧ num_mines b = mines.
Proof using shuffle_perm.
  intros Hcfg Hreach.
  destruct (steps_inv _ b (new_board_settled _ _ _ Hcfg) Hreach) as [Hb Hev].
  split_and!; [done | apply (ev_cols _ _ Hev) | apply (ev_rows _ _ Hev)
              | apply (ev_num_mines _ _ Hev)].
Qed.

(** ** Reveal returns *)

Lemma evolves_count_revealed (b b' : Board) :
  evolves b b' →
  (count_cells is_revealed (cells b) ≤ count_cells is_revealed (cells b'))%nat.
Proof.
  intros Hev. apply count_cells_mono; [by rewrite (ev_length _ _ Hev)|].
  intros k x x' Hx Hx' Hr.
  destruct (ev_cells _ _ Hev k x Hx) as (y & Hy & _ & _ & Hrev & _).
  assert (y = x') as -> by congruence. auto.
Qed.

Lemma evolves_closed_cells (b b' : Board) :
  evolves b b' → (closed_cells b' ≤ closed_cells b)%nat.
Proof.
  intros Hev. unfold closed_cells. rewrite (ev_length _ _ Hev).
  pose proof (evolves_count_revealed b b' Hev). lia.
Qed.

Lemma open_cell_closed_cells (k : nat) (x : Cell) (b : Board) :
  cells b !! k = Some x → is_revealed (state x) = false →
  S (closed_cells (open_cell k x b)) = closed_cells b.
Proof.
  intros Hx Hrev. unfold closed_cells. simpl. rewrite length_insert.
  pose proof (count_cells_insert is_revealed (cells b) k x (set_is_revealed true x) Hx) as Hc.
  rewrite Hrev in Hc. simpl in Hc.
  pose proof (count_cells_le is_revealed (<[k := set_is_revealed true x]> (cells b))) as Hle.
  rewrite length_insert in Hle. lia.
Qed.

(** The flood fill never nests deeper than the number of closed cells:
    with that much call depth available, [reveal] returns a board. *)
Lemma reveal_total (depth : nat) :
  ∀ b c r, core_inv b → (closed_cells b < depth)%nat →
  ∃ b', reveal depth b c r = Ret b'.
Proof using shuffle_perm.
  induction depth as [|depth IH]; intros b c r Hinv Hd; [lia|].
  rewrite reveal_S.
  destruct (is_inbounds b c r) eqn:Hin; simpl; [|by eexists].
  destruct (reveal_prefix b c r Hinv Hin)
    as (b1 & x & Hb1 & Hg & Hx & Hinv1 & Hk1 & Hp1 & _ & _).
  rewrite Hb1. simpl. rewrite Hg. simpl.
  destruct (is_revealed (state x) || is_flagged (state x)) eqn:Hguard; [by eexists|].
  apply orb_false_iff in Hguard as [Hrev Hflag].
  destruct (is_mine (state x)) eqn:Hm; [by eexists|].
  assert (core_inv (open_cell (slot b c r) x b1)) as Hinv2 by (by apply open_cell_inv).
  assert (closed_cells (open_cell (slot b c r) x b1) < depth)%nat as Hd2.
  { pose proof (open_cell_closed_cells _ x b1 Hx Hrev).
    pose proof (evolves_closed_cells b b1 (proj1 Hk1)). lia. }
  destruct (adjacent (state x) =? 0); simpl; [|by eexists].
  destruct (for_each_total (λ b' n, reveal depth b' n.1 n.2)
              (λ s, core_inv s ∧ (closed_cells s < depth)%nat)
              (neighbors b1 c r)) with (s := open_cell (slot b c r) x b1)
    as (b3 & -> & _); [| done | by eexists].
  intros s n _ [Hs Hds]. destruct (IH s n.1 n.2 Hs Hds) as [s' Hs'].
  exists s'. split; [done|].
  destruct (reveal_inv depth s n.1 n.2 s' Hs Hs') as [Hinv' [Hev' _]].
  split; [done|]. pose proof (evolves_closed_cells s s' Hev'). lia.
Qed.

(** The first in-bounds call places the mines and then behaves like a
    call on the board with the mines in place. *)
Lemma reveal_fresh (depth : nat) (b : Board) (c r : Z) :
  core_inv b → mines_placed b = false → is_inbounds b c r = true →
  ∃ b1, place_mines b c r = Ret b1 ∧
    reveal (S depth) b c r = reveal (S depth) b1 c r ∧
    core_inv b1 ∧ kept b b1 ∧ mines_placed b1 = true ∧
    revealed_count b1 = 0 ∧ game_over b1 = false ∧ win b1 = false ∧
    (∀ k x x', cells b !! k = Some x → cells b1 !! k = Some x' →
       is_revealed (state x') = is_revealed (state x)) ∧
    (∀ p x, p = (c, r) ∨ In p (neighbors b c r) →
       cell_at b1 p.1 p.2 = Some x → is_mine (state x) = false).
Proof using shuffle_perm.
  intros Hinv Hp Hin.
  destruct (place_mines_step b c r Hinv Hp Hin)
    as (b1 & Hrun & Hinv1 & Hk1 & Hp1 & Hrc & Hgo & Hw & Hrevs & Hzone).
  exists b1. split; [done|]. split; [|by split_and!].
  rewrite !reveal_S, Hin, (evolves_is_inbounds b b1 c r (proj1 Hk1)), Hin, Hp, Hp1.
  simpl. rewrite Hrun. done.
Qed.

(** ** Cells by coordinates *)

Lemma cell_at_Some (b : Board) (c r : Z) (x : Cell) :
  cell_at b c r = Some x ↔ is_inbounds b c r = true ∧ cells b !! slot b c r = Some x.
Proof.
  unfold cell_at. destruct (is_inbounds b c r); split; try done.
  - by intros [_ ?].
  - by intros [? _].
Qed.

Lemma cell_at_inbounds (b : Board) (c r : Z) :
  sized b (cells b) → is_inbounds b c r = true → ∃ x, cell_at b c r = Some x.
Proof.
  intros Hs Hin. destruct (getitem_inbounds b (cells b) c r Hs Hin) as (x & Hx & _).
  exists x. by apply cell_at_Some.
Qed.

Lemma cell_at_evolves (b b' : Board) (c r : Z) (x : Cell) :
  evolves b b' → cell_at b c r = Some x →
  ∃ x', cell_at b' c r = Some x' ∧
    (is_revealed (state x) = true → is_revealed (state x') = true) ∧
    (mines_placed b = true →
       is_mine (state x') = is_mine (state x) ∧
       adjacent (state x') = adjacent (state x)).
Proof.
  intros Hev [Hin Hx]%cell_at_Some.
  destruct (ev_cells _ _ Hev _ x Hx) as (x' & Hx' & _ & _ & Hrev & Hm).
  exists x'. split; [|done]. apply cell_at_Some.
  by rewrite (evolves_is_inbounds b b'), (evolves_slot b b').
Qed.

(** A mine (or an open cell) can only be found once the mines are placed. *)
Lemma mine_placed (b : Board) (c r : Z) (x : Cell) :
  core_inv b → cell_at b c r = Some x →
  is_mine (state x) = true ∨ is_revealed (state x) = true →
  mines_placed b = true.
Proof.
  intros Hinv [_ Hx]%cell_at_Some Hmr.
  destruct (mines_placed b) eqn:Hp; [done|].
  destruct (inv_fresh _ Hinv Hp) as (Hclean & _).
  destruct (Hclean x (list_elem_of_lookup_2 _ _ _ Hx)) as [? ?].
  destruct Hmr; congruence.
Qed.

Lemma reveal_guarded (depth : nat) (b : Board) (c r : Z) (x : Cell) :
  core_inv b → mines_placed b = true → cell_at b c r = Some x →
  is_revealed (state x) || is_flagged (state x) = true →
  reveal (S depth) b c r = Ret b.
Proof.
  intros Hinv Hp [Hin Hx]%cell_at_Some Hguard.
  destruct (getitem_inbounds b (cells b) c r (inv_sized _ Hinv) Hin) as (y & Hy & Hg).
  assert (y = x) as -> by congruence.
  rewrite reveal_S, Hin, Hp. simpl. rewrite Hg. simpl. by rewrite Hguard.
Qed.

Lemma reveal_mine (depth : nat) (b : Board) (c r : Z) (x : Cell) :
  sized b (cells b) → mines_placed b = true → cell_at b c r = Some x →
  is_revealed (state x) = false → is_flagged (state x) = false →
  is_mine (state x) = true →
  reveal (S depth) b c r =
  Ret (reveal_all_mines (set_game_over true (open_cell (slot b c r) x b))).
Proof.
  intros Hs Hp [Hin Hx]%cell_at_Some Hrev Hflag Hm.
  destruct (getitem_inbounds b (cells b) c r Hs Hin) as (y & Hy & Hg).
  assert (y = x) as -> by congruence.
  rewrite reveal_S, Hin, Hp. simpl. rewrite Hg. simpl. by rewrite Hrev, Hflag, Hm.
Qed.

(** ** The specification, claim by claim *)

(** C3 (mine placement with first-click safety).  On a board built with
    a mine count [0 <= mines <= cols*rows - 9], the first in-bounds
    [reveal(c, r)] returns (given enough call depth for the flood fill),
    and afterwards the mines are placed, exactly [mines] cells are
    mines, and neither [(c, r)] nor any of its in-bounds neighbours is
    one.  The neighbours are named twice: as the entries of
    [neighbors], and by their coordinates, as every cell of the board
    whose column and row differ from [c] and [r] by at most 1. *)
Theorem first_reveal_places_mines
    (ncols nrows mines : Z) (b : Board) (c r : Z) (depth : nat) :
  valid_config ncols nrows mines →
  reachable ncols nrows mines b →
  mines_placed b = false →
  is_inbounds b c r = true →
  (length (cells b) < depth)%nat →
  ∃ b', reveal depth b c r = Ret b' ∧
    mines_placed b' = true ∧
    Z.of_nat (count_cells is_mine (cells b')) = mines ∧
    mine_free b' (c, r) ∧
    (∀ n, In n (neighbors b' c r) → mine_free b' n) ∧
    ∀ n, is_inbounds b' n.1 n.2 = true →
      -1 ≤ n.1 - c ≤ 1 → -1 ≤ n.2 - r ≤ 1 → mine_free b' n.
Proof using shuffle_perm.
  intros Hcfg Hreach Hp Hin Hd.
  destruct (reachable_inv _ _ _ b Hcfg Hreach) as ([Hinv _] & _ & _ & Hnm).
  destruct depth as [|depth]; [lia|].
  destruct (reveal_total (S depth) b c r Hinv) as [b' Hrun].
  { unfold closed_cells. lia. }
  destruct (reveal_fresh depth b c r Hinv Hp Hin)
    as (b1 & _ & Heq & Hinv1 & [Hev1 _] & Hp1 & _ & _ & _ & _ & Hzone).
  rewrite Heq in Hrun.
  destruct (reveal_inv _ b1 c r b' Hinv1 Hrun) as [Hinv' [Hev' _]].
  pose proof (ev_placed _ _ Hev' Hp1) as Hp'.
  assert (∀ p, p = (c, r) ∨ In p (neighbors b c r) → mine_free b' p) as Hfree.
  { intros p Hp0.
    assert (is_inbounds b1 p.1 p.2 = true) as Hpin.
    { rewrite (evolves_is_inbounds b b1 _ _ Hev1).
      destruct Hp0 as [->|Hn]; [done | by eapply neighbors_inbounds]. }
    destruct (cell_at_inbounds b1 p.1 p.2 (inv_sized _ Hinv1) Hpin) as [x1 Hx1].
    destruct (cell_at_evolves b1 b' _ _ x1 Hev' Hx1) as (x' & Hx' & _ & Hm).
    exists x'. split; [done|]. destruct (Hm Hp1) as [-> _]. by eapply Hzone. }
  assert (∀ n, In n (neighbors b' c r) → mine_free b' n) as Hnb.
  { intros n Hn. apply Hfree. right.
    by rewrite <- (evolves_neighbors b b1 c r Hev1), <- (evolves_neighbors b1 b' c r Hev'). }
  exists b'. rewrite Heq.
  split; [done|]. split; [done|]. split; [|split; [by apply Hfree; left|split; [done|]]].
  - destruct (inv_mines _ Hinv' Hp') as [-> _].
    rewrite (ev_num_mines _ _ Hev'), (ev_num_mines _ _ Hev1). done.
  - intros n Hnin Hnc Hnr.
    destruct (decide (n = (c, r))) as [->|Hne]; [by apply Hfree; left|].
    apply Hnb, neighbors_near. done.
Qed.

(** C4, amended (revealedCount accounting).  On every reachable board
    whose [game_over] flag is unset, [revealed_count] equals the number
    of cells with [is_revealed] set. *)
Theorem revealed_count_in_play (ncols nrows mines : Z) (b : Board) :
  valid_config ncols nrows mines →
  reachable ncols nrows mines b →
  game_over b = false →
  revealed_count b = Z.of_nat (count_cells is_revealed (cells b)).
Proof using shuffle_perm.
  intros Hcfg Hreach Hgo.
  destruct (reachable_inv _ _ _ b Hcfg Hreach) as ([Hinv _] & _).
  by destruct (inv_count _ Hinv Hgo).
Qed.

(** C7 (win condition).  Whenever a [reveal] on a reachable board
    returns with [revealed_count == cols*rows - num_mines] and
    [game_over] unset, [win] is set and every cell that is not a mine is
    revealed. *)
Theorem win_condition
    (ncols nrows mines : Z) (b : Board) (c r : Z) (depth : nat) (b' : Board) :
  valid_config ncols nrows mines →
  reachable ncols nrows mines b →
  reveal depth b c r = Ret b' →
  revealed_count b' = cols b' * rows b' - num_mines b' →
  game_over b' = false →
  win b' = true ∧
  ∀ x, x ∈ cells b' → is_mine (state x) = false → is_revealed (state x) = true.
Proof using shuffle_perm.
  intros Hcfg Hreach Hrun Hc Hgo.
  assert (reachable ncols nrows mines b') as Hreach'.
  { eapply rtc_r; [exact Hreach|]. by eapply step_reveal. }
  destruct (reachable_inv _ _ _ b' Hcfg Hreach') as ([Hinv Hws] & _).
  split; [by apply Hws|].
  destruct (all_safe_revealed b' Hinv Hgo Hc) as [_ Hall].
  intros x Hx Hm. specialize (Hall x Hx). rewrite Hm in Hall.
  by destruct (is_revealed (state x)).
Qed.

(** C2, amended (reveal no-op contract).  On every reachable board,
    [reveal(c, r)] returns the board unchanged when [(c, r)] is out of
    bounds, when the target cell is already revealed, and when the
    target cell is flagged and the mines have been placed.  On a flagged
    target before the mines are placed the call is exactly the mine
    placement: it sets [_mines_placed] and the mine layout and leaves
    every reveal and flag state and every counter and flag of the board
    as it was. *)
Theorem reveal_noop
    (ncols nrows mines : Z) (b : Board) (c r : Z) (depth : nat) :
  valid_config ncols nrows mines →
  reachable ncols nrows mines b →
  (is_inbounds b c r = false → reveal (S depth) b c r = Ret b) ∧
  (∀ x, cell_at b c r = Some x → is_revealed (state x) = true →
     reveal (S depth) b c r = Ret b) ∧
  (∀ x, cell_at b c r = Some x → is_flagged (state x) = true →
     mines_placed b = true → reveal (S depth) b c r = Ret b) ∧
  (∀ x, cell_at b c r = Some x → is_flagged (state x) = true →
     mines_placed b = false →
     ∃ b', reveal (S depth) b c r = Ret b' ∧ place_mines b c r = Ret b' ∧
       mines_placed b' = true ∧
       revealed_count b' = revealed_count b ∧
       game_over b' = game_over b ∧ win b' = win b ∧
       ∀ k y, cells b !! k = Some y →
         ∃ y', cells b' !! k = Some y' ∧
           is_revealed (state y') = is_revealed (state y) ∧
           is_flagged (state y') = is_flagged (state y)).
Proof using shuffle_perm.
  intros Hcfg Hreach.
  destruct (reachable_inv _ _ _ b Hcfg Hreach) as ([Hinv Hws] & _).
  split_and!.
  - intros Hin. by rewrite reveal_S, Hin.
  - intros x Hc Hrev.
    apply (reveal_guarded depth b c r x); [done | | done | by rewrite Hrev].
    eapply mine_placed; [done | exact Hc | by right].
  - intros x Hc Hflag Hp.
    apply (reveal_guarded depth b c r x); [done | done | done |].
    rewrite Hflag. apply orb_true_r.
  - intros x Hc Hflag Hp. pose proof Hc as [Hin Hx]%cell_at_Some.
    destruct (reveal_fresh depth b c r Hinv Hp Hin)
      as (b1 & Hpm & Heq & Hinv1 & [Hev1 Hfl1] & Hp1 & Hrc1 & Hgo1 & Hw1 & Hrevs & _).
    destruct (inv_fresh _ Hinv Hp) as (_ & Hrc & Hgo & Hw).
    destruct (ev_cells _ _ Hev1 _ x Hx) as (x1 & Hx1 & _).
    exists b1. split_and!; try congruence.
    + rewrite Heq. apply (reveal_guarded depth b1 c r x1); [done | done | |].
      * apply cell_at_Some.
        by rewrite (evolves_is_inbounds b b1), (evolves_slot b b1).
      * rewrite (Hfl1 _ x x1 Hx Hx1), Hflag. apply orb_true_r.
    + intros k y Hy. destruct (ev_cells _ _ Hev1 _ y Hy) as (y1 & Hy1 & _).
      exists y1. split_and!; [done | by eapply Hrevs | by eapply Hfl1].
Qed.

Lemma flip_flag_twice (k : nat) (x : Cell) (b : Board) :
  cells b !! k = Some x →
  flip_flag k (set_is_flagged (negb (is_flagged (state x))) x) (flip_flag k x b) = b.
Proof.
  intros Hx. unfold flip_flag. simpl. rewrite negb_involutive.
  rewrite list_insert_insert_eq.
  assert (set_is_flagged (is_flagged (state x))
            (set_is_flagged (negb (is_flagged (state x))) x) = x) as ->
    by (by destruct x as [? ? []]).
  rewrite list_insert_id by done. by destruct b.
Qed.

(** C9 (flag toggling).  On every reachable board [toggle_flag(c, r)]
    returns the board unchanged when [(c, r)] is out of bounds or the
    target cell is revealed.  Otherwise it returns the board in which
    the flag of the target cell is inverted and nothing else differs:
    the counters and flags of the board, the mine layout and every
    other cell are the same.  Toggling the same closed cell twice gives
    back the original board, hence the original flag and
    [flagged_count]. *)
Theorem toggle_flag_contract (ncols nrows mines : Z) (b : Board) (c r : Z) :
  valid_config ncols nrows mines →
  reachable ncols nrows mines b →
  (is_inbounds b c r = false → toggle_flag b c r = Ret b) ∧
  (∀ x, cell_at b c r = Some x → is_revealed (state x) = true →
     toggle_flag b c r = Ret b) ∧
  (∀ x, cell_at b c r = Some x → is_revealed (state x) = false →
     ∃ b', toggle_flag b c r = Ret b' ∧
       cells b' !! slot b c r =
         Some (set_is_flagged (negb (is_flagged (state x))) x) ∧
       (∀ j, j ≠ slot b c r → cells b' !! j = cells b !! j) ∧
       length (cells b') = length (cells b) ∧
       revealed_count b' = revealed_count b ∧
       game_over b' = game_over b ∧ win b' = win b ∧
       mines_placed b' = mines_placed b ∧
       cols b' = cols b ∧ rows b' = rows b ∧ num_mines b' = num_mines b ∧
       ∃ b'', toggle_flag b' c r = Ret b'' ∧ b'' = b ∧
         flagged_count b'' = flagged_count b).
Proof using shuffle_perm.
  intros Hcfg Hreach.
  destruct (reachable_inv _ _ _ b Hcfg Hreach) as (Hb & _).
  pose proof (toggle_flag_spec b c r Hb) as Hspec.
  split_and!.
  - intros Hin. rewrite Hspec. unfold cell_at. by rewrite Hin.
  - intros x Hc Hrev. by rewrite Hspec, Hc, Hrev.
  - intros x Hc Hrev. rewrite Hc, Hrev in Hspec.
    apply cell_at_Some in Hc as [Hin Hx].
    exists (flip_flag (slot b c r) x b). split; [done|]. simpl.
    split_and!; try done.
    + apply list_lookup_insert_eq. by eapply lookup_lt_Some.
    + intros j Hj. by rewrite list_lookup_insert_ne.
    + by rewrite length_insert.
    + destruct (toggle_flag_inv b _ c r Hb Hspec) as [Hb' _].
      exists b. split; [|done].
      rewrite (toggle_flag_spec _ c r Hb'). f_equal.
      assert (cell_at (flip_flag (slot b c r) x b) c r =
              Some (set_is_flagged (negb (is_flagged (state x))) x)) as ->.
      { apply cell_at_Some. split; [done|]. simpl.
        apply list_lookup_insert_eq. by eapply lookup_lt_Some. }
      simpl. rewrite Hrev. by apply flip_flag_twice.
Qed.

(** C1, amended (terminal state).  Across every call on a reachable
    board: [game_over], once set, stays set, and [win] keeps the value it
    had when [game_over] was set; [win], once set, stays set; and once
    either flag is set no call changes the [is_mine] or [adjacent] value
    of any cell. *)
Theorem terminal_state (ncols nrows mines : Z) (b b' : Board) :
  valid_config ncols nrows mines →
  reachable ncols nrows mines b →
  step b b' →
  (game_over b = true → game_over b' = true ∧ win b' = win b) ∧
  (win b = true → win b' = true) ∧
  (game_over b = true ∨ win b = true →
   ∀ k x, cells b !! k = Some x →
     ∃ x', cells b' !! k = Some x' ∧
       is_mine (state x') = is_mine (state x) ∧
       adjacent (state x') = adjacent (state x)).
Proof using shuffle_perm.
  intros Hcfg Hreach Hstep.
  destruct (reachable_inv _ _ _ b Hcfg Hreach) as (Hb & _).
  destruct (step_inv b b' Hb Hstep) as [_ Hev].
  split_and!.
  - intros Hgo. split; [by apply (ev_game_over _ _ Hev) | by apply (ev_lost _ _ Hev)].
  - apply (ev_win _ _ Hev).
  - intros Hterm k x Hx.
    assert (mines_placed b = true) as Hp.
    { destruct (mines_placed b) eqn:Hp; [done|].
      destruct (inv_fresh _ (proj1 Hb) Hp) as (_ & _ & Hgo & Hw).
      destruct Hterm; congruence. }
    destruct (ev_cells _ _ Hev k x Hx) as (x' & Hx' & _ & _ & _ & Hm).
    exists x'. split; [done|]. by apply Hm.
Qed.

(** *** Adjacency counts, for every configuration *)

Lemma getitem_Ret (l : list Cell) (i : Z) (k : nat) (x : Cell) :
  getitem l i = Ret (k, x) → l !! k = Some x.
Proof.
  unfold getitem. destruct (py_slot (length l) i) as [k'|]; [|done].
  destruct (l !! k') as [y|] eqn:Hy; [|done]. by intros [= <- <-].
Qed.

Lemma check_win_evolves (b : Board) :
  evolves b (check_win b) ∧ mines_placed (check_win b) = mines_placed b ∧
  ∀ x', x' ∈ cells (check_win b) →
    ∃ x, x ∈ cells b ∧ is_mine (state x') = is_mine (state x).
Proof.
  unfold check_win.
  destruct (Z.eqb_spec (revealed_count b) (cols b * rows b - num_mines b)) as [_|_];
    [|split_and!; [apply evolves_refl | done | by eauto]].
  destruct (game_over b) eqn:Hgo; [split_and!; [apply evolves_refl | done | by eauto]|].
  simpl. split_and!; [|done|].
  - split; simpl; try done.
    + by rewrite length_fmap.
    + intros k x Hx. rewrite list_lookup_fmap, Hx. simpl. eexists. split; [done|].
      destruct (negb (is_revealed (state x)) && negb (is_mine (state x)));
        simpl; split_and!; auto.
    + congruence.
  - intros x' (x & -> & Hx)%list_elem_of_fmap. exists x. split; [done|].
    by destruct (negb (is_revealed (state x)) && negb (is_mine (state x))).
Qed.

Lemma layout_inv_evolves (b b' : Board) :
  layout_inv b → evolves b b' → mines_placed b = true → layout_inv b'.
Proof.
  intros (Hs & Hadj & _) Hev Hp. split_and!; [by eapply evolves_sized | |].
  - intros _. eapply evolves_adjacency_ok; eauto.
  - intros Hp'. rewrite (ev_placed _ _ Hev Hp) in Hp'. done.
Qed.

Lemma place_mines_layout (b b1 : Board) (c r : Z) :
  sized b (cells b) → mines_placed b = false → place_mines b c r = Ret b1 →
  layout_inv b1 ∧ evolves b b1 ∧ mines_placed b1 = true.
Proof using shuffle_perm.
  intros Hs Hp Hrun.
  destruct (place_mines_spec b c r Hs) as (l2 & Hrun' & Hs2 & Hpt & Hadj).
  rewrite Hrun' in Hrun. injection Hrun as <-.
  split_and!; [by split_and! | | done].
  split; simpl; try done; try congruence.
  intros k x Hx. destruct (Hpt k x Hx) as (x' & Hx' & Hc' & Hr' & Hrev' & _).
  exists x'. split_and!; try done; congruence.
Qed.

Lemma reveal_layout (depth : nat) :
  ∀ b c r b', layout_inv b → reveal depth b c r = Ret b' →
    layout_inv b' ∧ evolves b b'.
Proof using shuffle_perm.
  induction depth as [|depth IH]; intros b c r b' Hl Hrun; [done|].
  rewrite reveal_S in Hrun.
  destruct (is_inbounds b c r) eqn:Hin; simpl in Hrun.
  2:{ injection Hrun as <-. split; [done | apply evolves_refl]. }
  inv_bind_as Hrun b1 Hb1.
  assert (layout_inv b1 ∧ evolves b b1 ∧ mines_placed b1 = true) as (Hl1 & Hev1 & Hp1).
  { destruct (mines_placed b) eqn:Hp; simpl in Hb1.
    - injection Hb1 as <-. split_and!; [done | apply evolves_refl | done].
    - by apply (place_mines_layout b b1 c r (proj1 Hl)). }
  inv_bind_as Hrun kx Hx. destruct kx as [k x]. apply getitem_Ret in Hx. simpl in Hrun.
  assert (∀ b2, evolves b1 b2 → layout_inv b2 ∧ evolves b b2) as Hdone.
  { intros b2 Hev2. split; [by eapply layout_inv_evolves | by eapply evolves_trans]. }
  destruct (is_revealed (state x) || is_flagged (state x)).
  { assert (b' = b1) as -> by congruence. apply Hdone, evolves_refl. }
  pose proof (proj1 (open_cell_kept k x b1 Hx)) as Hev2.
  destruct (is_mine (state x)).
  { injection Hrun as <-. apply Hdone.
    eapply evolves_trans; [exact Hev2 | apply lose_kept]. }
  inv_bind_as Hrun b3 Hb3. injection Hrun as <-.
  assert (evolves (open_cell k x b1) b3) as Hev3.
  { destruct (adjacent (state x) =? 0); [|injection Hb3 as <-; apply evolves_refl].
    eapply (for_each_rel _ (λ s, layout_inv s ∧ mines_placed s = true) evolves);
      [| | | | exact Hb3].
    - intros s _. apply evolves_refl.
    - apply evolves_trans.
    - intros s n s' _ [Hs Hps] Hbody.
      destruct (IH s n.1 n.2 s' Hs Hbody) as [Hs' Hevs].
      split; [split; [done | by apply (ev_placed _ _ Hevs)] | done].
    - split; [by eapply layout_inv_evolves | done]. }
  apply Hdone. eapply evolves_trans; [exact Hev2|].
  eapply evolves_trans; [exact Hev3 | apply check_win_evolves].
Qed.

Lemma toggle_flag_layout (b b' : Board) (c r : Z) :
  layout_inv b → toggle_flag b c r = Ret b' → layout_inv b' ∧ evolves b b'.
Proof.
  intros Hl Hrun. unfold toggle_flag in Hrun.
  destruct (is_inbounds b c r); simpl in Hrun;
    [|injection Hrun as <-; split; [done | apply evolves_refl]].
  inv_bind Hrun. destruct a as [k x]. apply getitem_Ret in Ha. simpl in Hrun.
  destruct (is_revealed (state x));
    [injection Hrun as <-; split; [done | apply evolves_refl]|].
  injection Hrun as <-. fold (flip_flag k x b).
  destruct (check_win_evolves (flip_flag k x b)) as (Hevw & Hpw & Hmw).
  pose proof (evolves_trans _ _ _ (flip_flag_evolves k x b Ha) Hevw) as Hev.
  destruct Hl as (Hs & Hadj & Hclean).
  split; [|done]. split_and!; [by eapply evolves_sized | |].
  - rewrite Hpw. simpl. intros Hp. eapply evolves_adjacency_ok; [done | done |].
    by apply Hadj.
  - rewrite Hpw. simpl. intros Hp y' Hy'.
    destruct (Hmw y' Hy') as (y & [j Hy]%list_elem_of_lookup & ->).
    destruct (flip_flag_lookup k x b j y Ha Hy) as (z & Hz & _ & ->).
    apply (Hclean Hp). by eapply list_elem_of_lookup_2.
Qed.

Lemma step_layout (b b' : Board) :
  layout_inv b → step b b' → layout_inv b' ∧ evolves b b'.
Proof using shuffle_perm.
  intros H0 Hstep. destruct Hstep as [depth b c r b' Hrun | b c r b' Hrun].
  - by apply (reveal_layout depth b c r b').
  - by apply (toggle_flag_layout b b' c r).
Qed.

Lemma steps_layout (b b' : Board) :
  layout_inv b → rtc step b b' → layout_inv b' ∧ evolves b b'.
Proof using shuffle_perm.
  intros H0 Hsteps. induction Hsteps as [b|b1 b2 b3 H12 _ IH].
  - split; [done | apply evolves_refl].
  - destruct (step_layout b1 b2 H0 H12) as [H2 Hev12].
    destruct (IH H2) as [H3 Hev23]. split; [done | by eapply evolves_trans].
Qed.

Lemma reachable_layout (ncols nrows mines : Z) (b : Board) :
  reachable ncols nrows mines b → layout_inv b.
Proof using shuffle_perm.
  intros Hreach. eapply steps_layout; [|exact Hreach].
  split_and!; [apply new_board_sized | done |].
  by intros _ x (c & r & _ & _ & ->)%grid_elem_of.
Qed.

(** *** The count of [place_mines] against the count over the board *)

Lemma fmap_grid {A B : Type} (f : A → B) (g : Z → Z → A) (ncols nrows : Z) :
  f <$> grid g ncols nrows = grid (λ c r, f (g c r)) ncols nrows.
Proof.
  unfold grid. induction (py_range nrows) as [|r l IH]; [done|]. simpl.
  rewrite fmap_app, IH. f_equal.
  exact (map_map (λ c, g c r) f (py_range ncols)).
Qed.

(** On a reachable board the cell in slot [k] carries the coordinates
    of slot [k]. *)
Lemma reachable_coords (ncols nrows mines : Z) (b : Board) :
  reachable ncols nrows mines b →
  (λ x, (col x, row x)) <$> cells b = grid (λ c r, (c, r)) (cols b) (rows b).
Proof using shuffle_perm.
  intros Hreach.
  assert (layout_inv (new_board ncols nrows mines)) as H0
    by (apply (reachable_layout ncols nrows mines); apply rtc_refl).
  destruct (steps_layout _ b H0 Hreach) as [_ Hev].
  rewrite (ev_cols _ _ Hev), (ev_rows _ _ Hev). simpl.
  rewrite <- (fmap_grid (λ x, (col x, row x)) new_cell).
  apply list_eq. intros k. rewrite !list_lookup_fmap.
  destruct (grid new_cell ncols nrows !! k) as [x0|] eqn:Hx0; simpl.
  - destruct (ev_cells _ _ Hev k x0 Hx0) as (x & Hx & Hc & Hr & _).
    rewrite Hx. simpl. by rewrite Hc, Hr.
  - rewrite (lookup_ge_None_2 (cells b) k); [done|].
    rewrite (ev_length _ _ Hev). simpl. by apply lookup_ge_None_1.
Qed.

Lemma filter_fmap_length {A B : Type} (f : B → bool) (g : A → B) (l : list A) :
  length (List.filter f (g <$> l)) = length (List.filter (λ a, f (g a)) l).
Proof.
  induction l as [|a l IH]; [done|]. rewrite fmap_cons. cbn [List.filter].
  destruct (f (g a)); cbn [length]; by rewrite IH.
Qed.

Lemma near_spec (c r : Z) (p : pos) :
  near c r p = true ↔ p ≠ (c, r) ∧ -1 ≤ p.1 - c ≤ 1 ∧ -1 ≤ p.2 - r ≤ 1.
Proof.
  unfold near. destruct p as [pc pr]. simpl. split.
  - intros [[Hc Hr]%andb_true_iff Hne%negb_true_iff]%andb_true_iff.
    split; [|lia]. intros [= -> ->]. rewrite !Z.eqb_refl in Hne. done.
  - intros (Hne & Hc & Hr). apply andb_true_iff. split; [lia|].
    apply negb_true_iff, andb_false_iff.
    destruct (Z.eqb_spec pc c) as [->|]; [|by left].
    destruct (Z.eqb_spec pr r) as [->|]; [done | by right].
Qed.

(** With one cell per coordinate pair, each at its own slot, counting
    the mines over the list [neighbors] and counting the mines of the
    board that lie next to [(c, r)] give the same number. *)
Lemma mines_around_beside (b : Board) (c r : Z) :
  (λ x, (col x, row x)) <$> cells b = grid (λ c r, (c, r)) (cols b) (rows b) →
  mines_around b (cells b) c r = mines_beside b c r.
Proof.
  intros Hcoord. unfold mines_around, mines_beside. f_equal.
  pose proof (grid_pair_NoDup (cols b) (rows b)) as Hnd.
  trans (length (List.filter (λ p, mine_at b (cells b) p && near c r p)
                   (grid (λ c r, (c, r)) (cols b) (rows b)))).
  - apply Permutation_length, NoDup_Permutation.
    + apply List.NoDup_filter, neighbors_NoDup.
    + apply List.NoDup_filter, (proj1 (NoDup_ListNoDup _)), Hnd.
    + intros q. rewrite !filter_In, neighbors_near,
        <- list_elem_of_In, grid_pair_inbounds, andb_true_iff, near_spec.
      tauto.
  - rewrite <- Hcoord, filter_fmap_length. f_equal.
    apply List.filter_ext_in. intros y [k Hy]%list_elem_of_In%list_elem_of_lookup.
    f_equal. unfold mine_at, index. simpl.
    assert (((λ x, (col x, row x)) <$> cells b) !! k = Some (col y, row y)) as Hk
      by (by rewrite list_lookup_fmap, Hy).
    rewrite Hcoord in Hk.
    assert (is_inbounds b (col y) (row y) = true) as [Hc Hr]%is_inbounds_spec.
    { apply (grid_pair_inbounds b (col y, row y)). by eapply list_elem_of_lookup_2. }
    pose proof (grid_lookup (λ c r, (c, r)) (cols b) (rows b) (col y) (row y) Hc Hr)
      as Hslot.
    rewrite <- (NoDup_lookup _ _ _ _ Hnd Hk Hslot). by rewrite Hy.
Qed.

(** C5 (adjacency correctness).  On every board reachable from any
    constructor call, once the mines are placed every cell that is not
    a mine has [adjacent] equal to the number of its in-bounds
    neighbours that are mines.  That number is given twice: recounted
    over the list [neighbors] ([mines_around]), and counted over the
    cells of the board by their coordinates ([mines_beside]: the mines
    whose column and row differ from those of the cell by at most 1);
    it lies between 0 and 8. *)
Theorem adjacency_correct (ncols nrows mines : Z) (b : Board) :
  reachable ncols nrows mines b →
  mines_placed b = true →
  ∀ c r x, cell_at b c r = Some x → is_mine (state x) = false →
    adjacent (state x) = mines_around b (cells b) c r ∧
    adjacent (state x) = mines_beside b c r ∧
    0 ≤ adjacent (state x) ≤ 8.
Proof using shuffle_perm.
  intros Hreach Hp c r x Hx Hm.
  destruct (reachable_layout _ _ _ b Hreach) as (_ & Hok & _).
  pose proof (Hok Hp c r x Hx Hm) as Hadj.
  split; [done|]. split.
  - rewrite Hadj. apply mines_around_beside. by eapply reachable_coords.
  - rewrite Hadj. unfold mines_around.
    pose proof (List.filter_length_le (mine_at b (cells b)) (neighbors b c r)).
    pose proof (neighbors_length b c r). lia.
Qed.

(** C6 (loss condition).  On a reachable board with the mines placed
    and neither [game_over] nor [win] set, [reveal] on a closed,
    unflagged mine returns the board in which that cell is opened and
    counted, [game_over] is set and the mine sweep has run: every mine is
    revealed, no other cell is touched (no flood fill), [win] is not
    examined and stays unset, also after any further calls. *)
Theorem loss_condition
    (ncols nrows mines : Z) (b : Board) (c r : Z) (x : Cell) (depth : nat) :
  reachable ncols nrows mines b →
  mines_placed b = true → game_over b = false → win b = false →
  cell_at b c r = Some x →
  is_revealed (state x) = false → is_flagged (state x) = false →
  is_mine (state x) = true →
  ∃ b', reveal (S depth) b c r = Ret b' ∧
    b' = reveal_all_mines (set_game_over true (open_cell (slot b c r) x b)) ∧
    game_over b' = true ∧ win b' = false ∧
    revealed_count b' = revealed_count b + 1 ∧
    (∀ y, y ∈ cells b' → is_mine (state y) = true → is_revealed (state y) = true) ∧
    (∀ k y, cells b !! k = Some y → is_mine (state y) = false →
       cells b' !! k = Some y) ∧
    (∀ b'', rtc step b' b'' → game_over b'' = true ∧ win b'' = false).
Proof using shuffle_perm.
  intros Hreach Hp Hgo Hwin Hc Hrev Hflag Hm.
  pose proof (reachable_layout _ _ _ b Hreach) as Hl.
  pose proof (reveal_mine depth b c r x (proj1 Hl) Hp Hc Hrev Hflag Hm) as Hrun.
  eexists. split; [exact Hrun|]. split; [done|].
  apply cell_at_Some in Hc as [Hin Hx].
  split_and!; try done.
  - intros y. simpl. intros (z & -> & Hz)%list_elem_of_fmap.
    destruct (is_mine (state z)) eqn:Hmz; simpl; congruence.
  - intros k y Hy Hmy. simpl. rewrite list_lookup_fmap.
    destruct (decide (k = slot b c r)) as [->|Hne]; [congruence|].
    rewrite list_lookup_insert_ne, Hy by done. simpl. by rewrite Hmy.
  - intros b'' Hsteps.
    destruct (reveal_layout _ b c r _ Hl Hrun) as [Hl' _].
    destruct (steps_layout _ b'' Hl' Hsteps) as [_ Hev].
    split; [by apply (ev_game_over _ _ Hev)|].
    by rewrite (ev_lost _ _ Hev).
Qed.

(** C10 (flags survive the loss sweep).  When [reveal] hits a closed,
    unflagged mine on a reachable board, the call sets [game_over] and
    leaves the flag of every cell as it was, while every mine ends up
    revealed; a mine that was flagged is therefore revealed and flagged
    at once. *)
Theorem flags_survive_loss
    (ncols nrows mines : Z) (b : Board) (c r : Z) (x : Cell) (depth : nat) :
  reachable ncols nrows mines b →
  cell_at b c r = Some x →
  is_revealed (state x) = false → is_flagged (state x) = false →
  is_mine (state x) = true →
  ∃ b', reveal (S depth) b c r = Ret b' ∧ game_over b' = true ∧
    ∀ k y, cells b !! k = Some y →
      ∃ y', cells b' !! k = Some y' ∧
        is_flagged (state y') = is_flagged (state y) ∧
        (is_mine (state y) = true → is_revealed (state y') = true) ∧
        (is_mine (state y) = true → is_flagged (state y) = true →
           is_revealed (state y') = true ∧ is_flagged (state y') = true).
Proof using shuffle_perm.
  intros Hreach Hc Hrev Hflag Hm.
  destruct (reachable_layout _ _ _ b Hreach) as (Hs & _ & Hclean).
  pose proof Hc as [Hin Hx]%cell_at_Some.
  assert (mines_placed b = true) as Hp.
  { destruct (mines_placed b) eqn:Hp; [done|].
    rewrite (Hclean eq_refl x (list_elem_of_lookup_2 _ _ _ Hx)) in Hm. done. }
  pose proof (reveal_mine depth b c r x Hs Hp Hc Hrev Hflag Hm) as Hrun.
  eexists. split; [exact Hrun|]. split; [done|].
  intros k y Hy. simpl. rewrite list_lookup_fmap.
  destruct (decide (k = slot b c r)) as [->|Hne].
  - assert (y = x) as -> by congruence.
    rewrite list_lookup_insert_eq by (by eapply lookup_lt_Some). simpl.
    eexists. split; [done|]. rewrite Hm. simpl. split_and!; done.
  - rewrite list_lookup_insert_ne, Hy by done. simpl.
    eexists. split; [done|].
    destruct (is_mine (state y)) eqn:Hmy; simpl; split_and!; done.
Qed.

(** ** Flood fill *)

(** A loop lemma that also keeps what each iteration establishes. *)
Lemma for_each_post {S X : Type} (body : S → X → res S)
    (P : S → Prop) (R : S → S → Prop) (Q : X → S → Prop) (xs : list X) :
  (∀ s, P s → R s s) →
  (∀ s1 s2 s3, R s1 s2 → R s2 s3 → R s1 s3) →
  (∀ x s s', Q x s → R s s' → Q x s') →
  (∀ s x s', x ∈ xs → P s → body s x = Ret s' → P s' ∧ R s s' ∧ Q x s') →
  ∀ s s', P s → for_each body xs s = Ret s' →
    P s' ∧ R s s' ∧ ∀ x, x ∈ xs → Q x s'.
Proof.
  intros Hrefl Htrans Hmono. induction xs as [|x xs IH]; intros Hbody s s' HP Hrun.
  - simpl in Hrun. injection Hrun as <-. split_and!; auto.
    intros x Hx. by apply elem_of_nil in Hx.
  - simpl in Hrun. inv_bind Hrun.
    destruct (Hbody s x a) as (HPa & HRa & HQa); [left | done | done |].
    destruct (IH (λ s0 y s0' Hy, Hbody s0 y s0' (list_elem_of_further _ _ _ Hy)) a s')
      as (HP' & HR' & HQ'); [done | done |].
    split_and!; [done | by eapply Htrans |].
    intros y [->|Hy]%elem_of_cons; [by eapply Hmono | by apply HQ'].
Qed.

Lemma cell_ext (x y : Cell) :
  col x = col y → row x = row y →
  is_mine (state x) = is_mine (state y) →
  is_revealed (state x) = is_revealed (state y) →
  is_flagged (state x) = is_flagged (state y) →
  adjacent (state x) = adjacent (state y) →
  x = y.
Proof.
  destruct x as [? ? []], y as [? ? []]. simpl. by intros -> -> -> -> -> ->.
Qed.

(** How a cell looks after calls that keep flags and layout. *)
Lemma kept_cell_at (b b' : Board) (p : pos) (x : Cell) :
  kept b b' → mines_placed b = true → cell_at b p.1 p.2 = Some x →
  ∃ v, cell_at b' p.1 p.2 = Some (set_is_revealed v x) ∧
    (is_revealed (state x) = true → v = true).
Proof.
  intros [Hev Hfl] Hp [Hin Hx]%cell_at_Some.
  destruct (ev_cells _ _ Hev _ x Hx) as (x' & Hx' & Hc & Hr & Hrev & Hm).
  destruct (Hm Hp) as [Hm1 Hm2].
  exists (is_revealed (state x')). split; [|done].
  apply cell_at_Some. rewrite (evolves_is_inbounds b b'), (evolves_slot b b') by done.
  split; [done|]. rewrite Hx'. f_equal.
  apply cell_ext; simpl; try done. by apply (Hfl _ x x' Hx Hx').
Qed.

Lemma kept_cell_at_back (b b' : Board) (p : pos) (x' : Cell) :
  kept b b' → mines_placed b = true → cell_at b' p.1 p.2 = Some x' →
  ∃ x, cell_at b p.1 p.2 = Some x ∧
    x' = set_is_revealed (is_revealed (state x')) x ∧
    (is_revealed (state x) = true → is_revealed (state x') = true).
Proof.
  intros Hk Hp Hx'. pose proof Hk as [Hev _].
  pose proof Hx' as [Hin Hl]%cell_at_Some.
  rewrite (evolves_is_inbounds b b'), (evolves_slot b b') in * by done.
  destruct (lookup_lt_is_Some_2 (cells b) (slot b p.1 p.2)) as [x Hx].
  { rewrite <- (ev_length _ _ Hev). by eapply lookup_lt_Some. }
  assert (cell_at b p.1 p.2 = Some x) as Hc by (by apply cell_at_Some).
  destruct (kept_cell_at b b' p x Hk Hp Hc) as (v & Hv & Hmono).
  assert (x' = set_is_revealed v x) as -> by congruence.
  exists x. done.
Qed.

Lemma revealed_at_kept (b b' : Board) (p : pos) :
  kept b b' → mines_placed b = true → revealed_at b p → revealed_at b' p.
Proof.
  intros Hk Hp (x & Hx & Hrev).
  destruct (kept_cell_at b b' p x Hk Hp Hx) as (v & Hx' & Hmono).
  eexists. split; [exact Hx'|]. simpl. auto.
Qed.

Lemma flagged_at_kept (b b' : Board) (p : pos) :
  kept b b' → mines_placed b = true → flagged_at b p ↔ flagged_at b' p.
Proof.
  intros Hk Hp. split.
  - intros (x & Hx & Hfl).
    destruct (kept_cell_at b b' p x Hk Hp Hx) as (v & Hx' & _).
    eexists. split; [exact Hx'|]. done.
  - intros (x' & Hx' & Hfl).
    destruct (kept_cell_at_back b b' p x' Hk Hp Hx') as (x & Hx & Heq & _).
    exists x. split; [done|]. rewrite Heq in Hfl. done.
Qed.

Lemma zero_cell_kept (b b' : Board) (p : pos) :
  kept b b' → mines_placed b = true → zero_cell b p → zero_cell b' p.
Proof.
  intros Hk Hp (x & Hx & Hm & Ha).
  destruct (kept_cell_at b b' p x Hk Hp Hx) as (v & Hx' & _).
  eexists. split; [exact Hx'|]. done.
Qed.

Lemma openable_kept_back (b b' : Board) (p : pos) :
  kept b b' → mines_placed b = true → openable b' p → openable b p.
Proof.
  intros Hk Hp (x' & Hx' & Hrev & Hfl).
  destruct (kept_cell_at_back b b' p x' Hk Hp Hx') as (x & Hx & Heq & Hmono).
  exists x. split; [done|]. split.
  - destruct (is_revealed (state x)); [|done]. rewrite Hmono in Hrev; done.
  - rewrite Heq in Hfl. done.
Qed.

Lemma zero_cell_kept_back (b b' : Board) (p : pos) :
  kept b b' → mines_placed b = true → zero_cell b' p → zero_cell b p.
Proof.
  intros Hk Hp (x' & Hx' & Hm & Ha).
  destruct (kept_cell_at_back b b' p x' Hk Hp Hx') as (x & Hx & Heq & _).
  exists x. split; [done|]. rewrite Heq in Hm, Ha. done.
Qed.

Lemma flood_kept_back (b b' : Board) (s p : pos) :
  kept b b' → mines_placed b = true → flood b' s p → flood b s p.
Proof.
  intros Hk Hp Hfl. induction Hfl as [Ho | q n _ IH Hz Hn Ho].
  - apply flood_here. by eapply openable_kept_back.
  - eapply flood_step; [exact IH | by eapply zero_cell_kept_back | |
                        by eapply openable_kept_back].
    by rewrite <- (evolves_neighbors b b' _ _ (proj1 Hk)).
Qed.

Lemma flood_openable (b : Board) (s p : pos) : flood b s p → openable b p.
Proof. by intros [Ho | q n _ _ _ Ho]. Qed.

Lemma flood_prepend (b : Board) (s n p : pos) :
  openable b s → zero_cell b s → In n (neighbors b s.1 s.2) →
  flood b n p → flood b s p.
Proof.
  intros Hos Hzs Hn Hfl. induction Hfl as [Ho | q m _ IH Hz Hm Ho].
  - eapply flood_step; [by apply flood_here | done | done | done].
  - by eapply flood_step.
Qed.

Lemma revealed_or_closed (b : Board) (p : pos) (x : Cell) :
  cell_at b p.1 p.2 = Some x → revealed_at b p ∨ closed_at b p.
Proof.
  intros Hx. destruct (is_revealed (state x)) eqn:Hrev; [left | right]; by exists x.
Qed.

Lemma revealed_not_closed (b : Board) (p : pos) :
  revealed_at b p → closed_at b p → False.
Proof. intros (x & Hx & Hr) (y & Hy & Hc). congruence. Qed.

(** Around a cell that is no mine and counts no mine there is no mine. *)
Lemma zero_cell_neighbors (b : Board) (p n : pos) (y : Cell) :
  core_inv b → mines_placed b = true → zero_cell b p →
  In n (neighbors b p.1 p.2) → cell_at b n.1 n.2 = Some y →
  is_mine (state y) = false.
Proof.
  intros Hinv Hp (x & Hx & Hm & Ha) Hn Hy.
  destruct (inv_mines _ Hinv Hp) as [_ Hok].
  pose proof (Hok _ _ x Hx Hm) as Hadj. rewrite Ha in Hadj.
  unfold mines_around in Hadj.
  destruct (is_mine (state y)) eqn:Hmy; [|done].
  assert (In n (List.filter (mine_at b (cells b)) (neighbors b p.1 p.2))) as Hnin.
  { apply filter_In. split; [done|]. apply cell_at_Some in Hy as [_ Hy].
    destruct n as [nc nr]. by rewrite (mine_at_slot b _ nc nr y Hy). }
  destruct (List.filter _ _); [done | simpl in Hadj; lia].
Qed.

Lemma cell_at_check_win (b : Board) (c r : Z) :
  core_inv b →
  cell_at (check_win b) c r = cell_at b c r ∧
  game_over (check_win b) = game_over b ∧
  cells (check_win b) = cells b.
Proof.
  intros Hinv. by destruct (check_win_spec b Hinv) as [->|(-> & _)].
Qed.

Lemma open_cell_at (b : Board) (c r : Z) (x : Cell) :
  cell_at b c r = Some x →
  cell_at (open_cell (slot b c r) x b) c r = Some (set_is_revealed true x).
Proof.
  intros [Hin Hx]%cell_at_Some. apply cell_at_Some. split; [done|].
  simpl. apply list_lookup_insert_eq. by eapply lookup_lt_Some.
Qed.

Lemma open_cell_only (b : Board) (c r : Z) (x : Cell) (p : pos) :
  cell_at b c r = Some x →
  closed_at b p → revealed_at (open_cell (slot b c r) x b) p → p = (c, r).
Proof.
  intros [Hin Hx]%cell_at_Some (y & [Hpin Hy]%cell_at_Some & Hc)
    (y' & [_ Hy']%cell_at_Some & Hr).
  change (slot (open_cell (slot b c r) x b) p.1 p.2) with (slot b p.1 p.2) in Hy'.
  simpl in Hy'. destruct (decide (slot b p.1 p.2 = slot b c r)) as [Heq|Hne].
  - apply slot_inj in Heq as [? ?]; [| done | done]. destruct p. simpl in *. congruence.
  - rewrite list_lookup_insert_ne in Hy' by done. congruence.
Qed.

(** The flood fill started by [reveal] on a cell that is no mine, on a
    board in play with the mines placed. *)
Lemma reveal_flood (depth : nat) :
  ∀ b c r b',
    core_inv b → mines_placed b = true → game_over b = false →
    (∀ x, cell_at b c r = Some x → is_mine (state x) = false) →
    reveal depth b c r = Ret b' →
    game_over b' = false ∧
    flood_sound b b' (eq (c, r)) ∧
    flood_closed b b' ∧
    (is_inbounds b c r = true → revealed_at b' (c, r) ∨ flagged_at b' (c, r)).
Proof using shuffle_perm.
  induction depth as [|depth IH]; intros b c r b' Hinv Hp Hgo Hsafe Hrun; [done|].
  assert (∀ b0, flood_sound b0 b0 (eq (c, r)) ∧ flood_closed b0 b0) as Hsame.
  { intros b0. split.
    - intros p Hc Hr. destruct (revealed_not_closed b0 p Hr Hc).
    - intros q n Hc Hr. destruct (revealed_not_closed b0 q Hr Hc). }
  rewrite reveal_S in Hrun.
  destruct (is_inbounds b c r) eqn:Hin; simpl in Hrun.
  2:{ injection Hrun as <-. destruct (Hsame b). split_and!; done. }
  rewrite Hp in Hrun. simpl in Hrun.
  destruct (getitem_inbounds b (cells b) c r (inv_sized _ Hinv) Hin) as (x & Hx & Hg).
  rewrite Hg in Hrun. simpl in Hrun.
  assert (cell_at b c r = Some x) as Hcx by (by apply cell_at_Some).
  destruct (is_revealed (state x) || is_flagged (state x)) eqn:Hguard.
  { injection Hrun as <-. destruct (Hsame b). split_and!; try done.
    intros _. apply orb_true_iff in Hguard as [Hr|Hf]; [left | right]; by exists x. }
  apply orb_false_iff in Hguard as [Hrev Hflag].
  rewrite (Hsafe x Hcx) in Hrun.
  set (b2 := open_cell (slot b c r) x b) in *.
  pose proof (open_cell_kept (slot b c r) x b Hx) as Hk2. fold b2 in Hk2.
  assert (core_inv b2) as Hinv2 by (apply open_cell_inv; auto).
  assert (mines_placed b2 = true) as Hp2 by done.
  assert (openable (b) (c, r)) as Hopen by (by exists x).
  assert (revealed_at b2 (c, r)) as Hrev2.
  { eexists. split; [by apply open_cell_at|]. done. }
  inv_bind Hrun. rename a into b3. injection Hrun as <-.
  set (start := λ n : pos, adjacent (state x) = 0 ∧ In n (neighbors b c r)).
  assert (core_inv b3 ∧ game_over b3 = false ∧ kept b2 b3 ∧
          flood_sound b2 b3 start ∧ flood_closed b2 b3 ∧
          ∀ n, start n → revealed_at b3 n ∨ flagged_at b3 n)
    as (Hinv3 & Hgo3 & Hk3 & Hsound3 & Hclosed3 & Hpost3).
  { destruct (Z.eqb_spec (adjacent (state x)) 0) as [Hadj|Hadj].
    2:{ injection Ha as <-. split_and!; try done.
        - apply kept_refl.
        - intros p Hc Hr. destruct (revealed_not_closed b2 p Hr Hc).
        - intros q n Hc Hr. destruct (revealed_not_closed b2 q Hr Hc).
        - by intros n [? _]. }
    assert (zero_cell b (c, r)) as Hzero by (exists x; auto).
    destruct (for_each_post (λ b' n, reveal depth b' n.1 n.2)
                (λ s, core_inv s ∧ game_over s = false ∧ kept b2 s)
                (λ s s', mines_placed s = true ∧ kept s s' ∧
                         flood_sound s s' start ∧ flood_closed s s')
                (λ n s, revealed_at s n ∨ flagged_at s n)
                (neighbors b c r)) with (s := b2) (s' := b3)
      as ((Hinv3 & Hgo3 & Hk3) & (_ & _ & Hsound3 & Hclosed3) & Hpost3).
    - intros s (Hs & _ & Hks). split_and!.
      + by apply (ev_placed _ _ (proj1 Hks)).
      + apply kept_refl.
      + intros p Hc Hr. destruct (revealed_not_closed s p Hr Hc).
      + intros q n Hc Hr. destruct (revealed_not_closed s q Hr Hc).
    - intros s1 s2 s3 (Hp1 & Hk12 & Hs12 & Hc12) (Hp2' & Hk23 & Hs23 & Hc23).
      split_and!; [done | by eapply kept_trans | |].
      + intros p Hc Hr. destruct Hc as (y & Hy & Hyc).
        destruct (kept_cell_at s1 s2 p y Hk12 Hp1 Hy) as (v & Hv & _).
        destruct (revealed_or_closed s2 p _ Hv) as [Hr2|Hc2].
        * apply (Hs12 p); [by exists y | done].
        * destruct (Hs23 p Hc2 Hr) as (n & Hn & Hfl).
          exists n. split; [done|]. by eapply flood_kept_back.
      + intros q n Hc Hr Hz Hn. destruct Hc as (y & Hy & Hyc).
        destruct (kept_cell_at s1 s2 q y Hk12 Hp1 Hy) as (v & Hv & _).
        destruct (revealed_or_closed s2 q _ Hv) as [Hr2|Hc2].
        * destruct (Hc12 q n) as [Hrn|Hfn]; [by exists y | done | done | done | |].
          -- left. by eapply revealed_at_kept.
          -- right. by apply (flagged_at_kept s2 s3 n Hk23 Hp2').
        * apply (Hc23 q n); [done | done | by eapply zero_cell_kept |].
          by rewrite (evolves_neighbors s1 s2 _ _ (proj1 Hk12)).
    - intros n s s' [Hr|Hf] (Hps & Hkss & _).
      + left. by eapply revealed_at_kept.
      + right. by apply (flagged_at_kept s s' n Hkss Hps).
    - intros s n s' Hn%list_elem_of_In (Hs & Hgos & Hks) Hbody.
      pose proof (kept_trans _ _ _ Hk2 Hks) as Hkbs.
      pose proof (ev_placed _ _ (proj1 Hks) Hp2) as Hps.
      destruct (IH s n.1 n.2 s' Hs Hps Hgos) as (Hgo' & Hsound' & Hclosed' & Hpost');
        [| done |].
      { intros y Hy.
        destruct (kept_cell_at_back b s n y Hkbs Hp Hy) as (y0 & Hy0 & -> & _).
        simpl. by eapply (zero_cell_neighbors b (c, r) n). }
      destruct (reveal_inv depth s n.1 n.2 s' Hs Hbody) as [Hinv' Hk'].
      split_and!; try done.
      + by eapply kept_trans.
      + intros p Hc Hr. destruct (Hsound' p Hc Hr) as (s0 & <- & Hfl).
        exists n. split; [by split|]. by destruct n.
      + replace (n.1, n.2) with n in Hpost' by (by destruct n). apply Hpost'.
        rewrite (evolves_is_inbounds b s _ _ (proj1 Hkbs)).
        by eapply neighbors_inbounds.
    - split_and!; [done | done | apply kept_refl].
    - exact Ha.
    - split_and!; try done. intros n [_ Hn]. apply Hpost3. by apply list_elem_of_In. }
  destruct (cell_at_check_win b3 c r Hinv3) as (_ & Hgow & Hcw).
  assert (∀ p, revealed_at (check_win b3) p ↔ revealed_at b3 p) as Hrw.
  { intros p. unfold revealed_at.
    by rewrite (proj1 (cell_at_check_win b3 p.1 p.2 Hinv3)). }
  assert (∀ p, flagged_at (check_win b3) p ↔ flagged_at b3 p) as Hfw.
  { intros p. unfold flagged_at.
    by rewrite (proj1 (cell_at_check_win b3 p.1 p.2 Hinv3)). }
  split_and!.
  - congruence.
  - intros p Hc Hr%Hrw. destruct Hc as (y & Hy & Hyc).
    destruct (kept_cell_at b b2 p y Hk2 Hp Hy) as (v & Hv & _).
    destruct (revealed_or_closed b2 p _ Hv) as [Hr2|Hc2].
    + exists (c, r). split; [done|].
      rewrite (open_cell_only b c r x p Hcx); [by apply flood_here | by exists y | done].
    + destruct (Hsound3 p Hc2 Hr) as (n & [Hadj Hn] & Hfl).
      exists (c, r). split; [done|].
      apply (flood_prepend b (c, r) n p); [done | exists x; split_and!; auto | done |].
      by eapply flood_kept_back.
  - intros q n Hc Hr%Hrw Hz Hn. rewrite Hrw, Hfw.
    destruct Hc as (y & Hy & Hyc).
    destruct (kept_cell_at b b2 q y Hk2 Hp Hy) as (v & Hv & _).
    destruct (revealed_or_closed b2 q _ Hv) as [Hr2|Hc2].
    + assert (q = (c, r)) as -> by (apply (open_cell_only b c r x q Hcx); [by exists y | done]).
      apply Hpost3. split; [|done].
      destruct Hz as (x0 & Hx0 & _ & Hadj). simpl in Hx0. congruence.
    + apply (Hclosed3 q n); [done | done | by eapply zero_cell_kept |].
      by rewrite (evolves_neighbors b b2 _ _ (proj1 Hk2)).
  - intros _. left. apply Hrw. by eapply revealed_at_kept.
Qed.

Lemma openable_not_flagged (b b' : Board) (p : pos) :
  kept b b' → mines_placed b = true →
  openable b p → revealed_at b' p ∨ flagged_at b' p → revealed_at b' p.
Proof.
  intros Hk Hp (x & Hx & _ & Hfl) [Hr|Hf]; [done|].
  apply (flagged_at_kept b b' p Hk Hp) in Hf as (y & Hy & Hyf). congruence.
Qed.

(** Every cell of the flood region ends up revealed. *)
Lemma flood_complete (b b' : Board) (s p : pos) :
  kept b b' → mines_placed b = true → flood_closed b b' →
  revealed_at b' s ∨ flagged_at b' s →
  flood b s p → revealed_at b' p.
Proof.
  intros Hk Hp Hclosed Hs Hfl. induction Hfl as [Ho | q n Hq IH Hz Hn Ho].
  - by eapply openable_not_flagged.
  - eapply openable_not_flagged; [done | done | done |].
    apply (Hclosed q n); [| done | done | done].
    destruct (flood_openable b s q Hq) as (y & Hy & Hyc & _). by exists y.
Qed.

Lemma set_is_revealed_id (x : Cell) : set_is_revealed (is_revealed (state x)) x = x.
Proof. by destruct x as [? ? []]. Qed.

(** C8 (flood-fill reveal).  On a reachable board in play with the
    mines placed, [reveal] on a closed, unflagged cell that is no mine
    returns (given enough call depth) and the game goes on.  If the cell
    has [adjacent > 0], exactly that cell is opened and no other cell
    changes.  If it has [adjacent == 0], the call opens it, runs [reveal]
    on every in-bounds neighbour in turn and then checks for a win; in
    the end exactly the cells of the flood region (reached from the
    clicked cell through zero cells, over closed unflagged cells only)
    have been opened, and every other cell is as it was. *)
Theorem flood_fill_reveal
    (ncols nrows mines : Z) (b : Board) (c r : Z) (x : Cell) (depth : nat) :
  valid_config ncols nrows mines →
  reachable ncols nrows mines b →
  mines_placed b = true → game_over b = false → win b = false →
  cell_at b c r = Some x →
  is_revealed (state x) = false → is_flagged (state x) = false →
  is_mine (state x) = false →
  (length (cells b) < depth)%nat →
  ∃ b', reveal depth b c r = Ret b' ∧
    game_over b' = false ∧
    (0 < adjacent (state x) →
       cells b' = <[slot b c r := set_is_revealed true x]> (cells b) ∧
       revealed_count b' = revealed_count b + 1) ∧
    (adjacent (state x) = 0 →
       reveal depth b c r =
         (b3 ←! for_each (λ b0 n, reveal (pred depth) b0 n.1 n.2)
                  (neighbors b c r) (open_cell (slot b c r) x b);
          Ret (check_win b3)) ∧
       ∀ p y, cell_at b p.1 p.2 = Some y →
         (flood b (c, r) p →
            cell_at b' p.1 p.2 = Some (set_is_revealed true y)) ∧
         (¬ flood b (c, r) p → cell_at b' p.1 p.2 = Some y)).
Proof using shuffle_perm.
  intros Hcfg Hreach Hp Hgo Hwin Hcx Hrev Hflag Hm Hd.
  destruct (reachable_inv _ _ _ b Hcfg Hreach) as ([Hinv _] & _).
  destruct depth as [|depth]; [lia|].
  destruct (reveal_total (S depth) b c r Hinv) as [b' Hrun].
  { unfold closed_cells. lia. }
  destruct (reveal_inv _ b c r b' Hinv Hrun) as [Hinv' Hk].
  destruct (reveal_flood (S depth) b c r b' Hinv Hp Hgo)
    as (Hgo' & Hsound & Hclosed & Hpost);
    [intros y Hy; congruence | done |].
  pose proof Hcx as [Hin Hx]%cell_at_Some.
  destruct (getitem_inbounds b (cells b) c r (inv_sized _ Hinv) Hin) as (y & Hy & Hg).
  assert (y = x) as -> by congruence.
  assert (reveal (S depth) b c r =
          (b3 ←! (if adjacent (state x) =? 0 then
                    for_each (λ b0 n, reveal depth b0 n.1 n.2)
                      (neighbors b c r) (open_cell (slot b c r) x b)
                  else Ret (open_cell (slot b c r) x b));
           Ret (check_win b3))) as Hunfold.
  { rewrite reveal_S, Hin, Hp. simpl. rewrite Hg. simpl.
    by rewrite Hrev, Hflag, Hm. }
  exists b'. split_and!; [done | done | |].
  - intros Hadj. rewrite Hunfold in Hrun.
    destruct (Z.eqb_spec (adjacent (state x)) 0) as [|_]; [lia|].
    simpl in Hrun. injection Hrun as <-.
    assert (core_inv (open_cell (slot b c r) x b)) as Hinv2
      by (apply open_cell_inv; auto; congruence).
    destruct (check_win_spec _ Hinv2) as [->|(-> & _)]; done.
  - intros Hadj. split.
    { rewrite Hunfold, Hadj. done. }
    intros p y Hy'.
    destruct (kept_cell_at b b' p y Hk Hp Hy') as (v & Hv & Hmono).
    split.
    + intros Hfl.
      destruct (flood_complete b b' (c, r) p Hk Hp Hclosed (Hpost Hin) Hfl)
        as (y' & Hy'' & Hr).
      rewrite Hv in Hy''. injection Hy'' as <-. simpl in Hr. by subst v.
    + intros Hnfl. rewrite Hv. f_equal.
      destruct (is_revealed (state y)) eqn:Hry.
      * rewrite (Hmono eq_refl), <- Hry. apply set_is_revealed_id.
      * destruct v; [|rewrite <- Hry; apply set_is_revealed_id].
        exfalso. apply Hnfl.
        destruct (Hsound p) as (s0 & <- & Hfl); [by exists y | | done].
        eexists. split; [exact Hv|]. done.
Qed.

(** ** Further properties of the board *)

(** *** Calls return *)

(** X1.  On a reachable board [reveal] raises neither [IndexError] nor
    [RecursionError] when the call depth available exceeds the number
    of closed cells: the flood fill never nests deeper than that. *)
Theorem reveal_returns
    (ncols nrows mines : Z) (b : Board) (c r : Z) (depth : nat) :
  valid_config ncols nrows mines →
  reachable ncols nrows mines b →
  (closed_cells b < depth)%nat →
  ∃ b', reveal depth b c r = Ret b'.
Proof using shuffle_perm.
  intros Hcfg Hreach Hd.
  destruct (reachable_inv _ _ _ b Hcfg Hreach) as ([Hinv _] & _).
  by apply reveal_total.
Qed.

(** X2.  On a board reachable from any constructor call [toggle_flag]
    never raises. *)
Theorem toggle_flag_returns (ncols nrows mines : Z) (b : Board) (c r : Z) :
  reachable ncols nrows mines b →
  ∃ b', toggle_flag b c r = Ret b'.
Proof using shuffle_perm.
  intros Hreach. destruct (reachable_layout _ _ _ b Hreach) as (Hs & _).
  unfold toggle_flag. destruct (is_inbounds b c r) eqn:Hin; simpl; [|by eexists].
  destruct (getitem_inbounds b (cells b) c r Hs Hin) as (x & _ & ->). simpl.
  destruct (is_revealed (state x)); by eexists.
Qed.

(** *** Nothing is ever closed again *)

Lemma place_mines_fields (b b1 : Board) (c r : Z) :
  place_mines b c r = Ret b1 →
  revealed_count b1 = revealed_count b ∧ game_over b1 = game_over b ∧
  win b1 = win b ∧ mines_placed b1 = true.
Proof.
  rewrite place_mines_unfold. intros Hrun.
  inv_bind_as Hrun l1 Hl1. inv_bind_as Hrun l2 Hl2. by injection Hrun as <-.
Qed.

Lemma check_win_fields (b : Board) :
  revealed_count (check_win b) = revealed_count b ∧
  game_over (check_win b) = game_over b.
Proof.
  unfold check_win.
  by destruct ((revealed_count b =? cols b * rows b - num_mines b) && negb (game_over b)).
Qed.

Lemma reveal_count_le (depth : nat) :
  ∀ b c r b', reveal depth b c r = Ret b' → revealed_count b ≤ revealed_count b'.
Proof.
  induction depth as [|depth IH]; intros b c r b' Hrun; [done|].
  rewrite reveal_S in Hrun.
  destruct (is_inbounds b c r); simpl in Hrun; [|injection Hrun as <-; lia].
  inv_bind_as Hrun b1 Hb1.
  assert (revealed_count b1 = revealed_count b) as Hc1.
  { destruct (mines_placed b); simpl in Hb1; [by injection Hb1 as <-|].
    by apply place_mines_fields in Hb1 as [? _]. }
  inv_bind_as Hrun kx Hkx. destruct kx as [k x]. simpl in Hrun.
  destruct (is_revealed (state x) || is_flagged (state x));
    [injection Hrun as <-; lia|].
  destruct (is_mine (state x)); [injection Hrun as <-; simpl; lia|].
  inv_bind_as Hrun b3 Hb3. injection Hrun as <-.
  rewrite (proj1 (check_win_fields b3)).
  assert (revealed_count (open_cell k x b1) ≤ revealed_count b3) as Hc3.
  { destruct (adjacent (state x) =? 0); [|injection Hb3 as <-; lia].
    eapply (for_each_rel _ (λ _, True) (λ s s', revealed_count s ≤ revealed_count s'));
      [| | | exact I | exact Hb3].
    - intros; lia.
    - intros; lia.
    - intros s n s' _ _ Hbody. split; [done | exact (IH _ _ _ _ Hbody)]. }
  simpl in Hc3. lia.
Qed.

Lemma step_count_le (b b' : Board) :
  step b b' → revealed_count b ≤ revealed_count b'.
Proof.
  intros [depth b0 c r b0' Hrun | b0 c r b0' Hrun].
  - by eapply reveal_count_le.
  - unfold toggle_flag in Hrun.
    destruct (is_inbounds b0 c r); simpl in Hrun; [|injection Hrun as <-; lia].
    inv_bind_as Hrun kx Hkx. destruct kx as [k x]. simpl in Hrun.
    destruct (is_revealed (state x)); injection Hrun as <-; [lia|].
    rewrite (proj1 (check_win_fields _)). simpl. lia.
Qed.

(** X3.  Across any sequence of calls on a reachable board,
    [revealed_count] never decreases and a revealed cell stays
    revealed. *)
Theorem revealed_never_reverts (ncols nrows mines : Z) (b b' : Board) :
  reachable ncols nrows mines b →
  rtc step b b' →
  revealed_count b ≤ revealed_count b' ∧
  ∀ c r x, cell_at b c r = Some x → is_revealed (state x) = true →
    ∃ x', cell_at b' c r = Some x' ∧ is_revealed (state x') = true.
Proof using shuffle_perm.
  intros Hreach Hsteps. split.
  - clear Hreach. induction Hsteps as [b|b1 b2 b3 H12 _ IH]; [lia|].
    pose proof (step_count_le b1 b2 H12). lia.
  - destruct (steps_layout b b' (reachable_layout _ _ _ b Hreach) Hsteps) as [_ Hev].
    intros c r x Hx Hrev.
    destruct (cell_at_evolves b b' c r x Hev Hx) as (x' & Hx' & Hmono & _).
    exists x'. auto.
Qed.

(** X4.  Once the mines are placed they never move: across any
    sequence of calls [_mines_placed] stays set and every cell keeps its
    [is_mine] and [adjacent] values. *)
Theorem mine_layout_fixed (ncols nrows mines : Z) (b b' : Board) :
  reachable ncols nrows mines b →
  mines_placed b = true →
  rtc step b b' →
  mines_placed b' = true ∧
  ∀ c r x, cell_at b c r = Some x →
    ∃ x', cell_at b' c r = Some x' ∧
      is_mine (state x') = is_mine (state x) ∧
      adjacent (state x') = adjacent (state x).
Proof using shuffle_perm.
  intros Hreach Hp Hsteps.
  destruct (steps_layout b b' (reachable_layout _ _ _ b Hreach) Hsteps) as [_ Hev].
  split; [by apply (ev_placed _ _ Hev)|].
  intros c r x Hx.
  destruct (cell_at_evolves b b' c r x Hev Hx) as (x' & Hx' & _ & Hm).
  exists x'. split; [done | by apply Hm].
Qed.

(** *** Counting flags *)

Lemma flagged_count_spec (b : Board) :
  flagged_count b = Z.of_nat (count_cells is_flagged (cells b)).
Proof.
  unfold flagged_count, count_cells.
  assert (∀ l acc,
            fold_left (λ count x, if is_flagged (state x) then count + 1 else count) l acc =
            acc + Z.of_nat (length (List.filter (λ x, is_flagged (state x)) l))) as H.
  { induction l as [|x l IH]; intros acc; simpl; [lia|].
    rewrite IH. destruct (is_flagged (state x)); simpl; lia. }
  rewrite H. lia.
Qed.

(** X5.  [toggle_flag] on a closed in-bounds cell of a reachable board
    moves [flagged_count] by exactly one: up when the cell was not
    flagged, down when it was; and [flagged_count] always lies between
    0 and the number of cells. *)
Theorem toggle_flag_counts
    (ncols nrows mines : Z) (b : Board) (c r : Z) (x : Cell) :
  valid_config ncols nrows mines →
  reachable ncols nrows mines b →
  cell_at b c r = Some x →
  is_revealed (state x) = false →
  ∃ b', toggle_flag b c r = Ret b' ∧
    flagged_count b' =
      (if is_flagged (state x) then flagged_count b - 1 else flagged_count b + 1) ∧
    0 ≤ flagged_count b' ≤ Z.of_nat (length (cells b')).
Proof using shuffle_perm.
  intros Hcfg Hreach Hc Hrev.
  destruct (reachable_inv _ _ _ b Hcfg Hreach) as (Hb & _).
  pose proof (toggle_flag_spec b c r Hb) as Hspec. rewrite Hc, Hrev in Hspec.
  apply cell_at_Some in Hc as [Hin Hx].
  eexists. split; [exact Hspec|]. rewrite !flagged_count_spec. split.
  - pose proof (count_cells_insert is_flagged (cells b) (slot b c r) x
                  (set_is_flagged (negb (is_flagged (state x))) x) Hx) as Hcnt.
    change (cells (flip_flag (slot b c r) x b))
      with (<[slot b c r := set_is_flagged (negb (is_flagged (state x))) x]> (cells b)).
    cbn [set_is_flagged state is_flagged] in Hcnt.
    destruct (is_flagged (state x)); cbn [negb] in Hcnt |- *; lia.
  - pose proof (count_cells_le is_flagged (cells (flip_flag (slot b c r) x b))). lia.
Qed.

(** X6.  [reveal] never changes a flag: on a reachable board the flag
    of every cell, and with it [flagged_count], is the same before and
    after the call. *)
Theorem reveal_keeps_flags
    (ncols nrows mines : Z) (b : Board) (c r : Z) (depth : nat) (b' : Board) :
  valid_config ncols nrows mines →
  reachable ncols nrows mines b →
  reveal depth b c r = Ret b' →
  flagged_count b' = flagged_count b ∧
  ∀ k x, cells b !! k = Some x →
    ∃ x', cells b' !! k = Some x' ∧ is_flagged (state x') = is_flagged (state x).
Proof using shuffle_perm.
  intros Hcfg Hreach Hrun.
  destruct (reachable_inv _ _ _ b Hcfg Hreach) as ([Hinv _] & _).
  destruct (reveal_inv depth b c r b' Hinv Hrun) as [_ [Hev Hfl]].
  split.
  - rewrite !flagged_count_spec. f_equal. symmetry.
    apply count_cells_ext; [by rewrite (ev_length _ _ Hev)|].
    intros k x x' Hx Hx'. by apply (Hfl k).
  - intros k x Hx. destruct (ev_cells _ _ Hev k x Hx) as (x' & Hx' & _).
    exists x'. split; [done | by apply (Hfl k)].
Qed.

(** *** What the end of the game shows *)

(** An induction principle for [reveal]: a property of boards that
    survives the mine placement, the opening of the clicked cell (with
    the loss sweep when it is a mine) and the win check survives the
    whole call, nested calls included. *)
Lemma reveal_invariant (Q : Board → Prop) :
  (∀ b b1 c r, core_inv b → mines_placed b = false → Q b →
     place_mines b c r = Ret b1 → Q b1) →
  (∀ b k x, core_inv b → mines_placed b = true → cells b !! k = Some x →
     is_revealed (state x) = false → Q b →
     Q (open_cell k x b) ∧ Q (reveal_all_mines (set_game_over true (open_cell k x b)))) →
  (∀ b, core_inv b → Q b → Q (check_win b)) →
  ∀ depth b c r b', core_inv b → Q b → reveal depth b c r = Ret b' → Q b'.
Proof using shuffle_perm.
  intros Hplace Hopen Hwin.
  induction depth as [|depth IH]; intros b c r b' Hinv HQ Hrun; [done|].
  rewrite reveal_S in Hrun.
  destruct (is_inbounds b c r) eqn:Hin; simpl in Hrun; [|by injection Hrun as <-].
  destruct (reveal_prefix b c r Hinv Hin)
    as (b1 & x & Hb1 & Hg & Hx & Hinv1 & Hk1 & Hp1 & Hsame & _).
  assert (Q b1) as HQ1.
  { destruct (mines_placed b) eqn:Hp; [by rewrite (Hsame eq_refl)|].
    simpl in Hb1. exact (Hplace b b1 c r Hinv Hp HQ Hb1). }
  rewrite Hb1 in Hrun. simpl in Hrun. rewrite Hg in Hrun. simpl in Hrun.
  destruct (is_revealed (state x) || is_flagged (state x)) eqn:Hguard;
    [by injection Hrun as <-|].
  apply orb_false_iff in Hguard as [Hrev Hflag].
  destruct (Hopen b1 _ x Hinv1 Hp1 Hx Hrev HQ1) as [HQ2 HQlose].
  destruct (is_mine (state x)) eqn:Hm; [by injection Hrun as <-|].
  assert (core_inv (open_cell (slot b c r) x b1)) as Hinv2 by (by apply open_cell_inv).
  inv_bind_as Hrun b3 Hb3. injection Hrun as <-.
  assert (core_inv b3 ∧ Q b3) as [Hinv3 HQ3]; [|by apply Hwin].
  destruct (adjacent (state x) =? 0); [|by injection Hb3 as <-].
  destruct (for_each_rel (λ b' n, reveal depth b' n.1 n.2)
              (λ s, core_inv s ∧ Q s) (λ _ _, True) (neighbors b1 c r))
    with (s := open_cell (slot b c r) x b1) (s' := b3) as [? _]; try done.
  intros s n s' _ [Hs HQs] Hbody. split; [|done]. split.
  - by destruct (reveal_inv depth s n.1 n.2 s' Hs Hbody).
  - exact (IH s n.1 n.2 s' Hs HQs Hbody).
Qed.

(** Cells only open and mines stay where they are, so "every cell with
    [is_mine = v] is revealed" is passed on. *)
Lemma shown_evolves (v : bool) (b b' : Board) :
  evolves b b' → mines_placed b = true →
  (∀ x, x ∈ cells b → is_mine (state x) = v → is_revealed (state x) = true) →
  ∀ x', x' ∈ cells b' → is_mine (state x') = v → is_revealed (state x') = true.
Proof.
  intros Hev Hp Hall x' [k Hx']%list_elem_of_lookup Hm.
  destruct (lookup_lt_is_Some_2 (cells b) k) as [x Hx].
  { rewrite <- (ev_length _ _ Hev). by eapply lookup_lt_Some. }
  destruct (ev_cells _ _ Hev k x Hx) as (y & Hy & _ & _ & Hmono & Hlay).
  assert (y = x') as -> by congruence. destruct (Hlay Hp) as [Hmx _].
  apply Hmono, Hall; [by eapply list_elem_of_lookup_2 | congruence].
Qed.

Lemma end_shown_evolves (flag : Board → bool) (v : bool) (b b' : Board) :
  evolves b b' → flag b' = flag b →
  end_shown flag v b → end_shown flag v b'.
Proof.
  intros Hev Hflag Hend Hf'. rewrite Hflag in Hf'. destruct (Hend Hf') as [Hp Hall].
  split; [by apply (ev_placed _ _ Hev) | by eapply shown_evolves].
Qed.

Lemma lost_shown_reveal (depth : nat) (b b' : Board) (c r : Z) :
  core_inv b → end_shown game_over true b → reveal depth b c r = Ret b' →
  end_shown game_over true b'.
Proof using shuffle_perm.
  apply (reveal_invariant (end_shown game_over true)).
  - intros b0 b1 c0 r0 Hinv Hp _ Hrun Hgo.
    apply place_mines_fields in Hrun as (_ & Hgo1 & _).
    destruct (inv_fresh _ Hinv Hp) as (_ & _ & Hgo0 & _). congruence.
  - intros b0 k x Hinv Hp Hx Hrev Hend. split.
    + apply (end_shown_evolves _ _ b0); [apply open_cell_kept | |]; done.
    + intros _. split; [done|]. simpl.
      intros y (z & -> & Hz)%list_elem_of_fmap.
      destruct (is_mine (state z)) eqn:Hmz; simpl; congruence.
  - intros b0 Hinv Hend.
    apply (end_shown_evolves _ _ b0); [by apply check_win_kept | apply check_win_fields | done].
Qed.

Lemma won_shown_reveal (depth : nat) (b b' : Board) (c r : Z) :
  core_inv b → end_shown win false b → reveal depth b c r = Ret b' →
  end_shown win false b'.
Proof using shuffle_perm.
  apply (reveal_invariant (end_shown win false)).
  - intros b0 b1 c0 r0 Hinv Hp _ Hrun Hw.
    apply place_mines_fields in Hrun as (_ & _ & Hw1 & _).
    destruct (inv_fresh _ Hinv Hp) as (_ & _ & _ & Hw0). congruence.
  - intros b0 k x Hinv Hp Hx Hrev Hend. split.
    + apply (end_shown_evolves _ _ b0); [apply open_cell_kept | |]; done.
    + apply (end_shown_evolves _ _ b0); [| done | done].
      eapply evolves_trans; [by apply open_cell_kept | apply lose_kept].
  - intros b0 Hinv Hend.
    destruct (check_win_spec b0 Hinv) as [->|(-> & Hgo & Hp & Hc)]; [done|].
    intros _. split; [done|]. simpl.
    destruct (all_safe_revealed b0 Hinv Hgo Hc) as [_ Hall].
    intros x Hx Hm. specialize (Hall x Hx). rewrite Hm in Hall.
    by destruct (is_revealed (state x)).
Qed.

Lemma end_shown_steps (b0 b : Board) :
  board_inv b0 → rtc step b0 b →
  end_shown game_over true b0 ∧ end_shown win false b0 →
  end_shown game_over true b ∧ end_shown win false b.
Proof using shuffle_perm.
  intros Hb0 Hsteps. induction Hsteps as [b|b1 b2 b3 H12 _ IH]; [done|].
  rename Hb0 into Hb1. intros [Hl Hw].
  destruct (step_inv b1 b2 Hb1 H12) as [Hb2 Hev].
  apply IH; [done|].
  destruct H12 as [depth b c r b' Hrun | b c r b' Hrun].
  - split; [by eapply lost_shown_reveal; [apply Hb1 | |]
           | by eapply won_shown_reveal; [apply Hb1 | |]].
  - rewrite (toggle_flag_spec b c r Hb1) in Hrun. injection Hrun as Hrun.
    assert (game_over b' = game_over b ∧ win b' = win b) as [Hgo' Hw'].
    { rewrite <- Hrun. destruct (cell_at b c r) as [x|]; [|done].
      by destruct (is_revealed (state x)). }
    split; by eapply end_shown_evolves.
Qed.

Lemma end_shown_reachable (ncols nrows mines : Z) (b : Board) :
  valid_config ncols nrows mines → reachable ncols nrows mines b →
  end_shown game_over true b ∧ end_shown win false b.
Proof using shuffle_perm.
  intros Hcfg Hreach.
  apply (end_shown_steps (new_board ncols nrows mines));
    [by apply new_board_settled | done | by split].
Qed.

(** X7.  On a reachable board with [game_over] set every mine is
    revealed: the mine layout stays exposed after the loss, whatever is
    called afterwards. *)
Theorem game_over_shows_mines (ncols nrows mines : Z) (b : Board) :
  valid_config ncols nrows mines →
  reachable ncols nrows mines b →
  game_over b = true →
  ∀ x, x ∈ cells b → is_mine (state x) = true → is_revealed (state x) = true.
Proof using shuffle_perm.
  intros Hcfg Hreach Hgo.
  destruct (end_shown_reachable _ _ _ b Hcfg Hreach) as [Hl _].
  by destruct (Hl Hgo).
Qed.

(** X8.  On a reachable board with [win] set the mines are placed and
    every cell that is not a mine is revealed, whatever has been called
    since the win. *)
Theorem win_shows_safe_cells (ncols nrows mines : Z) (b : Board) :
  valid_config ncols nrows mines →
  reachable ncols nrows mines b →
  win b = true →
  mines_placed b = true ∧
  ∀ x, x ∈ cells b → is_mine (state x) = false → is_revealed (state x) = true.
Proof using shuffle_perm.
  intros Hcfg Hreach Hw.
  destruct (end_shown_reachable _ _ _ b Hcfg Hreach) as [_ Hwon].
  by apply Hwon.
Qed.

(** *** Clicking the same cell again, and the first click *)

(** After [reveal] at a cell of the grid the mines are placed and the
    cell is revealed or flagged. *)
Lemma reveal_target (depth : nat) (b b' : Board) (c r : Z) :
  core_inv b → is_inbounds b c r = true → reveal depth b c r = Ret b' →
  mines_placed b' = true ∧
  ∃ x', cell_at b' c r = Some x' ∧
    is_revealed (state x') || is_flagged (state x') = true.
Proof using shuffle_perm.
  intros Hinv Hin Hrun. destruct depth as [|depth]; [done|].
  rewrite reveal_S, Hin in Hrun. simpl in Hrun.
  destruct (reveal_prefix b c r Hinv Hin)
    as (b1 & x & Hb1 & Hg & Hx & Hinv1 & Hk1 & Hp1 & _ & _).
  rewrite Hb1 in Hrun. simpl in Hrun. rewrite Hg in Hrun. simpl in Hrun.
  assert (cell_at b1 c r = Some x) as Hx1.
  { apply cell_at_Some. rewrite (evolves_is_inbounds b b1), (evolves_slot b b1);
      [done | apply Hk1 | apply Hk1]. }
  destruct (is_revealed (state x) || is_flagged (state x)) eqn:Hguard.
  { injection Hrun as <-. eauto. }
  apply orb_false_iff in Hguard as [Hrev Hflag].
  pose proof (open_cell_at b1 c r x Hx1) as Hx2.
  rewrite (evolves_slot b b1) in Hx2 by apply Hk1.
  assert (kept (open_cell (slot b c r) x b1) b') as [Hev _].
  { destruct (is_mine (state x)) eqn:Hm.
    { injection Hrun as <-. apply lose_kept. }
    assert (core_inv (open_cell (slot b c r) x b1)) as Hinv2 by (by apply open_cell_inv).
    inv_bind_as Hrun b3 Hb3. injection Hrun as <-.
    assert (core_inv b3 ∧ kept (open_cell (slot b c r) x b1) b3) as [Hinv3 Hk3].
    { destruct (adjacent (state x) =? 0);
        [|injection Hb3 as <-; split; [done | apply kept_refl]].
      apply (for_each_rel (λ b' n, reveal depth b' n.1 n.2) core_inv kept
               (neighbors b1 c r)); try done.
      - intros s _. apply kept_refl.
      - apply kept_trans.
      - intros s n s' _ Hs Hbody. exact (reveal_inv depth s n.1 n.2 s' Hs Hbody). }
    eapply kept_trans; [done | by apply check_win_kept]. }
  split; [by apply (ev_placed _ _ Hev)|].
  destruct (cell_at_evolves _ _ c r _ Hev Hx2) as (x' & Hx' & Hmono & _).
  exists x'. split; [done|]. rewrite Hmono; done.
Qed.

Lemma reveal_again (depth : nat) (b b' : Board) (c r : Z) :
  core_inv b → reveal depth b c r = Ret b' → reveal depth b' c r = Ret b'.
Proof using shuffle_perm.
  intros Hinv Hrun.
  destruct (reveal_inv depth b c r b' Hinv Hrun) as [Hinv' [Hev _]].
  destruct depth as [|depth]; [done|].
  destruct (is_inbounds b c r) eqn:Hin.
  - destruct (reveal_target _ b b' c r Hinv Hin Hrun) as (Hp' & x' & Hx' & Hguard).
    by eapply reveal_guarded.
  - rewrite reveal_S, (evolves_is_inbounds b b'), Hin by done. done.
Qed.

(** X9.  [reveal] is idempotent: calling it again with the same
    arguments on the board it returned gives that board back.  The
    left-click handler calls [board.reveal(col, row)] twice in a row;
    the second call changes nothing. *)
Theorem reveal_twice (ncols nrows mines : Z) (depth : nat) (b b' : Board) (c r : Z) :
  valid_config ncols nrows mines →
  reachable ncols nrows mines b →
  reveal depth b c r = Ret b' →
  reveal depth b' c r = Ret b'.
Proof using shuffle_perm.
  intros Hcfg Hreach Hrun.
  destruct (reachable_inv _ _ _ b Hcfg Hreach) as [[Hinv _] _].
  by apply (reveal_again depth b).
Qed.

Lemma filter_none {A : Type} (f : A → bool) (l : list A) :
  (∀ x, In x l → f x = false) → List.filter f l = [].
Proof.
  induction l as [|a l IH]; intros Hall; [done|]. simpl.
  rewrite (Hall a) by (by left). apply IH. intros y Hy. apply Hall. by right.
Qed.

(** X10.  The first click cannot lose.  On a reachable board without
    mines yet, [reveal] at an unflagged cell of the grid (with enough
    recursion depth) returns a board still in play on which that cell is
    revealed and each of its neighbours is revealed or flagged. *)
Theorem first_click_safe (ncols nrows mines : Z) (depth : nat) (b : Board)
    (c r : Z) (x : Cell) :
  valid_config ncols nrows mines →
  reachable ncols nrows mines b →
  mines_placed b = false →
  cell_at b c r = Some x →
  is_flagged (state x) = false →
  (closed_cells b < depth)%nat →
  ∃ b', reveal depth b c r = Ret b' ∧
    mines_placed b' = true ∧ game_over b' = false ∧
    revealed_at b' (c, r) ∧
    ∀ n, In n (neighbors b c r) → revealed_at b' n ∨ flagged_at b' n.
Proof using shuffle_perm.
  intros Hcfg Hreach Hp Hx Hflag Hdepth.
  destruct (reachable_inv _ _ _ b Hcfg Hreach) as [[Hinv _] _].
  destruct (reveal_total depth b c r Hinv Hdepth) as [b' Hrun].
  exists b'. split; [done|].
  destruct depth as [|depth]; [done|].
  pose proof Hx as [Hin Hlk]%cell_at_Some.
  destruct (reveal_fresh depth b c r Hinv Hp Hin)
    as (b1 & _ & Heq & Hinv1 & [Hev1 Hfl1] & Hp1 & _ & Hgo1 & _ & Hrevsame & Hzone).
  rewrite Heq in Hrun.
  destruct (cell_at_evolves _ _ c r _ Hev1 Hx) as (x1 & Hx1 & _).
  pose proof Hx1 as [Hin1 Hlk1]%cell_at_Some.
  rewrite (evolves_slot b b1) in Hlk1 by done.
  assert (is_flagged (state x1) = false) as Hflag1.
  { rewrite (Hfl1 (slot b c r) x x1 Hlk Hlk1). done. }
  assert (is_revealed (state x1) = false) as Hrev1.
  { rewrite (Hrevsame _ _ _ Hlk Hlk1).
    destruct (inv_fresh _ Hinv Hp) as (Hall & _).
    apply Hall. by eapply list_elem_of_lookup_2. }
  assert (is_mine (state x1) = false) as Hmine1.
  { apply (Hzone (c, r) x1); [by left | done]. }
  destruct (reveal_inv _ b1 c r b' Hinv1 Hrun) as [Hinv' [Hev' Hfl']].
  destruct (reveal_flood (S depth) b1 c r b' Hinv1 Hp1 Hgo1) as (Hgo' & _ & Hclosed & Htarget);
    [intros y Hy; congruence | done |].
  assert (revealed_at b' (c, r)) as Hopen.
  { destruct (Htarget Hin1) as [|(y & Hy & Hyf)]; [done|]. exfalso.
    simpl in Hy. apply cell_at_Some in Hy as [_ Hy].
    rewrite (evolves_slot b1 b'), (evolves_slot b b1) in Hy by done.
    rewrite (Hfl' (slot b c r) x1 y Hlk1 Hy) in Hyf. congruence. }
  split_and!; [by apply (ev_placed _ _ Hev') | done | done |].
  intros n Hn. apply (Hclosed (c, r) n).
  - by exists x1.
  - done.
  - exists x1. split_and!; [done | done |].
    destruct (inv_mines _ Hinv1 Hp1) as [_ Hadj].
    rewrite (Hadj c r x1 Hx1 Hmine1). unfold mines_around.
    rewrite filter_none; [done|]. intros q Hq. unfold mine_at.
    rewrite (evolves_neighbors b b1) in Hq by done.
    destruct (cells b1 !! Z.to_nat (index b1 q.1 q.2)) as [y|] eqn:Hy; [|done].
    rewrite (Hzone q y); [done | by right |].
    apply cell_at_Some. split; [|done].
    rewrite (evolves_is_inbounds b b1) by done. by eapply neighbors_inbounds.
  - simpl. by rewrite (evolves_neighbors b b1).
Qed.

(** X11.  Shape of the grid.  Every reachable board, whatever the
    configuration, has the dimensions it was built with and one cell per
    coordinate pair, and the cell found at [(c, r)] through [index] is
    the one whose [col] and [row] fields are [c] and [r]. *)
Theorem board_shape (ncols nrows mines : Z) (b : Board) :
  reachable ncols nrows mines b →
  cols b = ncols ∧ rows b = nrows ∧
  length (cells b) = (Z.to_nat nrows * Z.to_nat ncols)%nat ∧
  ∀ c r, is_inbounds b c r = true →
    ∃ x, cell_at b c r = Some x ∧ col x = c ∧ row x = r.
Proof using shuffle_perm.
  intros Hreach. pose proof (reachable_layout _ _ _ b Hreach) as (Hsized & _).
  assert (layout_inv (new_board ncols nrows mines)) as H0
    by (apply (reachable_layout ncols nrows mines); apply rtc_refl).
  destruct (steps_layout _ b H0 Hreach) as [_ Hev].
  pose proof (ev_cols _ _ Hev) as Hc. pose proof (ev_rows _ _ Hev) as Hr.
  simpl in Hc, Hr. split_and!; [done | done | by rewrite Hsized, Hc, Hr |].
  intros c r Hin. pose proof Hin as [Hcb Hrb]%is_inbounds_spec.
  destruct (ev_cells _ _ Hev (slot b c r) (new_cell c r)) as (x & Hx & Hcol & Hrow & _).
  { simpl. unfold slot, index. rewrite Hc. apply grid_lookup; lia. }
  exists x. split_and!; [by apply cell_at_Some | done | done].
Qed.

(** ** The presentation layer: pixels and cells *)

Lemma obind_Ok {A B : Type} (m : outcome A) (k : A → outcome B) (y : B) :
  obind m k = Ok y → ∃ a, m = Ok a ∧ k a = Ok y.
Proof. destruct m as [a|e]; simpl; [eauto | discriminate]. Qed.

(** Past the two margin tests of [pos_to_grid] the cell size is not 0:
    with a cell size of 0 the grid area [margin_left <= x < width -
    margin_right] is empty. *)
Lemma grid_area_cell_size (cfg : Config) (x : Z) :
  (margin_left cfg <=? x) && (x <? width cfg - margin_right cfg) = true →
  cell_size cfg ≠ 0.
Proof. unfold width. intros H Hz. rewrite Hz in H. lia. Qed.

Lemma pos_to_grid_total (cfg : Config) (b : Board) (x y : Z) :
  ∃ c r, pos_to_grid cfg b x y = Ok (c, r) ∧
    ((c = -1 ∧ r = -1) ∨ is_inbounds b c r = true).
Proof.
  unfold pos_to_grid.
  destruct ((margin_left cfg <=? x) && (x <? width cfg - margin_right cfg)) eqn:Hx;
    simpl; [|exists (-1), (-1); auto].
  destruct ((margin_top cfg <=? y) && (y <? height cfg - margin_bottom cfg)) eqn:Hy;
    simpl; [|exists (-1), (-1); auto].
  pose proof (grid_area_cell_size cfg x Hx) as Hcs.
  unfold floordiv. destruct (Z.eqb_spec (cell_size cfg) 0) as [|_]; [done|]. simpl.
  set (c := (x - margin_left cfg) / cell_size cfg).
  set (r := (y - margin_top cfg) / cell_size cfg).
  destruct ((0 <=? c) && (c <? cols b) && ((0 <=? r) && (r <? rows b))) eqn:Hin.
  - exists c, r. split; [done|]. by right.
  - exists (-1), (-1). auto.
Qed.

(** X12.  [pos_to_grid] always returns, for any configuration, board and
    pixel: it never divides by zero, and its result is either
    [(-1, -1)] or the coordinates of a cell of the board. *)
Theorem pos_to_grid_range (cfg : Config) (b : Board) (x y : Z) :
  pos_to_grid cfg b x y = Ok (-1, -1) ∨
  ∃ c r, pos_to_grid cfg b x y = Ok (c, r) ∧
    0 ≤ c < cols b ∧ 0 ≤ r < rows b.
Proof.
  destruct (pos_to_grid_total cfg b x y) as (c & r & Hrun & [[-> ->]|Hin]).
  - by left.
  - right. exists c, r. split; [done|]. by apply is_inbounds_spec.
Qed.

(** The quotient used by [pos_to_grid], for a positive cell size. *)
Lemma pixel_cell (cs m x c : Z) :
  0 < cs → (m + c * cs ≤ x < m + c * cs + cs ↔ (x - m) / cs = c).
Proof.
  intros Hcs. split.
  - intros H. symmetry. apply (Z.div_unique_pos _ _ _ (x - m - c * cs)); lia.
  - intros <-. pose proof (Z.mul_div_le (x - m) cs Hcs).
    pose proof (Z.mul_succ_div_gt (x - m) cs Hcs). lia.
Qed.

(** X13.  [pos_to_grid] inverts [cell_rect]: with a positive cell size
    and a board no larger than the configured grid, a pixel lies in the
    rectangle of the cell [(c, r)] of the board exactly when
    [pos_to_grid] maps it to [(c, r)]. *)
Theorem pos_to_grid_cell_rect (cfg : Config) (b : Board) (c r x y : Z) :
  0 < cell_size cfg →
  cols b ≤ cfg_cols cfg →
  rows b ≤ cfg_rows cfg →
  is_inbounds b c r = true →
  collidepoint (cell_rect cfg c r) (x, y) = true ↔
  pos_to_grid cfg b x y = Ok (c, r).
Proof.
  intros Hcs Hcols Hrows [Hc Hr]%is_inbounds_spec.
  pose proof (pixel_cell (cell_size cfg) (margin_left cfg) x c Hcs) as Hpx.
  pose proof (pixel_cell (cell_size cfg) (margin_top cfg) y r Hcs) as Hpy.
  unfold collidepoint, cell_rect, pos_to_grid, width, height, floordiv. simpl.
  destruct (Z.eqb_spec (cell_size cfg) 0) as [|_]; [lia|].
  split.
  - intros H.
    assert ((x - margin_left cfg) / cell_size cfg = c) as Hqx by (apply Hpx; lia).
    assert ((y - margin_top cfg) / cell_size cfg = r) as Hqy by (apply Hpy; lia).
    assert ((margin_left cfg <=? x) &&
            (x <? margin_left cfg + cfg_cols cfg * cell_size cfg
                  + margin_right cfg - margin_right cfg) = true) as -> by nia.
    assert ((margin_top cfg <=? y) &&
            (y <? margin_top cfg + cfg_rows cfg * cell_size cfg
                  + margin_bottom cfg - margin_bottom cfg) = true) as -> by nia.
    simpl. rewrite Hqx, Hqy.
    assert ((0 <=? c) && (c <? cols b) && ((0 <=? r) && (r <? rows b)) = true) as ->
      by lia.
    done.
  - destruct ((margin_left cfg <=? x) && _) eqn:Hx; simpl; [|intros [= <- <-]; lia].
    destruct ((margin_top cfg <=? y) && _) eqn:Hy; simpl; [|intros [= <- <-]; lia].
    destruct ((0 <=? _) && _ && _) eqn:Hin; [|intros [= <- <-]; lia].
    intros [= Hqx Hqy]. apply Hpx in Hqx. apply Hpy in Hqy. lia.
Qed.

(** ** The presentation layer: hint and highlight *)

(** A loop that reads the cell at each coordinate pair of a list and
    keeps the pairs whose cell passes a test. *)
Lemma collect_cells {T : Type} (b : Board) (f : Cell → bool) (add : T → pos → T)
    (l : list pos) (acc : T) :
  sized b (cells b) →
  (∀ p, p ∈ l → is_inbounds b p.1 p.2 = true) →
  for_each
    (λ acc p, kx ←! getitem (cells b) (index b p.1 p.2);
              if f kx.2 then Ret (add acc p) else Ret acc) l acc =
  Ret (fold_left (λ acc p, if cell_test f b p then add acc p else acc) l acc).
Proof.
  intros Hs. revert acc. induction l as [|p l IH]; intros acc Hin; [done|].
  simpl. destruct (getitem_inbounds b (cells b) p.1 p.2 Hs) as (x & Hx & ->).
  { apply Hin. left. }
  simpl. unfold cell_test at 2. unfold cell_at.
  rewrite (Hin p) by left. rewrite Hx.
  destruct (f x); apply IH; intros q Hq; apply Hin; by right.
Qed.

Lemma fold_left_filter_app {A : Type} (f : A → bool) (l acc : list A) :
  fold_left (λ acc p, if f p then acc ++ [p] else acc) l acc = acc ++ List.filter f l.
Proof.
  revert acc. induction l as [|a l IH]; intros acc; simpl; [by rewrite app_nil_r|].
  rewrite IH. destruct (f a); [by rewrite <- app_assoc | done].
Qed.

Lemma fold_left_filter_set (f : pos → bool) (l : list pos) (acc : gset pos) :
  ∀ q, q ∈ fold_left (λ acc p, if f p then {[ p ]} ∪ acc else acc) l acc ↔
       q ∈ acc ∨ (In q l ∧ f q = true).
Proof.
  revert acc. induction l as [|a l IH]; intros acc q; simpl; [tauto|].
  rewrite IH. destruct (f a) eqn:Hfa.
  - rewrite elem_of_union, elem_of_singleton. split.
    + intros [[->|?]|[? ?]]; auto.
    + intros [?|[[<-|?] ?]]; auto.
  - split; [tauto|]. intros [?|[[<-|?] ?]]; [auto | congruence | auto].
Qed.

Lemma choice_elem {A : Type} (rnd : nat) (l : list A) :
  l ≠ [] → ∃ a, choice rnd l = Ret a ∧ a ∈ l.
Proof.
  intros Hne. unfold choice.
  destruct (lookup_lt_is_Some_2 l (rnd `mod` length l)%nat) as [a Ha].
  { apply Nat.mod_upper_bound. by destruct l. }
  rewrite Ha. exists a. split; [done | by eapply list_elem_of_lookup_2].
Qed.

(** [give_hint] on a board with one cell per coordinate pair: it
    returns; when no cell is hintable the game is unchanged; otherwise
    the hint is put on a hintable cell for one second and nothing else
    changes. *)
Lemma give_hint_spec (g : Game) (now : Z) (rnd : nat) :
  sized (board g) (cells (board g)) →
  (give_hint g now rnd = Ret g ∧
   ∀ c r x, cell_at (board g) c r = Some x → hintable x = false) ∨
  (∃ p x,
     give_hint g now rnd = Ret (set_hint_until_ms (now + 1000) (set_hint_pos p g)) ∧
     cell_at (board g) p.1 p.2 = Some x ∧ hintable x = true).
Proof.
  intros Hs. unfold give_hint.
  rewrite (collect_cells (board g) hintable (λ acc p, acc ++ [p])) by
    (done || by intros p Hp%grid_pair_inbounds).
  rewrite fold_left_filter_app. simpl.
  destruct (List.filter _ _) as [|q l] eqn:Hl.
  - left. split; [done|]. intros c r x Hx.
    destruct (hintable x) eqn:Hh; [|done]. exfalso.
    assert (In (c, r) (List.filter (cell_test hintable (board g))
              (grid (λ c r, (c, r)) (cols (board g)) (rows (board g))))) as Hin.
    { apply filter_In. split.
      - apply list_elem_of_In, grid_pair_inbounds. by apply cell_at_Some in Hx as [? _].
      - unfold cell_test. simpl. by rewrite Hx. }
    rewrite Hl in Hin. done.
  - right. destruct (choice_elem rnd (q :: l)) as (p & Hp & Hel); [done|].
    rewrite Hp. simpl.
    assert (In p (List.filter (cell_test hintable (board g))
              (grid (λ c r, (c, r)) (cols (board g)) (rows (board g))))) as Hin.
    { rewrite Hl. by apply list_elem_of_In. }
    apply filter_In in Hin as [_ Ht]. unfold cell_test in Ht.
    destruct (cell_at (board g) p.1 p.2) as [x|] eqn:Hx; [|done].
    by exists p, x.
Qed.

(** X14.  A left click on a cell of the grid is one [reveal]: on a
    reachable board the second [board.reveal(col, row)] of the handler
    changes nothing and its second start test is never taken.  The
    handler clears the highlight, starts the game (recording the clock
    if it had not started) and raises exactly when the first [reveal]
    does. *)
Theorem left_click_reveals_once (ncols nrows mines : Z) (cfg : Config) (g : Game)
    (p : pos) (button now : Z) (rnd depth : nat) (c r : Z) :
  valid_config ncols nrows mines →
  reachable ncols nrows mines (board g) →
  margin_top cfg ≤ p.2 →
  pos_to_grid cfg (board g) p.1 p.2 = Ok (c, r) →
  c ≠ -1 →
  button = mouse_left cfg →
  handle_mouse cfg g p button now rnd depth =
  match reveal depth (board g) c r with
  | Ret b' =>
      Ok (cfg, mkGame b' ∅ (highlight_until_ms g) true
                 (if started g then start_ticks_ms g else now)
                 (end_ticks_ms g) (paused g) (paused_start_ticks g)
                 (pause_start_ticks g) (hover_pos g) (hint_pos g) (hint_until_ms g))
  | Raise e => Error (BoardError e)
  end.
Proof using shuffle_perm.
  intros Hcfg Hreach Hy Hpos Hc ->.
  destruct (reachable_inv _ _ _ _ Hcfg Hreach) as [[Hinv _] _].
  unfold handle_mouse.
  destruct (Z.ltb_spec p.2 (margin_top cfg)) as [|_]; [lia|].
  rewrite Hpos. simpl.
  destruct (Z.eqb_spec c (-1)) as [|_]; [done|]. rewrite Z.eqb_refl.
  destruct (started g) eqn:Hst; simpl;
    (destruct (reveal depth (board g) c r) as [b'|e] eqn:Hrun; simpl; [|done]);
    rewrite ?Hst; simpl; rewrite (reveal_again depth (board g) b' c r Hinv Hrun); simpl;
    unfold set_board, set_start_ticks_ms, set_started, set_highlight_targets; simpl;
    by rewrite ?Hst.
Qed.

(** X15.  [give_hint] on the board of a game, for any reachable board:
    it returns; if no cell is closed, unflagged and free of a mine the
    game is unchanged; otherwise the hint is put for 1000 ms on such a
    cell and nothing else changes. *)
Theorem give_hint_picks_safe_cell (ncols nrows mines : Z) (g : Game)
    (now : Z) (rnd : nat) :
  reachable ncols nrows mines (board g) →
  (give_hint g now rnd = Ret g ∧
   ∀ c r x, cell_at (board g) c r = Some x →
     is_mine (state x) = true ∨ is_revealed (state x) = true ∨
     is_flagged (state x) = true) ∨
  (∃ p x,
     give_hint g now rnd = Ret (set_hint_until_ms (now + 1000) (set_hint_pos p g)) ∧
     cell_at (board g) p.1 p.2 = Some x ∧
     is_mine (state x) = false ∧ is_revealed (state x) = false ∧
     is_flagged (state x) = false).
Proof using shuffle_perm.
  intros Hreach. pose proof (reachable_layout _ _ _ _ Hreach) as (Hs & _).
  destruct (give_hint_spec g now rnd Hs) as [[Hrun Hnone]|(p & x & Hrun & Hx & Hh)].
  - left. split; [done|]. intros c r x Hx. specialize (Hnone c r x Hx).
    unfold hintable in Hnone.
    destruct (is_mine (state x)), (is_revealed (state x)), (is_flagged (state x));
      simpl in Hnone; auto; done.
  - right. exists p, x. unfold hintable in Hh.
    destruct (is_mine (state x)), (is_revealed (state x)), (is_flagged (state x));
      simpl in Hh; try done.
Qed.

(** X16.  The highlight of a middle click: on a reachable board the set
    comprehension returns, and it holds exactly the neighbours of the
    cell that are not revealed. *)
Theorem closed_neighbors_spec (ncols nrows mines : Z) (b : Board) (c r : Z) :
  reachable ncols nrows mines b →
  ∃ targets, closed_neighbors b c r = Ret targets ∧
    ∀ n, n ∈ targets ↔ In n (neighbors b c r) ∧ closed_at b n.
Proof using shuffle_perm.
  intros Hreach. pose proof (reachable_layout _ _ _ _ Hreach) as (Hs & _).
  unfold closed_neighbors.
  rewrite (collect_cells b (λ x, negb (is_revealed (state x))) (λ acc n, {[ n ]} ∪ acc))
    by (done || by intros n Hn%list_elem_of_In%neighbors_inbounds).
  eexists. split; [done|]. intros n. rewrite fold_left_filter_set.
  unfold cell_test, closed_at. split.
  - intros [?|[Hn Ht]]; [set_solver|]. split; [done|].
    destruct (cell_at b n.1 n.2) as [x|]; [|done].
    exists x. split; [done|]. by destruct (is_revealed (state x)).
  - intros [Hn (x & Hx & Hrev)]. right. split; [done|]. by rewrite Hx, Hrev.
Qed.

(** ** The presentation layer: invariant of the running program *)

Lemma new_game_inv (cfg0 : Config) : game_inv cfg0 (cfg0, new_game cfg0).
Proof.
  split; simpl; try done.
  - by destruct cfg0.
  - by left.
  - apply rtc_refl.
  - by left.
Qed.

(** A change of the game that leaves the board alone. *)
Lemma game_inv_frame (cfg0 cfg cfg' : Config) (g g' : Game) :
  game_inv cfg0 (cfg, g) →
  cfg' = set_color_flag (color_flag cfg') cfg0 →
  color_flag cfg' = color_flag cfg0 ∨ color_flag cfg' ∈ (flag_color_options cfg0).*2 →
  board g' = board g →
  started g' = started g →
  paused_start_ticks g' = 0 →
  (paused g' = true →
     is_Some (pause_start_ticks g') ∧ started g = true ∧
     game_over (board g) = false ∧ win (board g) = false) →
  (end_ticks_ms g' ≠ 0 → game_over (board g) || win (board g) = true) →
  hint_pos g' = hint_pos g ∨
    (mines_placed (board g) = true ∧
     ∃ x, cell_at (board g) (hint_pos g').1 (hint_pos g').2 = Some x ∧
       is_mine (state x) = false) →
  (hint_button cfg0 = Error AttributeError → cfg' = cfg ∧ hint_pos g' = hint_pos g) →
  game_inv cfg0 (cfg', g').
Proof.
  intros Hinv Hcfg Hcol Hb Hst Hps Hp He Hh Hno.
  split; simpl; rewrite ?Hb, ?Hst; try done.
  - apply (gi_board _ _ Hinv).
  - apply (gi_started _ _ Hinv).
  - destruct Hh as [->|Hh]; [apply (gi_hint _ _ Hinv) | by right].
  - intros Hnb. destruct (Hno Hnb) as [-> ->]. apply (gi_no_button _ _ Hinv Hnb).
Qed.

Lemma hint_button_config (cfg0 cfg : Config) :
  cfg = set_color_flag (color_flag cfg) cfg0 → hint_button cfg = hint_button cfg0.
Proof. by intros ->. Qed.

(** A call of [reveal] or [toggle_flag] on the board of a game that is
    not paused. *)
Lemma game_inv_step (cfg0 cfg : Config) (g g' : Game) :
  valid_config (cfg_cols cfg0) (cfg_rows cfg0) (cfg_num_mines cfg0) →
  game_inv cfg0 (cfg, g) →
  step (board g) (board g') →
  started g' = mines_placed (board g') →
  paused g' = false →
  paused_start_ticks g' = 0 →
  end_ticks_ms g' = end_ticks_ms g →
  hint_pos g' = hint_pos g →
  game_inv cfg0 (cfg, g').
Proof using shuffle_perm.
  intros Hvalid Hinv Hstep Hst Hp Hps He Hh.
  pose proof (gi_board _ _ Hinv) as Hreach. simpl in Hreach.
  destruct (reachable_inv _ _ _ _ Hvalid Hreach) as [Hb _].
  destruct (step_inv _ _ Hb Hstep) as [_ Hev].
  split; simpl; try done.
  - apply (gi_config _ _ Hinv).
  - apply (gi_color _ _ Hinv).
  - eapply rtc_r; [exact Hreach | exact Hstep].
  - rewrite Hp. done.
  - rewrite He. intros Hend. pose proof (gi_end _ _ Hinv Hend) as Hover. simpl in Hover.
    apply orb_true_iff in Hover as [Hgo|Hw].
    + by rewrite (ev_game_over _ _ Hev Hgo).
    + rewrite (ev_win _ _ Hev Hw). apply orb_true_r.
  - rewrite Hh. destruct (gi_hint _ _ Hinv) as [?|[Hpl (x & Hx & Hm)]]; [by left|].
    simpl in *. right. split; [by apply (ev_placed _ _ Hev)|].
    destruct (cell_at_evolves _ _ _ _ _ Hev Hx) as (x' & Hx' & _ & Hsame).
    exists x'. split; [done|]. destruct (Hsame Hpl) as [-> _]. done.
  - rewrite Hh. apply (gi_no_button _ _ Hinv).
Qed.

Lemma clicked_color_elem (cfg : Config) (p : pos) (i : Z)
    (options : list (string * color)) (c : color) :
  clicked_color cfg p i options = Some c → c ∈ options.*2.
Proof.
  revert i. induction options as [|[name c'] options IH]; intros i; simpl; [done|].
  destruct (collidepoint _ p).
  - intros [= <-]. left.
  - intros H. right. by eapply IH.
Qed.

Lemma toggle_flag_placed (b b' : Board) (c r : Z) :
  board_inv b → toggle_flag b c r = Ret b' → mines_placed b' = mines_placed b.
Proof.
  intros Hb. rewrite (toggle_flag_spec b c r Hb). intros [= <-].
  destruct (cell_at b c r) as [x|]; [|done]. by destruct (is_revealed (state x)).
Qed.

(** [handle_mouse], which [run_step] calls on a game that is not
    paused, keeps the invariant when it returns. *)
Lemma handle_mouse_inv (cfg0 cfg : Config) (g : Game) (p : pos) (button now : Z)
    (rnd depth : nat) (st' : Config * Game) :
  valid_config (cfg_cols cfg0) (cfg_rows cfg0) (cfg_num_mines cfg0) →
  game_inv cfg0 (cfg, g) →
  paused g = false →
  handle_mouse cfg g p button now rnd depth = Ok st' →
  game_inv cfg0 st'.
Proof using shuffle_perm.
  intros Hvalid Hinv Hnp.
  pose proof (gi_board _ _ Hinv) as Hreach. simpl in Hreach.
  destruct (reachable_inv _ _ _ _ Hvalid Hreach) as [Hb _].
  pose proof (gi_config _ _ Hinv) as Hc0. simpl in Hc0.
  pose proof (gi_started _ _ Hinv) as Hst. simpl in Hst.
  unfold handle_mouse. destruct (p.2 <? margin_top cfg).
  - destruct (button =? mouse_left cfg); [|by intros [= <-]].
    destruct (hint_button cfg) as [hint_rect|] eqn:Hhb; simpl; [|done].
    assert (hint_button cfg0 ≠ Error AttributeError) as Hbutton.
    { rewrite <- (hint_button_config cfg0 cfg Hc0), Hhb. done. }
    destruct (collidepoint _ p && started g && negb (paused g)) eqn:Hcond.
    + apply andb_true_iff in Hcond as [[_ Hs]%andb_true_iff _].
      destruct (give_hint_spec g now rnd (inv_sized _ (proj1 Hb)))
        as [[-> _]|(q & x & -> & Hx & Hh)]; simpl; intros [= <-]; [done|].
      apply (game_inv_frame cfg0 cfg cfg g); simpl; try done.
      * apply (gi_color _ _ Hinv).
      * apply (gi_paused_start _ _ Hinv).
      * rewrite Hnp. done.
      * apply (gi_end _ _ Hinv).
      * right. split; [congruence|]. exists x. split; [done|].
        unfold hintable in Hh. by destruct (is_mine (state x)).
    + destruct (clicked_color cfg p 0 (flag_color_options cfg)) as [c|] eqn:Hcc;
        intros [= <-]; [|done].
      apply (game_inv_frame cfg0 cfg _ g); simpl; try done.
      * rewrite Hc0. reflexivity.
      * right. apply clicked_color_elem in Hcc. by rewrite Hc0 in Hcc.
      * apply (gi_paused_start _ _ Hinv).
      * apply (gi_paused _ _ Hinv).
      * apply (gi_end _ _ Hinv).
      * by left.
  - destruct (pos_to_grid_total cfg (board g) p.1 p.2) as (c & r & -> & Hcr). simpl.
    destruct (Z.eqb_spec c (-1)) as [|Hc]; [by intros [= <-]|].
    destruct Hcr as [[? _]|Hin]; [done|].
    destruct (button =? mouse_left cfg).
    { destruct (started g) eqn:Hs; simpl;
        (destruct (reveal depth (board g) c r) as [b3|] eqn:Hrun; simpl; [|done]);
        rewrite ?Hs; simpl;
        rewrite (reveal_again depth (board g) b3 c r (proj1 Hb) Hrun); simpl;
        intros [= <-];
        destruct (reveal_target depth (board g) b3 c r (proj1 Hb) Hin Hrun) as [Hp3 _];
        (apply (game_inv_step cfg0 cfg g); simpl; rewrite ?Hs;
         [done | done | by apply (step_reveal depth _ c r) | done | done
         | apply (gi_paused_start _ _ Hinv) | done | done]). }
    destruct (button =? mouse_right cfg).
    { simpl. destruct (toggle_flag (board g) c r) as [b2|] eqn:Htf; simpl; [|done].
      intros [= <-].
      apply (game_inv_step cfg0 cfg g); simpl; try done.
      - by apply (step_toggle_flag _ c r).
      - rewrite (toggle_flag_placed _ _ _ _ Hb Htf). done.
      - apply (gi_paused_start _ _ Hinv). }
    destruct (button =? mouse_middle cfg); [|by intros [= <-]].
    destruct (closed_neighbors (board g) c r) as [targets|]; simpl; [|done].
    intros [= <-].
    apply (game_inv_frame cfg0 cfg cfg g); simpl; try done.
    + apply (gi_color _ _ Hinv).
    + apply (gi_paused_start _ _ Hinv).
    + apply (gi_paused _ _ Hinv).
    + apply (gi_end _ _ Hinv).
    + by left.
Qed.

Lemma handle_event_inv (cfg0 cfg : Config) (g : Game) (ev : Event) (now : Z)
    (rnd depth : nat) (st' : Config * Game) :
  valid_config (cfg_cols cfg0) (cfg_rows cfg0) (cfg_num_mines cfg0) →
  game_inv cfg0 (cfg, g) →
  handle_event cfg g ev now rnd depth = Ok st' →
  game_inv cfg0 st'.
Proof using shuffle_perm.
  intros Hvalid Hinv. destruct ev as [| |p button|]; simpl; try by intros [= <-].
  - destruct (negb (game_over (board g)) && negb (win (board g)) && started g)
      eqn:Hplay; [|by intros [= <-]].
    destruct (paused g) eqn:Hp; simpl; intros [= <-]; [done|].
    apply andb_true_iff in Hplay as [[Hgo Hw]%andb_true_iff Hs].
    apply negb_true_iff in Hgo, Hw.
    apply (game_inv_frame cfg0 cfg cfg g); simpl; try done.
    + apply (gi_config _ _ Hinv).
    + apply (gi_color _ _ Hinv).
    + apply (gi_paused_start _ _ Hinv).
    + apply (gi_end _ _ Hinv).
    + by left.
  - destruct (paused g) eqn:Hp; [|by apply handle_mouse_inv].
    destruct (button =? mouse_left cfg); [|by intros [= <-]].
    destruct (pause_start_ticks g) as [t|]; [|done]. intros [= <-].
    apply (game_inv_frame cfg0 cfg cfg g); simpl; try done.
    + apply (gi_config _ _ Hinv).
    + apply (gi_color _ _ Hinv).
    + apply (gi_paused_start _ _ Hinv).
    + apply (gi_end _ _ Hinv).
    + by left.
Qed.

Lemma update_end_ticks_inv (cfg0 cfg : Config) (g : Game) (now : Z) :
  game_inv cfg0 (cfg, g) → game_inv cfg0 (cfg, update_end_ticks g now).
Proof.
  intros Hinv. unfold update_end_ticks.
  destruct ((game_over (board g) || win (board g)) && started g
            && (end_ticks_ms g =? 0)) eqn:Hend; [|done].
  apply andb_true_iff in Hend as [[Hover _]%andb_true_iff _].
  apply (game_inv_frame cfg0 cfg cfg g); simpl; try done.
  - apply (gi_config _ _ Hinv).
  - apply (gi_color _ _ Hinv).
  - apply (gi_paused_start _ _ Hinv).
  - apply (gi_paused _ _ Hinv).
  - by left.
Qed.

Lemma expire_highlight_inv (cfg0 cfg : Config) (g : Game) (now : Z) :
  game_inv cfg0 (cfg, g) → game_inv cfg0 (cfg, expire_highlight g now).
Proof.
  intros Hinv. unfold expire_highlight.
  destruct ((highlight_until_ms g <? now)
            && negb (bool_decide (highlight_targets g = ∅))); [|done].
  apply (game_inv_frame cfg0 cfg cfg g); simpl; try done.
  - apply (gi_config _ _ Hinv).
  - apply (gi_color _ _ Hinv).
  - apply (gi_paused_start _ _ Hinv).
  - apply (gi_paused _ _ Hinv).
  - apply (gi_end _ _ Hinv).
  - by left.
Qed.

Lemma ui_steps_inv (cfg0 : Config) (st0 st : Config * Game) :
  valid_config (cfg_cols cfg0) (cfg_rows cfg0) (cfg_num_mines cfg0) →
  rtc ui_step st0 st → game_inv cfg0 st0 → game_inv cfg0 st.
Proof using shuffle_perm.
  intros Hvalid Hsteps. induction Hsteps as [st1|st1 st2 st3 Hstep _ IH]; [done|].
  intros H1. apply IH.
  destruct Hstep as [cfg g ev now rnd depth st' Hrun | cfg g now | cfg g now].
  - by eapply handle_event_inv.
  - by apply update_end_ticks_inv.
  - by apply expire_highlight_inv.
Qed.

Lemma ui_reachable_inv (cfg0 : Config) (st : Config * Game) :
  valid_config (cfg_cols cfg0) (cfg_rows cfg0) (cfg_num_mines cfg0) →
  ui_reachable cfg0 st → game_inv cfg0 st.
Proof using shuffle_perm.
  intros Hvalid Hreach. apply (ui_steps_inv cfg0 (cfg0, new_game cfg0)); try done.
  apply new_game_inv.
Qed.

(** ** The presentation layer: which events raise *)

Lemma closed_cells_le (b : Board) : (closed_cells b ≤ length (cells b))%nat.
Proof. unfold closed_cells. lia. Qed.

(** [handle_mouse] raises on a left click in the header when the hint
    button is not defined, and returns in every other case. *)
Lemma handle_mouse_outcome (cfg0 cfg : Config) (g : Game) (p : pos) (button now : Z)
    (rnd depth : nat) :
  valid_config (cfg_cols cfg0) (cfg_rows cfg0) (cfg_num_mines cfg0) →
  game_inv cfg0 (cfg, g) →
  (Z.to_nat (cfg_rows cfg0) * Z.to_nat (cfg_cols cfg0) < depth)%nat →
  if (p.2 <? margin_top cfg) && (button =? mouse_left cfg) then
    match hint_button cfg with
    | Ok _ => ∃ st', handle_mouse cfg g p button now rnd depth = Ok st'
    | Error e => handle_mouse cfg g p button now rnd depth = Error e
    end
  else ∃ st', handle_mouse cfg g p button now rnd depth = Ok st'.
Proof using shuffle_perm.
  intros Hvalid Hinv Hdepth.
  pose proof (gi_board _ _ Hinv) as Hreach. simpl in Hreach.
  destruct (reachable_inv _ _ _ _ Hvalid Hreach) as (Hb & Hcols & Hrows & _).
  pose proof (inv_sized _ (proj1 Hb)) as Hs.
  assert (closed_cells (board g) < depth)%nat as Hd.
  { pose proof (closed_cells_le (board g)). unfold sized in Hs.
    rewrite Hs, Hcols, Hrows in *. lia. }
  unfold handle_mouse. destruct (p.2 <? margin_top cfg); simpl.
  - destruct (button =? mouse_left cfg); [|eauto].
    destruct (hint_button cfg) as [hint_rect|e]; simpl; [|done].
    destruct (collidepoint _ p && started g && negb (paused g)).
    + destruct (give_hint_spec g now rnd Hs) as [[-> _]|(q & x & -> & _)];
        simpl; eauto.
    + destruct (clicked_color cfg p 0 (flag_color_options cfg)); eauto.
  - destruct (pos_to_grid_total cfg (board g) p.1 p.2) as (c & r & -> & _). simpl.
    destruct (c =? -1); [eauto|].
    destruct (button =? mouse_left cfg).
    { destruct (reveal_total depth (board g) c r (proj1 Hb) Hd) as [b3 Hrun].
      destruct (started g) eqn:Hst; simpl; rewrite Hrun; simpl; rewrite ?Hst; simpl;
        rewrite (reveal_again depth (board g) b3 c r (proj1 Hb) Hrun); simpl; eauto. }
    destruct (button =? mouse_right cfg).
    { simpl. rewrite (toggle_flag_spec (board g) c r Hb). simpl. eauto. }
    destruct (button =? mouse_middle cfg); [|eauto].
    unfold closed_neighbors.
    rewrite (collect_cells (board g) (λ x, negb (is_revealed (state x)))
               (λ acc n, {[ n ]} ∪ acc))
      by (done || by intros n Hn%list_elem_of_In%neighbors_inbounds).
    simpl. eauto.
Qed.

(** ** The presentation layer: properties of the running program *)

(** X17.  In every state of the running program (started from a valid
    configuration) the board of the game is a reachable board, so that
    every property of the reachable boards holds of it, and the game has
    started exactly when the mines have been placed. *)
Theorem game_board_reachable (cfg0 cfg : Config) (g : Game) :
  valid_config (cfg_cols cfg0) (cfg_rows cfg0) (cfg_num_mines cfg0) →
  ui_reachable cfg0 (cfg, g) →
  reachable (cfg_cols cfg0) (cfg_rows cfg0) (cfg_num_mines cfg0) (board g) ∧
  started g = mines_placed (board g).
Proof using shuffle_perm.
  intros Hvalid Hreach. pose proof (ui_reachable_inv cfg0 _ Hvalid Hreach) as Hinv.
  split; [apply (gi_board _ _ Hinv) | apply (gi_started _ _ Hinv)].
Qed.

(** X18.  The hint.  With a module [config] that does not define the
    hint button, as [config.py] is, no hint is ever given: [hint_pos]
    is [(-1, -1)] in every state of the running program, the click on
    the header raising [AttributeError] before [give_hint] is called.
    For any configuration, [hint_pos] is [(-1, -1)] or the coordinates
    of a cell of the board that is not a mine, however the board has
    changed since the hint was given. *)
Theorem hint_never_on_mine (cfg0 cfg : Config) (g : Game) :
  valid_config (cfg_cols cfg0) (cfg_rows cfg0) (cfg_num_mines cfg0) →
  ui_reachable cfg0 (cfg, g) →
  (hint_button cfg0 = Error AttributeError → hint_pos g = (-1, -1)) ∧
  (hint_pos g = (-1, -1) ∨
   ∃ x, cell_at (board g) (hint_pos g).1 (hint_pos g).2 = Some x ∧
     is_mine (state x) = false).
Proof using shuffle_perm.
  intros Hvalid Hreach. pose proof (ui_reachable_inv cfg0 _ Hvalid Hreach) as Hinv.
  split.
  - intros Hno. by destruct (gi_no_button _ _ Hinv Hno).
  - destruct (gi_hint _ _ Hinv) as [?|[_ ?]]; [by left | by right].
Qed.

(** X19.  The game is paused only while in play: whenever [paused] is
    set, the game has started, is neither lost nor won, has no end time,
    and the attribute [pause_start_ticks] exists. *)
Theorem pause_only_in_play (cfg0 cfg : Config) (g : Game) :
  valid_config (cfg_cols cfg0) (cfg_rows cfg0) (cfg_num_mines cfg0) →
  ui_reachable cfg0 (cfg, g) →
  paused g = true →
  started g = true ∧ game_over (board g) = false ∧ win (board g) = false ∧
  end_ticks_ms g = 0 ∧ is_Some (pause_start_ticks g).
Proof using shuffle_perm.
  intros Hvalid Hreach Hp. pose proof (ui_reachable_inv cfg0 _ Hvalid Hreach) as Hinv.
  destruct (gi_paused _ _ Hinv Hp) as (Hsome & Hs & Hgo & Hw). simpl in *.
  split_and!; try done.
  destruct (Z.eq_dec (end_ticks_ms g) 0) as [|Hne]; [done|].
  pose proof (gi_end _ _ Hinv Hne) as Hover. simpl in Hover.
  rewrite Hgo, Hw in Hover. done.
Qed.

(** X20.  Which events raise.  From every state of the running program
    (valid configuration, call depth above the number of cells) the
    handling of an event raises in one case only: a left click in the
    header on a game that is not paused, when the module [config] does
    not define the hint button, as [config.py] is; the exception is
    [AttributeError].  Every other event is handled without an
    exception: no [IndexError], [RecursionError] or
    [ZeroDivisionError] occurs, nor an [AttributeError] on
    [pause_start_ticks]. *)
Theorem handle_event_raises (cfg0 cfg : Config) (g : Game) (ev : Event)
    (now : Z) (rnd depth : nat) :
  valid_config (cfg_cols cfg0) (cfg_rows cfg0) (cfg_num_mines cfg0) →
  ui_reachable cfg0 (cfg, g) →
  (Z.to_nat (cfg_rows cfg0) * Z.to_nat (cfg_cols cfg0) < depth)%nat →
  (∀ p, ev = MOUSEBUTTONDOWN p (mouse_left cfg) → paused g = false →
     p.2 < margin_top cfg → hint_button cfg = Error AttributeError →
     handle_event cfg g ev now rnd depth = Error AttributeError) ∧
  ((∀ p, ev = MOUSEBUTTONDOWN p (mouse_left cfg) → paused g = false →
      p.2 < margin_top cfg → ∃ hint_rect, hint_button cfg = Ok hint_rect) →
   ∃ st', handle_event cfg g ev now rnd depth = Ok st').
Proof using shuffle_perm.
  intros Hvalid Hreach Hdepth.
  pose proof (ui_reachable_inv cfg0 _ Hvalid Hreach) as Hinv.
  split.
  - intros p -> Hnp Hy Hno. simpl. rewrite Hnp.
    pose proof (handle_mouse_outcome cfg0 cfg g p (mouse_left cfg) now rnd depth
                  Hvalid Hinv Hdepth) as Hout.
    rewrite Z.eqb_refl, Hno in Hout.
    destruct (Z.ltb_spec p.2 (margin_top cfg)) as [_|]; [done | lia].
  - intros Hbutton. destruct ev as [| |p button|]; simpl; eauto.
    + destruct (negb (game_over (board g)) && negb (win (board g)) && started g);
        [|eauto].
      destruct (paused g); simpl; eauto.
    + destruct (paused g) eqn:Hp.
      * destruct (button =? mouse_left cfg); [|eauto].
        destruct (gi_paused _ _ Hinv Hp) as [[t Ht] _]. simpl in Ht. rewrite Ht. eauto.
      * pose proof (handle_mouse_outcome cfg0 cfg g p button now rnd depth
                      Hvalid Hinv Hdepth) as Hout.
        destruct (Z.ltb_spec p.2 (margin_top cfg)) as [Hy|]; [|done].
        destruct (Z.eqb_spec button (mouse_left cfg)) as [->|]; [|done].
        simpl in Hout. destruct (Hbutton p eq_refl eq_refl Hy) as [hint_rect Hrect].
        by rewrite Hrect in Hout.
Qed.

(** X21.  The clock shown while paused.  [paused_start_ticks], which
    [_elapsed_ms] reads, is 0 in every state of the running program
    ([run_step] records the pause in [pause_start_ticks]); so while the
    game is paused [_elapsed_ms] is [- start_ticks_ms], whatever the
    clock says. *)
Theorem paused_clock (cfg0 cfg : Config) (g : Game) (now : Z) :
  valid_config (cfg_cols cfg0) (cfg_rows cfg0) (cfg_num_mines cfg0) →
  ui_reachable cfg0 (cfg, g) →
  paused_start_ticks g = 0 ∧
  (paused g = true → elapsed_ms g now = - start_ticks_ms g).
Proof using shuffle_perm.
  intros Hvalid Hreach. pose proof (ui_reachable_inv cfg0 _ Hvalid Hreach) as Hinv.
  pose proof (gi_paused_start _ _ Hinv) as Hps. simpl in Hps.
  split; [done|]. intros Hp.
  destruct (gi_paused _ _ Hinv Hp) as (_ & Hs & Hgo & Hw). simpl in *.
  unfold elapsed_ms. rewrite Hs, Hp, Hps. simpl.
  destruct (Z.eqb_spec (end_ticks_ms g) 0) as [|Hne]; simpl; [lia|].
  pose proof (gi_end _ _ Hinv Hne) as Hover. simpl in Hover.
  rewrite Hgo, Hw in Hover. done.
Qed.

(** X22.  The module [config] at run time.  With a module that does not
    define the hint button, as [config.py] is, the running program never
    changes [config]: the one assignment, to [color_flag], sits behind
    the read of [config.hint_button_x], which raises.  For any
    configuration only [color_flag] can change, and it is the initial
    colour or one of [flag_color_options]. *)
Theorem config_fixed (cfg0 cfg : Config) (g : Game) :
  valid_config (cfg_cols cfg0) (cfg_rows cfg0) (cfg_num_mines cfg0) →
  ui_reachable cfg0 (cfg, g) →
  (hint_button cfg0 = Error AttributeError → cfg = cfg0) ∧
  cfg = set_color_flag (color_flag cfg) cfg0 ∧
  (color_flag cfg = color_flag cfg0 ∨
   ∃ name, (name, color_flag cfg) ∈ flag_color_options cfg0).
Proof using shuffle_perm.
  intros Hvalid Hreach. pose proof (ui_reachable_inv cfg0 _ Hvalid Hreach) as Hinv.
  split; [|split; [apply (gi_config _ _ Hinv)|]].
  - intros Hno. by destruct (gi_no_button _ _ Hinv Hno).
  - destruct (gi_color _ _ Hinv) as [?|Hel]; [by left|]. right. simpl in Hel.
    apply list_elem_of_fmap in Hel as ([name c] & -> & Hel). by exists name.
Qed.

(** ** Further properties of the board: counts *)

Lemma count_cells_full (f : CellState → bool) (l : list Cell) :
  (∀ x, x ∈ l → f (state x) = true) → count_cells f l = length l.
Proof.
  unfold count_cells. induction l as [|a l IH]; intros Hall; [done|]. simpl.
  rewrite (Hall a) by left. simpl. f_equal. apply IH. intros x Hx. apply Hall. by right.
Qed.

(** X23.  While the game is not lost, [revealed_count] lies between 0
    and the number of safe cells, and [win] is set exactly when it has
    reached that number.  (The dimensions are counts: a board built
    with two negative dimensions has no cell, while [cols * rows] is
    positive.) *)
Theorem win_iff_all_safe_counted (ncols nrows mines : Z) (b : Board) :
  valid_config ncols nrows mines →
  0 ≤ ncols →
  reachable ncols nrows mines b →
  game_over b = false →
  0 ≤ revealed_count b ≤ cols b * rows b - num_mines b ∧
  (win b = true ↔ revealed_count b = cols b * rows b - num_mines b).
Proof using shuffle_perm.
  intros Hcfg Hnn Hreach Hgo.
  destruct (reachable_inv _ _ _ b Hcfg Hreach) as ([Hinv Hws] & Hcols & Hrows & _).
  destruct (inv_count _ Hinv Hgo) as [Hrc Hclosed].
  pose proof (inv_config _ Hinv) as Hconf.
  pose proof (inv_sized _ Hinv) as Hs. unfold sized in Hs.
  pose proof (count_cells_or is_revealed is_mine (cells b)) as Hor.
  assert (count_cells (λ s, is_revealed s && is_mine s) (cells b) = 0%nat) as Hboth.
  { apply count_cells_zero. intros x Hx.
    destruct (is_mine (state x)) eqn:Hm; [|apply andb_false_r].
    by rewrite (Hclosed x Hx Hm). }
  assert (Z.of_nat (length (cells b)) = cols b * rows b) as Hlen.
  { rewrite Hs, Hcols, Hrows. unfold valid_config in Hcfg. nia. }
  destruct (mines_placed b) eqn:Hp.
  2:{ destruct (inv_fresh _ Hinv Hp) as (_ & H0 & _ & Hw). split; [lia|].
      rewrite Hw. split; [done | lia]. }
  destruct (inv_mines _ Hinv Hp) as [Hnm _].
  pose proof (count_cells_le (λ s, is_revealed s || is_mine s) (cells b)) as Hle.
  split; [lia|]. split; [|by apply Hws].
  intros Hw. destruct (end_shown_reachable _ _ _ b Hcfg Hreach) as [_ Hwon].
  destruct (Hwon Hw) as [_ Hall].
  assert (count_cells (λ s, is_revealed s || is_mine s) (cells b) = length (cells b))
    as Hfull.
  { apply count_cells_full. intros x Hx.
    destruct (is_mine (state x)) eqn:Hm; [apply orb_true_r|].
    by rewrite (Hall x Hx Hm). }
  lia.
Qed.

Lemma slice_to_length {A : Type} (l : list A) (n : Z) :
  Z.of_nat (length (slice_to l n)) =
  if 0 <=? n then Z.min n (Z.of_nat (length l))
  else Z.max 0 (Z.of_nat (length l) + n).
Proof.
  unfold slice_to. destruct (Z.leb_spec 0 n); rewrite length_take; lia.
Qed.

(** X24.  Mine placement for any configuration.  On a board reachable
    from any constructor call and still without mines, [place_mines]
    returns; the cell given as safe and its neighbours get no mine; and
    the number of mines is what the slice [pool[:num_mines]] holds: the
    smaller of [num_mines] and the pool size, or, for a negative
    [num_mines], the pool size less its absolute value (at least 0). *)
Theorem place_mines_any_config (ncols nrows mines : Z) (b : Board) (c r : Z) :
  reachable ncols nrows mines b →
  mines_placed b = false →
  ∃ b1, place_mines b c r = Ret b1 ∧
    mines_placed b1 = true ∧
    Z.of_nat (count_cells is_mine (cells b1)) =
      (let pool := Z.of_nat (length (candidate_pool b c r)) in
       if 0 <=? num_mines b then Z.min (num_mines b) pool
       else Z.max 0 (pool + num_mines b)) ∧
    ∀ p x, p = (c, r) ∨ In p (neighbors b c r) →
      cell_at b1 p.1 p.2 = Some x → is_mine (state x) = false.
Proof using shuffle_perm.
  intros Hreach Hp.
  destruct (reachable_layout _ _ _ b Hreach) as (Hs & _ & Hclean).
  specialize (Hclean Hp).
  destruct (place_mines_spec b c r Hs) as (l2 & Hrun & Hs2 & Hpt & _).
  pose proof (place_mines_count b c r l2 Hs Hclean Hrun) as Hcnt.
  exists (set_mines_placed true (set_cells l2 b)). split_and!; [done | done | |].
  - simpl. rewrite Hcnt. unfold chosen_mines. rewrite slice_to_length.
    by rewrite (Permutation_length (shuffle_perm _)).
  - intros q x' Hzone. unfold cell_at.
    change (is_inbounds (set_mines_placed true (set_cells l2 b)) q.1 q.2)
      with (is_inbounds b q.1 q.2).
    change (slot (set_mines_placed true (set_cells l2 b)) q.1 q.2)
      with (slot b q.1 q.2).
    destruct (is_inbounds b q.1 q.2) eqn:Hqin; [|done]. simpl. intros Hx'.
    destruct (lookup_lt_is_Some_2 (cells b) (slot b q.1 q.2)) as [x Hx].
    { unfold sized in Hs, Hs2. rewrite Hs, <- Hs2. by eapply lookup_lt_Some. }
    destruct (Hpt _ x Hx) as (y & Hy & _ & _ & _ & _ & Hm).
    assert (y = x') as -> by congruence.
    rewrite Hm, (Hclean x (list_elem_of_lookup_2 _ _ _ Hx)). simpl.
    apply bool_decide_eq_false. intros (q' & Hq & Hqc)%list_elem_of_fmap.
    pose proof (chosen_mines_inbounds b c r q' Hqc) as Hq'in.
    apply slot_inj in Hq as [Hq1 Hq2]; [| done | done].
    assert (q' = q) as -> by (destruct q, q'; simpl in *; congruence).
    destruct (chosen_mines_spec b c r) as [_ Hsub].
    apply Hsub, candidate_pool_spec in Hqc as (_ & Hne & Hnn).
    destruct Hzone; done.
Qed.

(** ** Further properties of the board: coordinates and depth *)

(** X25.  [neighbors(col, row)], on any board and for any coordinates:
    the list has no duplicates and at most 8 entries; it holds exactly
    the in-bounds coordinates other than [(col, row)] at distance at
    most 1 in both directions; and a cell away from the border has 8
    neighbours. *)
Theorem neighbors_contract (b : Board) (c r : Z) :
  List.NoDup (neighbors b c r) ∧
  (length (neighbors b c r) ≤ 8)%nat ∧
  (∀ n, In n (neighbors b c r) ↔
     is_inbounds b n.1 n.2 = true ∧ n ≠ (c, r) ∧
     -1 ≤ n.1 - c ≤ 1 ∧ -1 ≤ n.2 - r ≤ 1) ∧
  (1 ≤ c < cols b - 1 → 1 ≤ r < rows b - 1 → length (neighbors b c r) = 8%nat).
Proof.
  split_and!.
  - apply neighbors_NoDup.
  - apply neighbors_length.
  - intros n. apply neighbors_near.
  - intros Hc Hr. unfold neighbors.
    rewrite List.forallb_filter_id; [by rewrite length_map|].
    apply List.forallb_forall. intros n (d & <- & Hd%deltas_spec)%in_map_iff.
    simpl. apply is_inbounds_spec. lia.
Qed.

(** X26.  [index] and the row-major layout: for in-bounds coordinates
    the index is a valid subscript from which the coordinates are
    recovered by remainder and quotient, and every subscript below
    [cols * rows] is the index of the in-bounds coordinates obtained
    that way. *)
Theorem index_round_trip (b : Board) :
  0 ≤ cols b →
  (∀ c r, is_inbounds b c r = true →
     0 ≤ index b c r < cols b * rows b ∧
     index b c r `mod` cols b = c ∧ index b c r / cols b = r) ∧
  (∀ k, 0 ≤ k < cols b * rows b →
     is_inbounds b (k `mod` cols b) (k / cols b) = true ∧
     index b (k `mod` cols b) (k / cols b) = k).
Proof.
  intros Hcols. unfold index. split.
  - intros c r [Hc Hr]%is_inbounds_spec. split; [nia|]. split.
    + rewrite Z.add_comm, Z.mod_add by lia. apply Z.mod_small. lia.
    + rewrite Z.add_comm, Z.div_add by lia. rewrite Z.div_small; lia.
  - intros k Hk. assert (0 < cols b) as Hpos.
    { destruct (Z.eq_dec (cols b) 0) as [H0|]; [rewrite H0 in Hk; lia | lia]. }
    pose proof (Z.mod_pos_bound k (cols b) Hpos).
    pose proof (Z.div_mod k (cols b)).
    assert (0 ≤ k / cols b) by (apply Z.div_pos; lia).
    assert (k / cols b < rows b) by (apply Z.div_lt_upper_bound; lia).
    split; [apply is_inbounds_spec; lia | lia].
Qed.

Lemma for_each_mono {S X : Type} (body body' : S → X → res S) (xs : list X) :
  (∀ s x s', body s x = Ret s' → body' s x = Ret s') →
  ∀ s s', for_each body xs s = Ret s' → for_each body' xs s = Ret s'.
Proof.
  intros Hbody. induction xs as [|x xs IH]; intros s s' Hrun; [done|].
  simpl in *. inv_bind_as Hrun s1 H1. rewrite (Hbody _ _ _ H1). simpl. by apply IH.
Qed.

(** X27.  The call depth does not matter once it suffices: a [reveal]
    that returns with some depth available returns the same board with
    any larger depth, on any board. *)
Theorem reveal_depth_irrelevant (depth depth' : nat) (b b' : Board) (c r : Z) :
  reveal depth b c r = Ret b' →
  (depth ≤ depth')%nat →
  reveal depth' b c r = Ret b'.
Proof.
  revert depth' b b' c r. induction depth as [|depth IH];
    intros depth' b b' c r Hrun Hle; [done|].
  destruct depth' as [|depth']; [lia|].
  rewrite reveal_S in *.
  destruct (negb (is_inbounds b c r)); [done|].
  inv_bind_as Hrun b1 Hb1. rewrite Hb1. simpl.
  inv_bind_as Hrun kx Hkx. rewrite Hkx. simpl. destruct kx as [k x].
  destruct (is_revealed (state x) || is_flagged (state x)); [done|].
  destruct (is_mine (state x)); [done|].
  inv_bind_as Hrun b3 Hb3. injection Hrun as <-.
  destruct (adjacent (state x) =? 0); [|by rewrite Hb3].
  assert (∀ s n s', reveal depth s n.1 n.2 = Ret s' →
            reveal depth' s n.1 n.2 = Ret s') as Hbody.
  { intros s n s' H. apply (IH depth' s s' n.1 n.2 H). lia. }
  by rewrite (for_each_mono (λ b' n, reveal depth b' n.1 n.2)
                (λ b' n, reveal depth' b' n.1 n.2) _ Hbody _ _ Hb3).
Qed.

End WithShuffle.

Arguments Ok {A} a.
Arguments Error {A} e.

(** ** Concrete runs

    All runs below take [id_shuffle] for the outcome of
    [random.shuffle], so that the mines go to the first pool positions
    in row-major order. *)

Ltac run := vm_compute; reflexivity.

Ltac named_run b :=
  match goal with |- _ = Ret b => unfold b; vm_compute; reflexivity end.

Ltac valid := unfold valid_config; lia.

(** [Board(5, 5, 3)], first click in the centre. *)
Lemma first_reveal_places_mines_witness :
  ∃ b', reveal id_shuffle 26 (new_board 5 5 3) 2 2 = Ret b' ∧
    mines_placed b' = true ∧
    Z.of_nat (count_cells is_mine (cells b')) = 3 ∧
    mine_free b' (2, 2) ∧
    (∀ n, In n (neighbors b' 2 2) → mine_free b' n) ∧
    ∀ n, is_inbounds b' n.1 n.2 = true →
      -1 ≤ n.1 - 2 ≤ 1 → -1 ≤ n.2 - 2 ≤ 1 → mine_free b' n.
Proof.
  apply (first_reveal_places_mines id_shuffle (λ l, Permutation_refl l)
           5 5 3 (new_board 5 5 3) 2 2 26).
  - unfold valid_config. lia.
  - apply rtc_refl.
  - reflexivity.
  - reflexivity.
  - vm_compute. lia.
Defined.

(** Claim C2 as stated fails: [Board(4, 4, 2)], [toggle_flag(0, 0)],
    then [reveal(0, 0)] on the flagged cell places the mines. *)
Lemma reveal_flagged_first_places_mines :
  ∃ b b', toggle_flag (new_board 4 4 2) 0 0 = Ret b ∧
    (∃ x, cell_at b 0 0 = Some x ∧ is_flagged (state x) = true) ∧
    reveal id_shuffle 17 b 0 0 = Ret b' ∧
    b' ≠ b ∧
    mines_placed b = false ∧ mines_placed b' = true ∧
    count_cells is_mine (cells b) = 0%nat ∧
    count_cells is_mine (cells b') = 2%nat.
Proof.
  evar (b : Board).
  assert (toggle_flag (new_board 4 4 2) 0 0 = Ret b) as H0 by named_run b.
  evar (b' : Board).
  assert (reveal id_shuffle 17 b 0 0 = Ret b') as H1 by named_run b'.
  exists b, b'. split_and!; [exact H0 | | exact H1 | | run | run | run | run].
  - eexists. split; run.
  - intros Heq. apply (f_equal mines_placed) in Heq. vm_compute in Heq. discriminate.
Qed.

(** On the board won by the first click, a call out of bounds and a
    call on an open cell change nothing. *)
Lemma reveal_noop_witness :
  ∃ b, reveal id_shuffle 17 (new_board 4 4 2) 0 0 = Ret b ∧
    reveal id_shuffle 17 b 7 7 = Ret b ∧
    reveal id_shuffle 17 b 1 1 = Ret b.
Proof.
  evar (b : Board).
  assert (reveal id_shuffle 17 (new_board 4 4 2) 0 0 = Ret b) as H0 by named_run b.
  assert (reachable id_shuffle 4 4 2 b) as Hreach.
  { eapply rtc_l; [exact (step_reveal id_shuffle _ _ _ _ _ H0) | apply rtc_refl]. }
  pose proof (reveal_noop id_shuffle (λ l, Permutation_refl l) 4 4 2 b 7 7 16
                ltac:(unfold valid_config; lia) Hreach) as (Hout & _).
  pose proof (reveal_noop id_shuffle (λ l, Permutation_refl l) 4 4 2 b 1 1 16
                ltac:(unfold valid_config; lia) Hreach) as (_ & Hrev & _).
  exists b. split_and!; [exact H0 | apply Hout; run |].
  eapply Hrev; run.
Defined.

(** Claim C4 as stated fails: [Board(5, 5, 3)], [toggle_flag(4, 4)],
    [reveal(0, 0)], then [reveal(2, 0)] on a mine.  The sweep opens the
    two other mines without counting them. *)
Lemma revealed_count_after_loss :
  ∃ b0 b1 b, toggle_flag (new_board 5 5 3) 4 4 = Ret b0 ∧
    reveal id_shuffle 26 b0 0 0 = Ret b1 ∧
    reveal id_shuffle 26 b1 2 0 = Ret b ∧
    reachable id_shuffle 5 5 3 b ∧
    revealed_count b = 22 ∧
    count_cells is_revealed (cells b) = 24%nat ∧
    revealed_count b ≠ Z.of_nat (count_cells is_revealed (cells b)).
Proof.
  evar (b0 : Board).
  assert (toggle_flag (new_board 5 5 3) 4 4 = Ret b0) as H0 by named_run b0.
  evar (b1 : Board).
  assert (reveal id_shuffle 26 b0 0 0 = Ret b1) as H1 by named_run b1.
  evar (b : Board).
  assert (reveal id_shuffle 26 b1 2 0 = Ret b) as H2 by named_run b.
  exists b0, b1, b. split_and!; [exact H0 | exact H1 | exact H2 | | run | run |
                                 vm_compute; discriminate].
  eapply rtc_l; [exact (step_toggle_flag id_shuffle _ _ _ _ H0)|].
  eapply rtc_l; [exact (step_reveal id_shuffle _ _ _ _ _ H1)|].
  eapply rtc_l; [exact (step_reveal id_shuffle _ _ _ _ _ H2) | apply rtc_refl].
Qed.

(** The same run before the loss: 21 cells counted, 21 cells open. *)
Lemma revealed_count_in_play_witness :
  ∃ b0 b, toggle_flag (new_board 5 5 3) 4 4 = Ret b0 ∧
    reveal id_shuffle 26 b0 0 0 = Ret b ∧
    revealed_count b = Z.of_nat (count_cells is_revealed (cells b)).
Proof.
  evar (b0 : Board).
  assert (toggle_flag (new_board 5 5 3) 4 4 = Ret b0) as H0 by named_run b0.
  evar (b : Board).
  assert (reveal id_shuffle 26 b0 0 0 = Ret b) as H1 by named_run b.
  exists b0, b. split_and!; [exact H0 | exact H1 |].
  apply (revealed_count_in_play id_shuffle (λ l, Permutation_refl l) 5 5 3 b).
  - unfold valid_config. lia.
  - eapply rtc_l; [exact (step_toggle_flag id_shuffle _ _ _ _ H0)|].
    eapply rtc_l; [exact (step_reveal id_shuffle _ _ _ _ _ H1) | apply rtc_refl].
  - run.
Defined.

(** [Board(4, 4, 2)]: the first click at [(0, 0)] opens all 14 safe
    cells and wins. *)
Lemma win_condition_witness :
  ∃ b', reveal id_shuffle 17 (new_board 4 4 2) 0 0 = Ret b' ∧
    win b' = true ∧
    ∀ x, x ∈ cells b' → is_mine (state x) = false → is_revealed (state x) = true.
Proof.
  evar (b' : Board).
  assert (reveal id_shuffle 17 (new_board 4 4 2) 0 0 = Ret b') as H0 by named_run b'.
  exists b'. split; [exact H0|].
  apply (win_condition id_shuffle (λ l, Permutation_refl l) 4 4 2
           (new_board 4 4 2) 0 0 17 b'); [valid | apply rtc_refl | exact H0 | run | run].
Defined.

(** [Board(5, 5, 3)] with [(4, 4)] flagged: the first click leaves
    the game in play; [reveal(2, 0)] then hits a mine. *)
Lemma loss_condition_witness :
  ∃ b0 b b', toggle_flag (new_board 5 5 3) 4 4 = Ret b0 ∧
    reveal id_shuffle 26 b0 0 0 = Ret b ∧
    reveal id_shuffle 1 b 2 0 = Ret b' ∧
    game_over b' = true ∧ win b' = false ∧
    revealed_count b' = revealed_count b + 1.
Proof.
  evar (b0 : Board).
  assert (toggle_flag (new_board 5 5 3) 4 4 = Ret b0) as H0 by named_run b0.
  evar (b : Board).
  assert (reveal id_shuffle 26 b0 0 0 = Ret b) as H1 by named_run b.
  assert (reachable id_shuffle 5 5 3 b) as Hreach.
  { eapply rtc_l; [exact (step_toggle_flag id_shuffle _ _ _ _ H0)|].
    eapply rtc_l; [exact (step_reveal id_shuffle _ _ _ _ _ H1) | apply rtc_refl]. }
  destruct (loss_condition id_shuffle (λ l, Permutation_refl l) 5 5 3 b 2 0
              (mkCell 2 0 (mkCellState true false false 0)) 0)
    as (b' & Hrun & _ & Hgo & Hwin & Hrc & _);
    [exact Hreach | run | run | run | run | run | run | run |].
  exists b0, b, b'. split_and!; [exact H0 | exact H1 | exact Hrun | exact Hgo | exact Hwin | exact Hrc].
Defined.

(** The same run with the mine at [(3, 0)] flagged before the loss:
    it ends up revealed and flagged. *)
Lemma flags_survive_loss_witness :
  ∃ b0 b1 b b', toggle_flag (new_board 5 5 3) 4 4 = Ret b0 ∧
    reveal id_shuffle 26 b0 0 0 = Ret b1 ∧
    toggle_flag b1 3 0 = Ret b ∧
    reveal id_shuffle 1 b 2 0 = Ret b' ∧
    game_over b' = true ∧
    ∃ y', cells b' !! 3%nat = Some y' ∧
      is_revealed (state y') = true ∧ is_flagged (state y') = true.
Proof.
  evar (b0 : Board).
  assert (toggle_flag (new_board 5 5 3) 4 4 = Ret b0) as H0 by named_run b0.
  evar (b1 : Board).
  assert (reveal id_shuffle 26 b0 0 0 = Ret b1) as H1 by named_run b1.
  evar (b : Board).
  assert (toggle_flag b1 3 0 = Ret b) as H2 by named_run b.
  assert (reachable id_shuffle 5 5 3 b) as Hreach.
  { eapply rtc_l; [exact (step_toggle_flag id_shuffle _ _ _ _ H0)|].
    eapply rtc_l; [exact (step_reveal id_shuffle _ _ _ _ _ H1)|].
    eapply rtc_l; [exact (step_toggle_flag id_shuffle _ _ _ _ H2) | apply rtc_refl]. }
  destruct (flags_survive_loss id_shuffle (λ l, Permutation_refl l) 5 5 3 b 2 0
              (mkCell 2 0 (mkCellState true false false 0)) 0)
    as (b' & Hrun & Hgo & Hcells);
    [exact Hreach | run | run | run | run |].
  destruct (Hcells 3%nat (mkCell 3 0 (mkCellState true false true 0)))
    as (y' & Hy' & _ & _ & Hboth); [run|].
  destruct Hboth as [Hr Hf]; [run | run |].
  exists b0, b1, b, b'. split_and!; [exact H0 | exact H1 | exact H2 | exact Hrun | exact Hgo |].
  exists y'. split_and!; [exact Hy' | exact Hr | exact Hf].
Defined.

(** Toggling out of bounds, on an open cell, and twice on the closed
    cell [(3, 0)]. *)
Lemma toggle_flag_contract_witness :
  ∃ b0 b b', toggle_flag (new_board 5 5 3) 4 4 = Ret b0 ∧
    reveal id_shuffle 26 b0 0 0 = Ret b ∧
    toggle_flag b 9 9 = Ret b ∧
    toggle_flag b 0 0 = Ret b ∧
    toggle_flag b 3 0 = Ret b' ∧
    cells b' !! 3%nat = Some (mkCell 3 0 (mkCellState true false true 0)) ∧
    revealed_count b' = revealed_count b ∧
    toggle_flag b' 3 0 = Ret b.
Proof.
  evar (b0 : Board).
  assert (toggle_flag (new_board 5 5 3) 4 4 = Ret b0) as H0 by named_run b0.
  evar (b : Board).
  assert (reveal id_shuffle 26 b0 0 0 = Ret b) as H1 by named_run b.
  assert (reachable id_shuffle 5 5 3 b) as Hreach.
  { eapply rtc_l; [exact (step_toggle_flag id_shuffle _ _ _ _ H0)|].
    eapply rtc_l; [exact (step_reveal id_shuffle _ _ _ _ _ H1) | apply rtc_refl]. }
  destruct (toggle_flag_contract id_shuffle (λ l, Permutation_refl l) 5 5 3 b 9 9
              ltac:(valid) Hreach) as (Hout & _ & _).
  destruct (toggle_flag_contract id_shuffle (λ l, Permutation_refl l) 5 5 3 b 0 0
              ltac:(valid) Hreach) as (_ & Hopen & _).
  destruct (toggle_flag_contract id_shuffle (λ l, Permutation_refl l) 5 5 3 b 3 0
              ltac:(valid) Hreach) as (_ & _ & Hflip).
  destruct (Hflip (mkCell 3 0 (mkCellState true false false 0)))
    as (b' & Hrun & Hcell & _ & _ & Hrc & _ & _ & _ & _ & _ & _ & b'' & Hrun' & -> & _);
    [run | run |].
  exists b0, b, b'.
  split_and!; [exact H0 | exact H1 | apply Hout; run | | exact Hrun | exact Hcell
              | exact Hrc | exact Hrun'].
  eapply Hopen; run.
Defined.

(** Claim C1 as stated fails: [Board(4, 4, 2)], [reveal(0, 0)] wins
    the game at once; [reveal(2, 0)] on a mine then still opens the
    cell, counts it and sets [game_over] next to [win]. *)
Lemma terminal_state_not_enforced :
  ∃ b b', reveal id_shuffle 17 (new_board 4 4 2) 0 0 = Ret b ∧
    win b = true ∧ game_over b = false ∧
    reveal id_shuffle 17 b 2 0 = Ret b' ∧
    game_over b' = true ∧ win b' = true ∧
    revealed_count b = 14 ∧ revealed_count b' = 15 ∧
    cell_at b 2 0 = Some (mkCell 2 0 (mkCellState true false false 0)) ∧
    cell_at b' 2 0 = Some (mkCell 2 0 (mkCellState true true false 0)).
Proof.
  evar (b : Board).
  assert (reveal id_shuffle 17 (new_board 4 4 2) 0 0 = Ret b) as H0 by named_run b.
  evar (b' : Board).
  assert (reveal id_shuffle 17 b 2 0 = Ret b') as H1 by named_run b'.
  exists b, b'.
  split_and!; [exact H0 | run | run | exact H1 | run | run | run | run | run | run].
Qed.

(** After the loss a flag can still be toggled; [game_over] and [win]
    stay as they are. *)
Lemma terminal_state_witness :
  ∃ b0 b1 b b', toggle_flag (new_board 5 5 3) 4 4 = Ret b0 ∧
    reveal id_shuffle 26 b0 0 0 = Ret b1 ∧
    reveal id_shuffle 26 b1 2 0 = Ret b ∧
    game_over b = true ∧
    toggle_flag b 4 4 = Ret b' ∧
    game_over b' = true ∧ win b' = win b.
Proof.
  evar (b0 : Board).
  assert (toggle_flag (new_board 5 5 3) 4 4 = Ret b0) as H0 by named_run b0.
  evar (b1 : Board).
  assert (reveal id_shuffle 26 b0 0 0 = Ret b1) as H1 by named_run b1.
  evar (b : Board).
  assert (reveal id_shuffle 26 b1 2 0 = Ret b) as H2 by named_run b.
  evar (b' : Board).
  assert (toggle_flag b 4 4 = Ret b') as H3 by named_run b'.
  assert (reachable id_shuffle 5 5 3 b) as Hreach.
  { eapply rtc_l; [exact (step_toggle_flag id_shuffle _ _ _ _ H0)|].
    eapply rtc_l; [exact (step_reveal id_shuffle _ _ _ _ _ H1)|].
    eapply rtc_l; [exact (step_reveal id_shuffle _ _ _ _ _ H2) | apply rtc_refl]. }
  destruct (terminal_state id_shuffle (λ l, Permutation_refl l) 5 5 3 b b'
              ltac:(valid) Hreach (step_toggle_flag id_shuffle _ _ _ _ H3))
    as (Hover & _ & _).
  destruct Hover as [Hgo Hwin]; [run|].
  exists b0, b1, b, b'.
  split_and!; [exact H0 | exact H1 | exact H2 | run | exact H3 | exact Hgo | exact Hwin].
Defined.

(** The cell [(3, 1)] below the three mines of the top row counts 3. *)
Lemma adjacency_correct_witness :
  ∃ b, reveal id_shuffle 26 (new_board 5 5 3) 0 0 = Ret b ∧
    cell_at b 3 1 = Some (mkCell 3 1 (mkCellState false true false 3)) ∧
    3 = mines_around b (cells b) 3 1 ∧
    3 = mines_beside b 3 1 ∧
    0 ≤ 3 ≤ 8.
Proof.
  evar (b : Board).
  assert (reveal id_shuffle 26 (new_board 5 5 3) 0 0 = Ret b) as H0 by named_run b.
  exists b. split; [exact H0|]. split; [run|].
  apply (adjacency_correct id_shuffle (λ l, Permutation_refl l) 5 5 3 b
           ltac:(eapply rtc_l; [exact (step_reveal id_shuffle _ _ _ _ _ H0) | apply rtc_refl])
           ltac:(run) 3 1 (mkCell 3 1 (mkCellState false true false 3)));
    run.
Defined.

Ltac openable_run := eexists; split_and!; run.

Ltac neighbor_run := vm_compute; tauto.

(** A flood fill held back by flags: on [Board(5, 5, 3)] column 2 is
    flagged below the top row before the first click at [(0, 0)], which
    therefore opens columns 0 and 1 only; [reveal(4, 4)] then opens the
    eight closed cells of columns 3 and 4 and leaves the flagged column
    closed. *)
Lemma flood_fill_reveal_witness :
  ∃ b1 b2 b3 b4 b b',
    toggle_flag (new_board 5 5 3) 2 1 = Ret b1 ∧
    toggle_flag b1 2 2 = Ret b2 ∧
    toggle_flag b2 2 3 = Ret b3 ∧
    toggle_flag b3 2 4 = Ret b4 ∧
    reveal id_shuffle 26 b4 0 0 = Ret b ∧
    reveal id_shuffle 26 b 4 4 = Ret b' ∧
    game_over b' = false ∧
    cell_at b' 3 1 = Some (mkCell 3 1 (mkCellState false true false 3)) ∧
    cell_at b' 2 2 = Some (mkCell 2 2 (mkCellState false false true 0)).
Proof.
  evar (b1 : Board).
  assert (toggle_flag (new_board 5 5 3) 2 1 = Ret b1) as H1 by named_run b1.
  evar (b2 : Board).
  assert (toggle_flag b1 2 2 = Ret b2) as H2 by named_run b2.
  evar (b3 : Board).
  assert (toggle_flag b2 2 3 = Ret b3) as H3 by named_run b3.
  evar (b4 : Board).
  assert (toggle_flag b3 2 4 = Ret b4) as H4 by named_run b4.
  evar (b : Board).
  assert (reveal id_shuffle 26 b4 0 0 = Ret b) as H5 by named_run b.
  assert (reachable id_shuffle 5 5 3 b) as Hreach.
  { eapply rtc_l; [exact (step_toggle_flag id_shuffle _ _ _ _ H1)|].
    eapply rtc_l; [exact (step_toggle_flag id_shuffle _ _ _ _ H2)|].
    eapply rtc_l; [exact (step_toggle_flag id_shuffle _ _ _ _ H3)|].
    eapply rtc_l; [exact (step_toggle_flag id_shuffle _ _ _ _ H4)|].
    eapply rtc_l; [exact (step_reveal id_shuffle _ _ _ _ _ H5) | apply rtc_refl]. }
  destruct (flood_fill_reveal id_shuffle (λ l, Permutation_refl l) 5 5 3 b 4 4
              (mkCell 4 4 (mkCellState false false false 0)) 26)
    as (b' & Hrun & Hgo & _ & Hzero);
    [valid | exact Hreach | run | run | run | run | run | run | run
    | vm_compute; lia |].
  destruct (Hzero eq_refl) as [_ Hregion].
  destruct (Hregion (3, 1) (mkCell 3 1 (mkCellState false false false 3)))
    as [Hin _]; [run|].
  destruct (Hregion (2, 2) (mkCell 2 2 (mkCellState false false true 0)))
    as [_ Hout]; [run|].
  exists b1, b2, b3, b4, b, b'.
  split_and!; [exact H1 | exact H2 | exact H3 | exact H4 | exact H5 | exact Hrun
              | exact Hgo | |].
  - apply Hin.
    apply (flood_step b (4, 4) (4, 2) (3, 1));
      [| openable_run | neighbor_run | openable_run].
    apply (flood_step b (4, 4) (4, 3) (4, 2));
      [| openable_run | neighbor_run | openable_run].
    apply (flood_step b (4, 4) (4, 4) (4, 3));
      [| openable_run | neighbor_run | openable_run].
    apply flood_here. openable_run.
  - apply Hout. intros Hfl.
    apply flood_openable in Hfl as (x & Hx & _ & Hflag).
    vm_compute in Hx. injection Hx as <-. discriminate.
Defined.

(** ** Concrete runs for the further properties *)

(** [Board(5, 5, 3)]: a fresh board has 25 closed cells, so depth 26 is
    enough for any call. *)
Lemma reveal_returns_witness :
  ∃ b', reveal id_shuffle 26 (new_board 5 5 3) 2 2 = Ret b'.
Proof.
  apply (reveal_returns id_shuffle (λ l, Permutation_refl l) 5 5 3
           (new_board 5 5 3) 2 2 26); [valid | apply rtc_refl | vm_compute; lia].
Defined.

(** [Board(2, 2, 7)] has more mines than cells; [toggle_flag] still
    returns. *)
Lemma toggle_flag_returns_witness :
  ∃ b', toggle_flag (new_board 2 2 7) 1 1 = Ret b'.
Proof.
  apply (toggle_flag_returns id_shuffle (λ l, Permutation_refl l) 2 2 7
           (new_board 2 2 7) 1 1). apply rtc_refl.
Defined.

(** [Board(5, 5, 3)] with [(4, 4)] flagged and [(0, 0)] clicked; then
    the mine at [(2, 0)] is clicked.  The counter has not gone down and
    [(0, 0)] is still open. *)
Lemma revealed_never_reverts_witness :
  ∃ b0 b b', toggle_flag (new_board 5 5 3) 4 4 = Ret b0 ∧
    reveal id_shuffle 26 b0 0 0 = Ret b ∧
    reveal id_shuffle 26 b 2 0 = Ret b' ∧
    revealed_count b ≤ revealed_count b' ∧
    ∃ x', cell_at b' 0 0 = Some x' ∧ is_revealed (state x') = true.
Proof.
  evar (b0 : Board).
  assert (toggle_flag (new_board 5 5 3) 4 4 = Ret b0) as H0 by named_run b0.
  evar (b : Board).
  assert (reveal id_shuffle 26 b0 0 0 = Ret b) as H1 by named_run b.
  evar (b' : Board).
  assert (reveal id_shuffle 26 b 2 0 = Ret b') as H2 by named_run b'.
  destruct (revealed_never_reverts id_shuffle (λ l, Permutation_refl l) 5 5 3 b b')
    as [Hle Hopen].
  - eapply rtc_l; [exact (step_toggle_flag id_shuffle _ _ _ _ H0)|].
    eapply rtc_l; [exact (step_reveal id_shuffle _ _ _ _ _ H1) | apply rtc_refl].
  - eapply rtc_l; [exact (step_reveal id_shuffle _ _ _ _ _ H2) | apply rtc_refl].
  - exists b0, b, b'. split_and!; [exact H0 | exact H1 | exact H2 | exact Hle |].
    apply (Hopen 0 0 (mkCell 0 0 (mkCellState false true false 0))); run.
Defined.

(** The same run: the mine at [(2, 0)] and the count 1 at [(1, 1)] are
    the same after the loss. *)
Lemma mine_layout_fixed_witness :
  ∃ b0 b b', toggle_flag (new_board 5 5 3) 4 4 = Ret b0 ∧
    reveal id_shuffle 26 b0 0 0 = Ret b ∧
    reveal id_shuffle 26 b 2 0 = Ret b' ∧
    mines_placed b' = true ∧
    ∃ x', cell_at b' 1 1 = Some x' ∧
      is_mine (state x') = false ∧ adjacent (state x') = 1.
Proof.
  evar (b0 : Board).
  assert (toggle_flag (new_board 5 5 3) 4 4 = Ret b0) as H0 by named_run b0.
  evar (b : Board).
  assert (reveal id_shuffle 26 b0 0 0 = Ret b) as H1 by named_run b.
  evar (b' : Board).
  assert (reveal id_shuffle 26 b 2 0 = Ret b') as H2 by named_run b'.
  destruct (mine_layout_fixed id_shuffle (λ l, Permutation_refl l) 5 5 3 b b')
    as [Hp Hsame].
  - eapply rtc_l; [exact (step_toggle_flag id_shuffle _ _ _ _ H0)|].
    eapply rtc_l; [exact (step_reveal id_shuffle _ _ _ _ _ H1) | apply rtc_refl].
  - run.
  - eapply rtc_l; [exact (step_reveal id_shuffle _ _ _ _ _ H2) | apply rtc_refl].
  - exists b0, b, b'. split_and!; [exact H0 | exact H1 | exact H2 | exact Hp |].
    apply (Hsame 1 1 (mkCell 1 1 (mkCellState false true false 1))). run.
Defined.

(** Flagging [(4, 4)] on a fresh [Board(5, 5, 3)] makes the count 1. *)
Lemma toggle_flag_counts_witness :
  ∃ b', toggle_flag (new_board 5 5 3) 4 4 = Ret b' ∧
    flagged_count b' = 1 ∧
    0 ≤ flagged_count b' ≤ Z.of_nat (length (cells b')).
Proof.
  apply (toggle_flag_counts id_shuffle (λ l, Permutation_refl l) 5 5 3
           (new_board 5 5 3) 4 4 (new_cell 4 4));
    [valid | apply rtc_refl | run | run].
Defined.

(** The first click at [(0, 0)] keeps the flag put on [(4, 4)]. *)
Lemma reveal_keeps_flags_witness :
  ∃ b0 b, toggle_flag (new_board 5 5 3) 4 4 = Ret b0 ∧
    reveal id_shuffle 26 b0 0 0 = Ret b ∧
    flagged_count b = flagged_count b0 ∧
    ∃ x', cells b !! 24%nat = Some x' ∧ is_flagged (state x') = true.
Proof.
  evar (b0 : Board).
  assert (toggle_flag (new_board 5 5 3) 4 4 = Ret b0) as H0 by named_run b0.
  evar (b : Board).
  assert (reveal id_shuffle 26 b0 0 0 = Ret b) as H1 by named_run b.
  destruct (reveal_keeps_flags id_shuffle (λ l, Permutation_refl l) 5 5 3 b0 0 0 26 b)
    as [Hcount Hflags].
  - valid.
  - eapply rtc_l; [exact (step_toggle_flag id_shuffle _ _ _ _ H0) | apply rtc_refl].
  - exact H1.
  - exists b0, b. split_and!; [exact H0 | exact H1 | exact Hcount |].
    apply (Hflags 24%nat (mkCell 4 4 (mkCellState false false true 0))). run.
Defined.

(** After the loss on [(2, 0)] all three mines are shown. *)
Lemma game_over_shows_mines_witness :
  ∃ b0 b b', toggle_flag (new_board 5 5 3) 4 4 = Ret b0 ∧
    reveal id_shuffle 26 b0 0 0 = Ret b ∧
    reveal id_shuffle 26 b 2 0 = Ret b' ∧
    ∀ x, x ∈ cells b' → is_mine (state x) = true → is_revealed (state x) = true.
Proof.
  evar (b0 : Board).
  assert (toggle_flag (new_board 5 5 3) 4 4 = Ret b0) as H0 by named_run b0.
  evar (b : Board).
  assert (reveal id_shuffle 26 b0 0 0 = Ret b) as H1 by named_run b.
  evar (b' : Board).
  assert (reveal id_shuffle 26 b 2 0 = Ret b') as H2 by named_run b'.
  exists b0, b, b'. split_and!; [exact H0 | exact H1 | exact H2 |].
  apply (game_over_shows_mines id_shuffle (λ l, Permutation_refl l) 5 5 3 b').
  - valid.
  - eapply rtc_l; [exact (step_toggle_flag id_shuffle _ _ _ _ H0)|].
    eapply rtc_l; [exact (step_reveal id_shuffle _ _ _ _ _ H1)|].
    eapply rtc_l; [exact (step_reveal id_shuffle _ _ _ _ _ H2) | apply rtc_refl].
  - run.
Defined.

(** [Board(4, 4, 2)] is won by the first click; a later [toggle_flag]
    on the closed mine at [(2, 0)] leaves every safe cell shown. *)
Lemma win_shows_safe_cells_witness :
  ∃ b b', reveal id_shuffle 17 (new_board 4 4 2) 0 0 = Ret b ∧
    toggle_flag b 2 0 = Ret b' ∧
    mines_placed b' = true ∧
    ∀ x, x ∈ cells b' → is_mine (state x) = false → is_revealed (state x) = true.
Proof.
  evar (b : Board).
  assert (reveal id_shuffle 17 (new_board 4 4 2) 0 0 = Ret b) as H0 by named_run b.
  evar (b' : Board).
  assert (toggle_flag b 2 0 = Ret b') as H1 by named_run b'.
  exists b, b'. split; [exact H0|]. split; [exact H1|].
  apply (win_shows_safe_cells id_shuffle (λ l, Permutation_refl l) 4 4 2 b').
  - valid.
  - eapply rtc_l; [exact (step_reveal id_shuffle _ _ _ _ _ H0)|].
    eapply rtc_l; [exact (step_toggle_flag id_shuffle _ _ _ _ H1) | apply rtc_refl].
  - run.
Defined.

(** The first click on [Board(5, 5, 3)], made twice. *)
Lemma reveal_twice_witness :
  ∃ b', reveal id_shuffle 26 (new_board 5 5 3) 0 0 = Ret b' ∧
    reveal id_shuffle 26 b' 0 0 = Ret b'.
Proof.
  evar (b' : Board).
  assert (reveal id_shuffle 26 (new_board 5 5 3) 0 0 = Ret b') as H0 by named_run b'.
  exists b'. split; [exact H0|].
  apply (reveal_twice id_shuffle (λ l, Permutation_refl l) 5 5 3 26 (new_board 5 5 3));
    [valid | apply rtc_refl | exact H0].
Defined.

(** The first click in the centre of [Board(5, 5, 3)]. *)
Lemma first_click_safe_witness :
  ∃ b', reveal id_shuffle 26 (new_board 5 5 3) 2 2 = Ret b' ∧
    mines_placed b' = true ∧ game_over b' = false ∧
    revealed_at b' (2, 2) ∧
    ∀ n, In n (neighbors (new_board 5 5 3) 2 2) → revealed_at b' n ∨ flagged_at b' n.
Proof.
  apply (first_click_safe id_shuffle (λ l, Permutation_refl l) 5 5 3 26
           (new_board 5 5 3) 2 2 (new_cell 2 2));
    [valid | apply rtc_refl | run | run | run | vm_compute; lia].
Defined.

(** [Board(5, 5, 3)] after a flag and a click: slot [(3, 2)] holds the
    cell with [col = 3] and [row = 2]. *)
Lemma board_shape_witness :
  ∃ b0 b, toggle_flag (new_board 5 5 3) 4 4 = Ret b0 ∧
    reveal id_shuffle 26 b0 0 0 = Ret b ∧
    cols b = 5 ∧ rows b = 5 ∧ length (cells b) = 25%nat ∧
    ∃ x, cell_at b 3 2 = Some x ∧ col x = 3 ∧ row x = 2.
Proof.
  evar (b0 : Board).
  assert (toggle_flag (new_board 5 5 3) 4 4 = Ret b0) as H0 by named_run b0.
  evar (b : Board).
  assert (reveal id_shuffle 26 b0 0 0 = Ret b) as H1 by named_run b.
  destruct (board_shape id_shuffle (λ l, Permutation_refl l) 5 5 3 b)
    as (Hc & Hr & Hlen & Hcell).
  - eapply rtc_l; [exact (step_toggle_flag id_shuffle _ _ _ _ H0)|].
    eapply rtc_l; [exact (step_reveal id_shuffle _ _ _ _ _ H1) | apply rtc_refl].
  - exists b0, b. split_and!; [exact H0 | exact H1 | exact Hc | exact Hr | exact Hlen |].
    apply Hcell. run.
Defined.

(** ** Concrete runs of the presentation layer

    The configuration is [config], the module [config.py] as it is. *)

Ltac ui_run g :=
  match goal with |- _ = Ok _ => unfold g; vm_compute; reflexivity end.

Ltac ui_valid := unfold valid_config; simpl; lia.

(** The pixel [(121, 125)] lies in the rectangle of the cell [(3, 2)]. *)
Lemma pos_to_grid_cell_rect_witness :
  collidepoint (cell_rect config 3 2) (121, 125) = true ↔
  pos_to_grid config (new_board 16 16 40) 121 125 = Ok (3, 2).
Proof.
  apply (pos_to_grid_cell_rect config (new_board 16 16 40) 3 2 121 125);
    [simpl; lia | simpl; lia | simpl; lia | reflexivity].
Defined.

(** The first left click of a game, on the pixel [(30, 70)] of the cell
    [(0, 0)]. *)
Lemma left_click_reveals_once_witness :
  handle_mouse id_shuffle config (new_game config) (30, 70) 1 1000 0 300 =
  match reveal id_shuffle 300 (new_board 16 16 40) 0 0 with
  | Ret b' => Ok (config, mkGame b' ∅ 0 true 1000 0 false 0 None (-1, -1) (-1, -1) 0)
  | Raise e => Error (BoardError e)
  end.
Proof.
  apply (left_click_reveals_once id_shuffle (λ l, Permutation_refl l) 16 16 40
           config (new_game config) (30, 70) 1 1000 0%nat 300%nat 0 0);
    [valid | apply rtc_refl | simpl; lia | reflexivity | lia | reflexivity].
Defined.

(** A hint on a fresh [Board(5, 5, 3)]: every cell is closed,
    unflagged and free of a mine. *)
Lemma give_hint_picks_safe_cell_witness :
  ∃ g',
    give_hint (mkGame (new_board 5 5 3) ∅ 0 true 0 0 false 0 None (-1, -1) (-1, -1) 0)
      500 7 = Ret g' ∧
    ∃ x, cell_at (new_board 5 5 3) (hint_pos g').1 (hint_pos g').2 = Some x ∧
      is_mine (state x) = false ∧ is_revealed (state x) = false ∧
      is_flagged (state x) = false.
Proof.
  destruct (give_hint_picks_safe_cell id_shuffle (λ l, Permutation_refl l) 5 5 3
              (mkGame (new_board 5 5 3) ∅ 0 true 0 0 false 0 None (-1, -1) (-1, -1) 0)
              500 7)
    as [[Hrun Hnone]|(p & x & Hrun & Hx & Hsafe)].
  - apply rtc_refl.
  - exfalso.
    destruct (Hnone 0 0 (new_cell 0 0)) as [Hm|[Hr|Hf]];
      [reflexivity | discriminate | discriminate | discriminate].
  - eexists. split; [exact Hrun|]. exists x. split; [exact Hx | exact Hsafe].
Defined.

(** The middle click on [(3, 1)] of [Board(5, 5, 3)] after a flag on
    [(4, 4)] and the first click at [(0, 0)]. *)
Lemma closed_neighbors_spec_witness :
  ∃ b0 b targets,
    toggle_flag (new_board 5 5 3) 4 4 = Ret b0 ∧
    reveal id_shuffle 26 b0 0 0 = Ret b ∧
    closed_neighbors b 3 1 = Ret targets ∧
    ∀ n, n ∈ targets ↔ In n (neighbors b 3 1) ∧ closed_at b n.
Proof.
  evar (b0 : Board).
  assert (toggle_flag (new_board 5 5 3) 4 4 = Ret b0) as H0 by named_run b0.
  evar (b : Board).
  assert (reveal id_shuffle 26 b0 0 0 = Ret b) as H1 by named_run b.
  destruct (closed_neighbors_spec id_shuffle (λ l, Permutation_refl l) 5 5 3 b 3 1)
    as (targets & Hrun & Hspec).
  - eapply rtc_l; [exact (step_toggle_flag id_shuffle _ _ _ _ H0)|].
    eapply rtc_l; [exact (step_reveal id_shuffle _ _ _ _ _ H1) | apply rtc_refl].
  - exists b0, b, targets. split_and!; [exact H0 | exact H1 | exact Hrun | exact Hspec].
Defined.

(** The runs below are those of the program as it is: the game starts
    with a left click on the cell [(0, 0)] at 1000 ms, and a key pauses
    it at 2500 ms. *)
Lemma game_board_reachable_witness :
  ∃ g,
    handle_event id_shuffle config (new_game config)
      (MOUSEBUTTONDOWN (30, 70) 1) 1000 0 300 = Ok (config, g) ∧
    reachable id_shuffle 16 16 40 (board g) ∧
    started g = mines_placed (board g).
Proof.
  evar (g : Game).
  assert (handle_event id_shuffle config (new_game config)
            (MOUSEBUTTONDOWN (30, 70) 1) 1000 0 300 = Ok (config, g)) as H1
    by ui_run g.
  exists g. split; [exact H1|].
  apply (game_board_reachable id_shuffle (λ l, Permutation_refl l) config config g);
    [ui_valid|].
  eapply rtc_l; [exact (ui_handle_event id_shuffle _ _ _ _ _ _ _ H1) | apply rtc_refl].
Defined.

(** [config.py] defines no hint button: after the click and the key
    no hint has been given. *)
Lemma hint_never_on_mine_witness :
  ∃ g1 g2,
    handle_event id_shuffle config (new_game config)
      (MOUSEBUTTONDOWN (30, 70) 1) 1000 0 300 = Ok (config, g1) ∧
    handle_event id_shuffle config g1 KEYDOWN 2500 0 300 = Ok (config, g2) ∧
    hint_pos g2 = (-1, -1).
Proof.
  evar (g1 : Game).
  assert (handle_event id_shuffle config (new_game config)
            (MOUSEBUTTONDOWN (30, 70) 1) 1000 0 300 = Ok (config, g1)) as H1
    by ui_run g1.
  evar (g2 : Game).
  assert (handle_event id_shuffle config g1 KEYDOWN 2500 0 300 = Ok (config, g2))
    as H2 by ui_run g2.
  exists g1, g2. split; [exact H1|]. split; [exact H2|].
  destruct (hint_never_on_mine id_shuffle (λ l, Permutation_refl l) config config g2)
    as [Hnone _].
  - ui_valid.
  - eapply rtc_l; [exact (ui_handle_event id_shuffle _ _ _ _ _ _ _ H1)|].
    eapply rtc_l; [exact (ui_handle_event id_shuffle _ _ _ _ _ _ _ H2) | apply rtc_refl].
  - apply Hnone. reflexivity.
Defined.

Lemma pause_only_in_play_witness :
  ∃ g1 g2,
    handle_event id_shuffle config (new_game config)
      (MOUSEBUTTONDOWN (30, 70) 1) 1000 0 300 = Ok (config, g1) ∧
    handle_event id_shuffle config g1 KEYDOWN 2500 0 300 = Ok (config, g2) ∧
    paused g2 = true ∧
    started g2 = true ∧ game_over (board g2) = false ∧ win (board g2) = false ∧
    end_ticks_ms g2 = 0 ∧ is_Some (pause_start_ticks g2).
Proof.
  evar (g1 : Game).
  assert (handle_event id_shuffle config (new_game config)
            (MOUSEBUTTONDOWN (30, 70) 1) 1000 0 300 = Ok (config, g1)) as H1
    by ui_run g1.
  evar (g2 : Game).
  assert (handle_event id_shuffle config g1 KEYDOWN 2500 0 300 = Ok (config, g2))
    as H2 by ui_run g2.
  exists g1, g2. split; [exact H1|]. split; [exact H2|]. split; [reflexivity|].
  apply (pause_only_in_play id_shuffle (λ l, Permutation_refl l) config config g2);
    [ui_valid | | reflexivity].
  eapply rtc_l; [exact (ui_handle_event id_shuffle _ _ _ _ _ _ _ H1)|].
  eapply rtc_l; [exact (ui_handle_event id_shuffle _ _ _ _ _ _ _ H2) | apply rtc_refl].
Defined.

(** At the start of the game a left click on the header, at
    [(410, 10)], raises [AttributeError]; the left click on the cell
    [(0, 0)] is handled. *)
Lemma handle_event_raises_witness :
  handle_event id_shuffle config (new_game config)
    (MOUSEBUTTONDOWN (410, 10) 1) 2000 0 300 = Error AttributeError ∧
  ∃ st', handle_event id_shuffle config (new_game config)
           (MOUSEBUTTONDOWN (30, 70) 1) 1000 0 300 = Ok st'.
Proof.
  split.
  - destruct (handle_event_raises id_shuffle (λ l, Permutation_refl l) config config
                (new_game config) (MOUSEBUTTONDOWN (410, 10) 1) 2000 0 300)
      as [Hraise _]; [ui_valid | apply rtc_refl | vm_compute; lia |].
    apply (Hraise (410, 10)); [reflexivity | reflexivity | simpl; lia | reflexivity].
  - destruct (handle_event_raises id_shuffle (λ l, Permutation_refl l) config config
                (new_game config) (MOUSEBUTTONDOWN (30, 70) 1) 1000 0 300)
      as [_ Hreturn]; [ui_valid | apply rtc_refl | vm_compute; lia |].
    apply Hreturn. intros p Hev _ Hy. injection Hev as <-. simpl in Hy. lia.
Defined.

(** Paused at 2500 ms in a game started at 1000 ms: the elapsed time
    read at 9999 ms is -1000. *)
Lemma paused_clock_witness :
  ∃ g1 g2,
    handle_event id_shuffle config (new_game config)
      (MOUSEBUTTONDOWN (30, 70) 1) 1000 0 300 = Ok (config, g1) ∧
    handle_event id_shuffle config g1 KEYDOWN 2500 0 300 = Ok (config, g2) ∧
    pause_start_ticks g2 = Some 2500 ∧
    paused_start_ticks g2 = 0 ∧
    elapsed_ms g2 9999 = -1000.
Proof.
  evar (g1 : Game).
  assert (handle_event id_shuffle config (new_game config)
            (MOUSEBUTTONDOWN (30, 70) 1) 1000 0 300 = Ok (config, g1)) as H1
    by ui_run g1.
  evar (g2 : Game).
  assert (handle_event id_shuffle config g1 KEYDOWN 2500 0 300 = Ok (config, g2))
    as H2 by ui_run g2.
  destruct (paused_clock id_shuffle (λ l, Permutation_refl l) config config g2 9999)
    as [Hzero Hclock].
  - ui_valid.
  - eapply rtc_l; [exact (ui_handle_event id_shuffle _ _ _ _ _ _ _ H1)|].
    eapply rtc_l; [exact (ui_handle_event id_shuffle _ _ _ _ _ _ _ H2) | apply rtc_refl].
  - exists g1, g2. split; [exact H1|]. split; [exact H2|]. split; [reflexivity|].
    split; [exact Hzero|]. exact (Hclock eq_refl).
Defined.

(** After the first click and a right click that flags the cell
    [(2, 4)], the module [config] is as at the start. *)
Lemma config_fixed_witness :
  ∃ cfg g1 g2,
    handle_event id_shuffle config (new_game config)
      (MOUSEBUTTONDOWN (30, 70) 1) 1000 0 300 = Ok (config, g1) ∧
    handle_event id_shuffle config g1
      (MOUSEBUTTONDOWN (100, 200) 3) 3200 0 300 = Ok (cfg, g2) ∧
    flagged_count (board g2) = 1 ∧
    cfg = config.
Proof.
  evar (g1 : Game).
  assert (handle_event id_shuffle config (new_game config)
            (MOUSEBUTTONDOWN (30, 70) 1) 1000 0 300 = Ok (config, g1)) as H1
    by ui_run g1.
  evar (g2 : Game).
  assert (handle_event id_shuffle config g1
            (MOUSEBUTTONDOWN (100, 200) 3) 3200 0 300 = Ok (config, g2)) as H2
    by ui_run g2.
  exists config, g1, g2. split; [exact H1|]. split; [exact H2|]. split; [reflexivity|].
  destruct (config_fixed id_shuffle (λ l, Permutation_refl l) config config g2)
    as [Hsame _].
  - ui_valid.
  - eapply rtc_l; [exact (ui_handle_event id_shuffle _ _ _ _ _ _ _ H1)|].
    eapply rtc_l; [exact (ui_handle_event id_shuffle _ _ _ _ _ _ _ H2) | apply rtc_refl].
  - apply Hsame. reflexivity.
Defined.

(** ** Concrete runs for the counts *)

(** [Board(4, 4, 2)] after the first click: all 14 safe cells are
    counted and the game is won. *)
Lemma win_iff_all_safe_counted_witness :
  ∃ b, reveal id_shuffle 17 (new_board 4 4 2) 0 0 = Ret b ∧
    0 ≤ revealed_count b ≤ 14 ∧
    (win b = true ↔ revealed_count b = 14).
Proof.
  evar (b : Board).
  assert (reveal id_shuffle 17 (new_board 4 4 2) 0 0 = Ret b) as H0 by named_run b.
  exists b. split; [exact H0|].
  apply (win_iff_all_safe_counted id_shuffle (λ l, Permutation_refl l) 4 4 2 b).
  - valid.
  - lia.
  - eapply rtc_l; [exact (step_reveal id_shuffle _ _ _ _ _ H0) | apply rtc_refl].
  - run.
Defined.

(** [Board(5, 5, 30)] asks for more mines than the 16 cells outside the
    safe zone of the centre: 16 mines are placed. *)
Lemma place_mines_any_config_witness :
  ∃ b1, place_mines id_shuffle (new_board 5 5 30) 2 2 = Ret b1 ∧
    mines_placed b1 = true ∧
    Z.of_nat (count_cells is_mine (cells b1)) = 16 ∧
    ∀ p x, p = (2, 2) ∨ In p (neighbors (new_board 5 5 30) 2 2) →
      cell_at b1 p.1 p.2 = Some x → is_mine (state x) = false.
Proof.
  apply (place_mines_any_config id_shuffle (λ l, Permutation_refl l) 5 5 30
           (new_board 5 5 30) 2 2); [apply rtc_refl | reflexivity].
Defined.

(** The centre of [Board(5, 5, 3)] has 8 neighbours. *)
Lemma neighbors_contract_witness :
  length (neighbors (new_board 5 5 3) 2 2) = 8%nat.
Proof.
  destruct (neighbors_contract (new_board 5 5 3) 2 2) as (_ & _ & _ & Hinner).
  apply Hinner; simpl; lia.
Defined.

(** On [Board(5, 4, 3)] the cell [(3, 2)] has index 13, and subscript 13
    leads back to [(3, 2)]. *)
Lemma index_round_trip_witness :
  index (new_board 5 4 3) 3 2 = 13 ∧
  is_inbounds (new_board 5 4 3) (13 `mod` 5) (13 / 5) = true ∧
  index (new_board 5 4 3) (13 `mod` 5) (13 / 5) = 13.
Proof.
  destruct (index_round_trip (new_board 5 4 3)) as [_ Hback]; [simpl; lia|].
  split; [reflexivity|]. apply (Hback 13). simpl. lia.
Defined.

(** The first click on [Board(5, 5, 3)] returns with a depth of 26;
    with 1000 frames available the board is the same. *)
Lemma reveal_depth_irrelevant_witness :
  ∃ b', reveal id_shuffle 26 (new_board 5 5 3) 0 0 = Ret b' ∧
    reveal id_shuffle 1000 (new_board 5 5 3) 0 0 = Ret b'.
Proof.
  evar (b' : Board).
  assert (reveal id_shuffle 26 (new_board 5 5 3) 0 0 = Ret b') as H0 by named_run b'.
  exists b'. split; [exact H0|].
  apply (reveal_depth_irrelevant id_shuffle 26 1000 (new_board 5 5 3) b' 0 0);
    [exact H0 | lia].
Defined.
